(** * A shallow embedding of the simple-dgm self-improvement framework

    The development follows three source files:
    - [archive.py]          ([SimpleArchive]: the agents table and its queries),
    - [swe_bench_loader.py] ([SWEBenchLoader]: sandboxes, patch application, tests),
    - [evaluator.py]        ([SWEBenchEvaluator]: the evaluation loop, patch
                             extraction, improvement metrics).

    Modelling conventions.
    - Python [int] is [Z]. A Python [float] is the rational [Q] it
      denotes, and comparisons of floats are comparisons of rationals.
      The quotient of two counters (a pass rate, a success rate) is the
      rational quotient and stands for the double nearest to it. Longer
      float computations (sums, means, differences) are taken over the
      rationals as well, without the rounding of each operation;
      theorems and examples about them state only what that rounding
      cannot change, and where an example states a computed value its
      scores are binary fractions, on which floating point is exact.
    - Python [str] is [string], read as a sequence of characters, one
      [ascii] each (the code points below 256); [len] and slices count
      characters. Text with other characters is not covered.
    - Dictionaries with a fixed set of keys are records; the two dictionaries
      whose key set is the observable result ([get_statistics],
      [get_improvement_metrics]) are association lists in insertion order.
    - SQLite's [agents] table is the list of its rows in rowid order. An
      [ORDER BY] leaves the order of rows that tie on every sort key to
      the query plan; the model lists such rows in rowid order, which is
      one of the possible orders, and theorems about a listing are stated
      up to the order of tied rows.
    - The outside world (git, pytest, the agent, the file system, the clock)
      is an oracle [Env]; every call is recorded in a chronological log. *)

From Stdlib Require Import String Ascii Bool ZArith QArith Lia List.
From Stdlib Require Import Sorting.Sorted Sorting.Permutation Lists.Finite.
Import ListNotations.

Local Open Scope string_scope.
Local Open Scope Z_scope.

(* ===================================================================== *)
(** * Python built-ins used by the sources *)
(* ===================================================================== *)

Module Py.

(** Values that appear in the exported dictionaries. *)
Inductive value : Type :=
| VNone
| VBool (b : bool)
| VInt (z : Z)
| VFloat (q : Q)
| VStr (s : string)
| VSeries (l : list (Z * Q)).   (* a list of (timestamp, score) tuples *)

Definition dict := list (string * value).

Fixpoint get (d : dict) (k : string) : option value :=
  match d with
  | [] => None
  | (k', v) :: d' => if String.eqb k k' then Some v else get d' k
  end.


(** [seq[lo:hi]] with Python's treatment of negative and out-of-range
    bounds; [None] is an omitted bound. *)
Definition clamp_index (len i : Z) : Z :=
  let j := if i <? 0 then i + len else i in
  Z.max 0 (Z.min len j).

Definition slice {A} (l : list A) (lo hi : option Z) : list A :=
  let len := Z.of_nat (length l) in
  let a := match lo with None => 0 | Some i => clamp_index len i end in
  let b := match hi with None => len | Some i => clamp_index len i end in
  firstn (Z.to_nat (b - a)) (skipn (Z.to_nat a) l).

(** [seq[-1]]: the last element, [IndexError] (here [None]) when empty. *)
Definition last_item {A} (l : list A) : option A :=
  match rev l with
  | [] => None
  | x :: _ => Some x
  end.

(** [sum(xs)] over floats, as the sum of the rationals. *)
Definition sum (l : list Q) : Q := fold_left Qplus l 0%Q.

(** Stable sort; [before x y] says that [x] may stay in front of [y].
    Elements are inserted from the right, so that among equal keys the
    original order is kept, as Python's [sorted] does. *)
Section Sort.
Context {A : Type} (before : A -> A -> bool).

Fixpoint insert (x : A) (l : list A) : list A :=
  match l with
  | [] => [x]
  | y :: t => if before x y then x :: y :: t else y :: insert x t
  end.

Definition sort (l : list A) : list A := fold_right insert [] l.
End Sort.

(** [sorted(l, key=key, reverse=True)] on float keys. *)
Definition sorted_desc {A} (key : A -> Q) : list A -> list A :=
  sort (fun x y => Qle_bool (key y) (key x)).

(** [x or 0.0] for an optional float [x]. *)
Definition or_zero (x : option Q) : Q :=
  match x with
  | None => 0%Q
  | Some q => if Qeq_bool q 0 then 0%Q else q
  end.

(** ** Strings *)

Definition newline : ascii := ascii_of_nat 10.
Definition nl : string := String newline EmptyString.

(** [s.split('\n')] *)
Fixpoint split_lines (s : string) : list string :=
  match s with
  | EmptyString => [EmptyString]
  | String c s' =>
      if Ascii.eqb c newline then EmptyString :: split_lines s'
      else match split_lines s' with
           | h :: t => String c h :: t
           | [] => [String c EmptyString]
           end
  end.

(** ['\n'.join(lines)] *)
Definition join_lines (lines : list string) : string := String.concat nl lines.

(** [s.startswith(p)] *)
Definition startswith (s p : string) : bool := String.prefix p s.

(** [re.findall(pat, s)] for a pattern [pat] without metacharacters and
    without groups: the non-overlapping occurrences of [pat], left to
    right, each reported as the matched text. [skip] counts the
    characters of the current match still to be passed over. *)
Fixpoint findall_literal (pat : string) (skip : nat) (s : string) : list string :=
  match s with
  | EmptyString => []
  | String _ s' =>
      match skip with
      | S k => findall_literal pat k s'
      | O => if String.prefix pat s
             then pat :: findall_literal pat (String.length pat - 1) s'
             else findall_literal pat 0 s'
      end
  end.

(** ASCII white space as [str.strip] and [str.isspace] see it. *)
Definition is_space (c : ascii) : bool :=
  let n := nat_of_ascii c in
  ((9 <=? n) && (n <=? 13) || (28 <=? n) && (n <=? 32))%nat.

(** Truth value of [s.strip()]: some character is not white space. *)
Fixpoint strip_nonempty (s : string) : bool :=
  match s with
  | EmptyString => false
  | String c s' => negb (is_space c) || strip_nonempty s'
  end.

(** [s[:n] + "..." if len(s) > n else s], counting characters. *)
Definition truncate (n : nat) (s : string) : string :=
  if (n <? String.length s)%nat then String.substring 0 n s ++ "..." else s.

End Py.

(* ===================================================================== *)
(** * archive.py: [SimpleArchive] *)
(* ===================================================================== *)

Module Archive.

(** One row of the [agents] table, which is also the dictionary that
    [get_agent] and its siblings build from a row. [created_at] is the
    timestamp in seconds; [metadata] is the stored JSON text. *)
Record Agent : Type := mkAgent {
  id : Z;
  code : string;
  score : Q;
  created_at : Z;
  parent_id : option Z;
  description : string;
  metadata : string;
  is_functional : bool
}.

(** The database: the rows in rowid order and the AUTOINCREMENT counter
    (the largest id ever handed out). *)
Record DB : Type := mkDB {
  agents : list Agent;
  last_rowid : Z
}.

Definition empty : DB := mkDB [] 0.

(** [save_agent]: the new row gets the next id; [parent_id] is stored as
    the caller gives it (the table declares no constraint on it). *)
Definition save_agent (now : Z) (db : DB) (code : string) (score : Q)
    (parent_id : option Z) (description metadata : string)
    (is_functional : bool) : Z * DB :=
  let agent_id := last_rowid db + 1 in
  let row := mkAgent agent_id code score now parent_id description metadata
                     is_functional in
  (agent_id, mkDB (agents db ++ [row]) agent_id).

(** [get_agent]: [SELECT ... WHERE id = ?], [fetchone]. *)
Definition get_agent (db : DB) (agent_id : Z) : option Agent :=
  find (fun a => id a =? agent_id) (agents db).

(** [ORDER BY created_at DESC] and [ASC]; rows of one creation time
    are listed in rowid order (SQLite fixes no order for them). *)
Definition order_by_created_desc : list Agent -> list Agent :=
  Py.sort (fun x y => created_at y <=? created_at x).

Definition order_by_created_asc : list Agent -> list Agent :=
  Py.sort (fun x y => created_at x <=? created_at y).

(** [get_all_agents] *)
Definition get_all_agents (db : DB) (functional_only : bool) : list Agent :=
  if functional_only
  then order_by_created_desc (filter is_functional (agents db))
  else order_by_created_desc (agents db).

(** [get_lineage]: the [while] loop, one iteration per unit of fuel;
    [None] when the fuel runs out before the loop exits. *)
Fixpoint get_lineage_loop (fuel : nat) (db : DB) (current_id : option Z)
    (lineage : list Agent) : option (list Agent) :=
  match fuel with
  | O => None
  | S fuel' =>
      match current_id with
      | None => Some lineage
      | Some cid =>
          match get_agent db cid with
          | Some agent =>
              get_lineage_loop fuel' db (parent_id agent) (lineage ++ [agent])
          | None => Some lineage
          end
      end
  end.

Definition get_lineage (fuel : nat) (db : DB) (agent_id : Z)
    : option (list Agent) :=
  get_lineage_loop fuel db (Some agent_id) [].

(** SQL aggregates over the selected scores; [None] is SQL [NULL]. *)
Definition qmax (a b : Q) : Q := if Qle_bool a b then b else a.

Definition sql_max (l : list Q) : option Q :=
  match l with
  | [] => None
  | x :: t => Some (fold_left qmax t x)
  end.

(** [AVG] as the mean over the rationals; SQLite returns the double
    that its floating-point summation and division give. *)
Definition sql_avg (l : list Q) : option Q :=
  match l with
  | [] => None
  | _ => Some (Py.sum l / inject_Z (Z.of_nat (length l)))%Q
  end.

(** [get_statistics] *)
Definition get_statistics (db : DB) : Py.dict :=
  let total_agents := Z.of_nat (length (agents db)) in
  let functional := filter is_functional (agents db) in
  let functional_agents := Z.of_nat (length functional) in
  let best_score := Py.or_zero (sql_max (map score functional)) in
  let avg_score := Py.or_zero (sql_avg (map score functional)) in
  let score_history :=
    map (fun a => (created_at a, score a))
        (order_by_created_asc functional) in
  [ ("total_agents", Py.VInt total_agents);
    ("functional_agents", Py.VInt functional_agents);
    ("success_rate",
       if 0 <? total_agents
       then Py.VFloat (inject_Z functional_agents / inject_Z total_agents)
       else Py.VInt 0);
    ("best_score", Py.VFloat best_score);
    ("average_score", Py.VFloat avg_score);
    ("score_history", Py.VSeries score_history) ].

(** [select_parents]; the strategy argument is never read. *)
Definition select_parents (db : DB) (k : Z) : list Agent :=
  let functional_agents := get_all_agents db true in
  match functional_agents with
  | [] => []
  | _ =>
      if Z.of_nat (length functional_agents) <? k
      then functional_agents
      else
        let sorted_agents := Py.sorted_desc score functional_agents in
        Py.slice sorted_agents None (Some k)
  end.

End Archive.

(* ===================================================================== *)
(** * The outside world: processes, files, the agent, the clock *)
(* ===================================================================== *)

Module World.

(** [subprocess.CompletedProcess] *)
Record CompletedProcess : Type := mkProc {
  returncode : Z;
  stdout : string;
  stderr : string
}.

(** Calls that leave the Python process. *)
Inductive Event : Type :=
| EvRun (cmd : string)                    (* subprocess.run(cmd, shell=True) *)
| EvSolve (problem repo_dir : string)     (* agent.solve_task *)
| EvWrite (path content : string)         (* Path.write_text *)
| EvRmtree (dir : string)                 (* shutil.rmtree *)
| EvMkdir (dir : string)                  (* Path.mkdir(exist_ok=True) *)
| EvTask (index : nat) (instance_id : string).
                                          (* the "Task i/n: id" progress line *)

(** A call returns or raises an [Exception] whose [str] is [msg]. *)
Inductive Res (A : Type) : Type :=
| Ok (a : A)
| Raise (msg : string).
Arguments Ok {A} a.
Arguments Raise {A} msg.

(** What the world answers, given everything that happened before. *)
Record Env : Type := mkEnv {
  proc : list Event -> string -> Res CompletedProcess;
  agent : list Event -> string -> string -> Res string;
  fault : list Event -> Event -> option string;
  clock : list Event -> Q;
  (** whether a [git clone] into the directory that exits with a
      non-zero status leaves the directory behind: git removes it when
      the transfer fails and leaves it when only the checkout of the
      work tree fails *)
  leftover : list Event -> string -> bool
}.

(** The sandbox directories that exist, the log of calls, and the local
    variables of the calling frame (they survive a raised exception). *)
Record State (L : Type) : Type := mkState {
  fs : list string;
  log : list Event;
  locals : L
}.
Arguments mkState {L} fs log locals.
Arguments fs {L} s.
Arguments log {L} s.
Arguments locals {L} s.

Definition M (L A : Type) : Type := State L -> Res A * State L.

Section Monad.
Context {L : Type}.

Definition ret {A} (a : A) : M L A := fun st => (Ok a, st).

Definition raise {A} (msg : string) : M L A := fun st => (Raise msg, st).

Definition bind {A B} (m : M L A) (k : A -> M L B) : M L B :=
  fun st =>
    match m st with
    | (Ok a, st') => k a st'
    | (Raise e, st') => (Raise e, st')
    end.

(** [try: body / except Exception as e: handler(str(e))] *)
Definition try_catch {A} (body : M L A) (handler : string -> M L A) : M L A :=
  fun st =>
    match body st with
    | (Ok a, st') => (Ok a, st')
    | (Raise e, st') => handler e st'
    end.

Definition get_locals : M L L := fun st => (Ok (locals st), st).

Definition modify_locals (f : L -> L) : M L unit :=
  fun st => (Ok tt, mkState (fs st) (log st) (f (locals st))).

Fixpoint for_each {A} (l : list A) (body : A -> M L unit) : M L unit :=
  match l with
  | [] => ret tt
  | x :: t => bind (body x) (fun _ => for_each t body)
  end.
End Monad.

Declare Scope monad_scope.
Delimit Scope monad_scope with monad.
Notation "x <- m ;; k" := (bind m (fun x => k))
  (at level 61, m at next level, right associativity) : monad_scope.
Notation "m ;;; k" := (bind m (fun _ => k))
  (at level 61, right associativity) : monad_scope.

Definition log_event {L} (e : Event) (st : State L) : State L :=
  mkState (fs st) (log st ++ [e]) (locals st).

Definition exists_dir (dir : string) (dirs : list string) : bool :=
  existsb (String.eqb dir) dirs.

Definition remove_dir (dir : string) (dirs : list string) : list string :=
  filter (fun d => negb (String.eqb dir d)) dirs.

Section Primitives.
Context {L : Type} (env : Env).

(** [subprocess.run(cmd, shell=True, ...)]; a timeout raises. *)
Definition subprocess_run (cmd : string) : M L CompletedProcess :=
  fun st => (proc env (log st) cmd, log_event (EvRun cmd) st).

(** [git clone ... dir] through [subprocess.run]: the target directory
    exists afterwards when the clone exits with status 0, and after
    another exit status when git left it behind. *)
Definition subprocess_run_clone (cmd dir : string) : M L CompletedProcess :=
  fun st =>
    let st' := log_event (EvRun cmd) st in
    match proc env (log st) cmd with
    | Ok r =>
        if (returncode r =? 0) || leftover env (log st) dir
        then (Ok r, mkState (dir :: fs st') (log st') (locals st'))
        else (Ok r, st')
    | Raise e => (Raise e, st')
    end.

(** [agent.solve_task(problem, repo_dir)] *)
Definition solve_task (problem repo_dir : string) : M L string :=
  fun st => (agent env (log st) problem repo_dir,
             log_event (EvSolve problem repo_dir) st).

(** [Path(dir).exists()] *)
Definition path_exists (dir : string) : M L bool :=
  fun st => (Ok (exists_dir dir (fs st)), st).

(** [shutil.rmtree(dir)] *)
Definition rmtree (dir : string) : M L unit :=
  fun st =>
    let e := EvRmtree dir in
    let st' := log_event e st in
    match fault env (log st) e with
    | Some msg => (Raise msg, st')
    | None =>
        if exists_dir dir (fs st)
        then (Ok tt, mkState (remove_dir dir (fs st')) (log st') (locals st'))
        else (Raise ("[Errno 2] No such file or directory: '" ++ dir ++ "'"), st')
    end.

(** [Path(dir).mkdir(exist_ok=True)] *)
Definition mkdir_exist_ok (dir : string) : M L unit :=
  fun st =>
    let e := EvMkdir dir in
    match fault env (log st) e with
    | Some msg => (Raise msg, log_event e st)
    | None => (Ok tt, log_event e st)
    end.

(** [(Path(dir) / name).write_text(content)] *)
Definition write_text (dir name content : string) : M L unit :=
  fun st =>
    let path := dir ++ "/" ++ name in
    let e := EvWrite path content in
    match fault env (log st) e with
    | Some msg => (Raise msg, log_event e st)
    | None =>
        if exists_dir dir (fs st)
        then (Ok tt, log_event e st)
        else (Raise ("[Errno 2] No such file or directory: '" ++ path ++ "'"),
              log_event e st)
    end.

(** [time.time()] *)
Definition time_time : M L Q := fun st => (Ok (clock env (log st)), st).

(** [print(f"Task {i+1}/{num_tasks}: {instance_id}")], the line that
    opens every iteration of the evaluation loop; the other progress
    messages are not part of the model. *)
Definition print_task (i : nat) (instance_id : string) : M L unit :=
  fun st => (Ok tt, log_event (EvTask i instance_id) st).
End Primitives.

End World.

(* ===================================================================== *)
(** * swe_bench_loader.py: [SWEBenchLoader] *)
(* ===================================================================== *)

Module Loader.
Import World.
Local Open Scope monad_scope.

(** One benchmark instance (a dataset row). *)
Record Instance : Type := mkInstance {
  instance_id : string;
  repo : string;
  base_commit : string;
  problem_statement : string;
  test_patch : string
}.

(** The dictionary returned by [run_tests]; absent keys are [None]. *)
Record TestResult : Type := mkTestResult {
  passed : bool;
  t_reason : option string;
  t_stdout : option string;
  t_stderr : option string;
  t_returncode : option Z
}.

(** The dictionary returned by [evaluate_patch]. *)
Record Evaluation : Type := mkEvaluation {
  success : bool;
  reason : string;
  score : Q;
  test_output : option string;
  test_errors : option string
}.

(** [str(Path("./swe_bench_data"))] *)
Definition data_dir : string := "swe_bench_data".

Definition repo_dir_of (instance : Instance) : string :=
  data_dir ++ "/repos/" ++ instance_id instance.

Definition clone_cmd (instance : Instance) : string :=
  "git clone https://github.com/" ++ repo instance ++ ".git "
    ++ repo_dir_of instance.

Definition checkout_cmd (instance : Instance) : string :=
  "cd " ++ repo_dir_of instance ++ " && git checkout " ++ base_commit instance.

Definition reset_cmd (repo_dir : string) : string :=
  "cd " ++ repo_dir ++ " && git checkout HEAD -- .".

Definition apply_cmd (repo_dir : string) : string :=
  "cd " ++ repo_dir ++ " && git apply agent_patch.patch".

Definition apply_test_cmd (repo_dir : string) : string :=
  "cd " ++ repo_dir ++ " && git apply test_patch.patch".

Definition test_cmd (repo_dir : string) : string :=
  "cd " ++ repo_dir ++ " && python -m pytest -xvs".

Section WithEnv.
Context {L : Type} (env : Env).

(** [setup_repository] *)
Definition setup_repository (instance : Instance) : M L string :=
  let repo_dir := repo_dir_of instance in
  mkdir_exist_ok env (data_dir ++ "/repos") ;;;
  present <- path_exists repo_dir ;;
  (if present then rmtree env repo_dir else ret tt) ;;;
  result <- subprocess_run_clone env (clone_cmd instance) repo_dir ;;
  if negb (returncode result =? 0)
  then raise ("Failed to clone repository: " ++ stderr result)
  else
    subprocess_run env (checkout_cmd instance) ;;;
    ret repo_dir.

(** [run_tests] *)
Definition run_tests (repo_dir : string) (instance : Instance)
    : M L TestResult :=
  if String.eqb (test_patch instance) EmptyString
  then ret (mkTestResult false (Some "No test patch available") None None None)
  else
    try_catch
      (write_text env repo_dir "test_patch.patch" (test_patch instance) ;;;
       result <- subprocess_run env (apply_test_cmd repo_dir) ;;
       if negb (returncode result =? 0)
       then ret (mkTestResult false
                   (Some ("Failed to apply test patch: " ++ stderr result))
                   None None None)
       else
         result <- subprocess_run env (test_cmd repo_dir) ;;
         ret (mkTestResult (returncode result =? 0) None
                (Some (stdout result)) (Some (stderr result))
                (Some (returncode result))))
      (fun e => ret (mkTestResult false (Some e) None None None)).

(** [evaluate_patch] *)
Definition evaluate_patch (repo_dir patch_content : string)
    (instance : Instance) : M L Evaluation :=
  try_catch
    (subprocess_run env (reset_cmd repo_dir) ;;;
     write_text env repo_dir "agent_patch.patch" patch_content ;;;
     result <- subprocess_run env (apply_cmd repo_dir) ;;
     if negb (returncode result =? 0)
     then ret (mkEvaluation false
                 ("Patch failed to apply: " ++ stderr result) 0%Q None None)
     else
       test_result <- run_tests repo_dir instance ;;
       ret (mkEvaluation
              (passed test_result)
              (match t_reason test_result with
               | Some r => r
               | None => "Tests completed"
               end)
              (if passed test_result then 1%Q else 0%Q)
              (Some (match t_stdout test_result with
                     | Some o => o | None => EmptyString end))
              (Some (match t_stderr test_result with
                     | Some o => o | None => EmptyString end))))
    (fun e => ret (mkEvaluation false e 0%Q None None)).
End WithEnv.

End Loader.

(* ===================================================================== *)
(** * evaluator.py: [SWEBenchEvaluator] *)
(* ===================================================================== *)

Module Evaluator.
Import World Loader.
Local Open Scope monad_scope.

(** One entry of [results]; the entry written by the [except] branch has
    no ["repo"] and no ["solution"] key. *)
Record TaskResult : Type := mkTaskResult {
  r_instance_id : string;
  r_repo : option string;
  r_success : bool;
  r_score : Q;
  r_reason : string;
  r_elapsed_time : Q;
  r_solution : option string
}.

(** The local variables of [evaluate_agent] that the loop updates. *)
Record Frame : Type := mkFrame {
  passed : Z;
  results : list TaskResult
}.

(** One entry of [results_history]. *)
Record EvaluationRun : Type := mkRun {
  timestamp : Q;
  num_tasks : Z;
  run_passed : Z;
  run_score : Q;
  run_results : list TaskResult
}.

(** The evaluator object. *)
Record Evaluator : Type := mkEvaluator {
  current_instances : list Instance;
  results_history : list EvaluationRun
}.

(** The regular expression of strategy 1, as the source has it. *)
Definition diff_pattern : string := "``````".

Definition git_diff_cmd (repo_dir : string) : string :=
  "cd " ++ repo_dir ++ " && git diff".

Definition git_status_cmd (repo_dir : string) : string :=
  "cd " ++ repo_dir ++ " && git status --porcelain".

Definition git_add_cmd (repo_dir : string) : string :=
  "cd " ++ repo_dir ++ " && git add -A".

Definition git_diff_cached_cmd (repo_dir : string) : string :=
  "cd " ++ repo_dir ++ " && git diff --cached".

(** The loop of strategy 2: every line from the first one that starts
    with [diff --git] on. *)
Fixpoint collect_diff_lines (in_diff : bool) (lines : list string)
    : list string :=
  match lines with
  | [] => []
  | line :: rest =>
      let in_diff := if Py.startswith line "diff --git" then true else in_diff in
      if in_diff then line :: collect_diff_lines in_diff rest
      else collect_diff_lines in_diff rest
  end.

Definition append_result (r : TaskResult) (f : Frame) : Frame :=
  mkFrame (passed f) (results f ++ [r]).

Definition count_passed (f : Frame) : Frame :=
  mkFrame (passed f + 1) (results f).

(** The entry written by the [except] branch of the loop. *)
Definition exception_result (instance : Instance) (e : string) : TaskResult :=
  mkTaskResult (instance_id instance) None false 0%Q ("Exception: " ++ e)
               0%Q None.

Section WithEnv.
Context (env : Env).

(** The body of the [try] of [extract_patch_from_solution]. *)
Definition extract_patch_body {L} (solution repo_dir : string) : M L string :=
  match Py.findall_literal diff_pattern 0 solution with
  | m :: _ => ret m
  | [] =>
      let lines := Py.split_lines solution in
      match collect_diff_lines false lines with
      | (_ :: _) as diff_lines => ret (Py.join_lines diff_lines)
      | [] =>
          result <- subprocess_run env (git_diff_cmd repo_dir) ;;
          if (returncode result =? 0) && Py.strip_nonempty (stdout result)
          then ret (stdout result)
          else
            status_result <- subprocess_run env (git_status_cmd repo_dir) ;;
            if Py.strip_nonempty (stdout status_result)
            then
              subprocess_run env (git_add_cmd repo_dir) ;;;
              cached_result <-
                subprocess_run env (git_diff_cached_cmd repo_dir) ;;
              if returncode cached_result =? 0
              then ret (stdout cached_result)
              else ret EmptyString
            else ret EmptyString
      end
  end.

(** [extract_patch_from_solution] *)
Definition extract_patch_from_solution {L} (solution repo_dir : string)
    : M L string :=
  try_catch (extract_patch_body solution repo_dir) (fun _ => ret EmptyString).

(** The body of the [try] inside the loop of [evaluate_agent]. *)
Definition task_body (instance : Instance) : M Frame unit :=
  let problem := problem_statement instance in
  start_time <- time_time env ;;
  repo_dir <- setup_repository env instance ;;
  solution <- solve_task env problem repo_dir ;;
  patch <- extract_patch_from_solution solution repo_dir ;;
  evaluation <- evaluate_patch env repo_dir patch instance ;;
  now <- time_time env ;;
  let elapsed_time := (now - start_time)%Q in
  let result :=
    mkTaskResult (instance_id instance) (Some (repo instance))
      (success evaluation) (score evaluation) (reason evaluation)
      elapsed_time (Some (Py.truncate 500 solution)) in
  modify_locals (append_result result) ;;;
  (if success evaluation then modify_locals count_passed else ret tt) ;;;
  present <- path_exists repo_dir ;;
  if present then rmtree env repo_dir else ret tt.

(** One iteration of the loop: [instance = self.current_instances[i]]
    followed by the [try]/[except]. *)
Definition evaluate_task (instances : list Instance) (i : nat)
    : M Frame unit :=
  match nth_error instances i with
  | None => raise "list index out of range"
  | Some instance =>
      print_task i (instance_id instance) ;;;
      try_catch (task_body instance)
        (fun e => modify_locals (append_result (exception_result instance e)))
  end.

(** [evaluate_agent]; returns the score and the updated evaluator. *)
Definition evaluate_agent (self : Evaluator) (requested : Z)
    : M Frame (Q * Evaluator) :=
  match current_instances self with
  | [] => ret (0%Q, self)
  | _ =>
      let num_tasks :=
        Z.min requested (Z.of_nat (length (current_instances self))) in
      modify_locals (fun _ => mkFrame 0 []) ;;;
      for_each (seq 0 (Z.to_nat num_tasks))
               (evaluate_task (current_instances self)) ;;;
      frame <- get_locals ;;
      let score :=
        if 0 <? num_tasks
        then (inject_Z (passed frame) / inject_Z num_tasks)%Q
        else 0%Q in
      now <- time_time env ;;
      let evaluation_result :=
        mkRun now num_tasks (passed frame) score (results frame) in
      ret (score,
           mkEvaluator (current_instances self)
                       (results_history self ++ [evaluation_result]))
  end.
End WithEnv.

Definition Qlt_bool (a b : Q) : bool := negb (Qle_bool b a).

(** [sum(l) / len(l)], over the rationals. *)
Definition mean (l : list Q) : Q :=
  (Py.sum l / inject_Z (Z.of_nat (length l)))%Q.

Definition trend_of (improvement : Q) : string :=
  if Qlt_bool (1 # 100) improvement then "improving"
  else if Qlt_bool improvement (- (1 # 100)) then "declining"
  else "stable".

(** [get_improvement_metrics] *)
Definition get_improvement_metrics (self : Evaluator) : Py.dict :=
  let history := results_history self in
  let n := Z.of_nat (length history) in
  if n <? 2
  then [ ("improvement", Py.VFloat 0); ("trend", Py.VStr "insufficient_data") ]
  else
    let recent_scores := map run_score (Py.slice history (Some (-5)) None) in
    let earlier_scores :=
      if 10 <=? n
      then map run_score (Py.slice history (Some (-10)) (Some (-5)))
      else match Py.last_item history with
           | Some r => [run_score r]
           | None => []
           end in
    let recent_avg := mean recent_scores in
    let earlier_avg := mean earlier_scores in
    let improvement := (recent_avg - earlier_avg)%Q in
    [ ("improvement", Py.VFloat improvement);
      ("trend", Py.VStr (trend_of improvement));
      ("recent_avg", Py.VFloat recent_avg);
      ("earlier_avg", Py.VFloat earlier_avg);
      ("total_evaluations", Py.VInt n) ].

End Evaluator.


(* ===================================================================== *)
(** * Vocabulary of the specification *)
(* ===================================================================== *)

Module Spec.
Import Archive.

(** The functional variants of the archive, in rowid order. *)
Definition functional (db : DB) : list Agent :=
  filter is_functional (agents db).

(** [a] may stand in front of [b] in a list sorted by score, descending. *)
Definition score_desc (a b : Agent) : Prop := (score b <= score a)%Q.

(** The id the loop of [get_lineage] looks up in its [n]-th iteration
    when it starts from [cur]; [None] once the chain has ended (at a
    root, or at an id that is not stored). *)
Fixpoint chain_at (db : DB) (cur : option Z) (n : nat) : option Z :=
  match n with
  | O => cur
  | S m =>
      match cur with
      | None => None
      | Some c =>
          match get_agent db c with
          | Some a => chain_at db (parent_id a) m
          | None => None
          end
      end
  end.

(** The parent chain that starts at [agent_id] never comes back to an
    id it has already visited. *)
Definition acyclic_from (db : DB) (agent_id : Z) : Prop :=
  forall i j x, (i < j)%nat ->
    chain_at db (Some agent_id) i = Some x ->
    chain_at db (Some agent_id) j <> Some x.

(** The row that follows [a] in a lineage: its parent, when [a] has one
    and the archive stores it. *)
Definition parent_row (db : DB) (a : Agent) : option Agent :=
  match parent_id a with
  | Some p => get_agent db p
  | None => None
  end.

(** The insertion invariant of the specification, as a check on the
    table: every stored parent id is smaller than the id of its row. *)
Definition parents_precede (db : DB) : bool :=
  forallb (fun a => match parent_id a with
                    | Some p => p <? id a
                    | None => true
                    end) (agents db).

(** The improvement as the specification words it: the mean of the
    most recent five scores minus the mean of the (up to five) scores
    immediately before them. *)
Definition claimed_improvement (scores : list Q) : Q :=
  let n := length scores in
  let recent := skipn (n - 5) scores in
  let preceding := skipn (n - 10) (firstn (n - 5) scores) in
  (Evaluator.mean recent - Evaluator.mean preceding)%Q.

(** ** Runs of the evaluation loop *)

Import World.

(** A computation that cannot raise. *)
Definition total {L A} (m : M L A) : Prop :=
  forall st, exists a st', m st = (Ok a, st').

(** A computation that keeps a relation between the state it starts in
    and the state it leaves, whether it returns or raises. *)
Definition preserves {L A} (R : State L -> State L -> Prop) (m : M L A)
    : Prop :=
  forall st, R st (snd (m st)).

(** The instance ids of the iterations opened so far, in order. *)
Definition announced (lg : list Event) : list string :=
  flat_map (fun e => match e with
                     | EvTask _ iid => [iid]
                     | _ => []
                     end) lg.

(** The frame and the progress lines are untouched. *)
Definition same_frame {L} (st st' : State L) : Prop :=
  locals st' = locals st /\ announced (log st') = announced (log st).

(** The number of entries of a result list that report success. *)
Definition successes (rs : list Evaluator.TaskResult) : Z :=
  Z.of_nat (length (filter Evaluator.r_success rs)).

(** The frame after some iterations: [results] has grown by [new], and
    [passed] by the number of successes among them. *)
Definition grows_by (new : list Evaluator.TaskResult)
    (st st' : State Evaluator.Frame) : Prop :=
  Evaluator.results (locals st')
    = (Evaluator.results (locals st) ++ new)%list
  /\ Evaluator.passed (locals st')
     = Evaluator.passed (locals st) + successes new.

(** The instance ids found at the given positions of the instance list. *)
Definition ids_at (instances : list Loader.Instance) (idxs : list nat)
    : list string :=
  flat_map (fun i => match nth_error instances i with
                     | Some x => [Loader.instance_id x]
                     | None => []
                     end) idxs.

(** The state in which iteration [i] of the loop of [evaluate_agent]
    starts, for a run that started in [st]. *)
Definition state_before (env : Env) (instances : list Loader.Instance)
    (st : State Evaluator.Frame) (i : nat) : State Evaluator.Frame :=
  snd (for_each (seq 0 i) (Evaluator.evaluate_task env instances)
         (mkState (fs st) (log st) (Evaluator.mkFrame 0 []))).

End Spec.

(* ===================================================================== *)
(** * Worlds used in the examples *)
(* ===================================================================== *)

Module Scenario.
Import World Loader Evaluator.

(** A world in which every command exits with status 0 and prints
    nothing, and no file operation fails. *)
Definition calm_proc (_ : list Event) (_ : string) : Res CompletedProcess :=
  Ok (mkProc 0 EmptyString EmptyString).

(** A diff as an agent writes it at the end of its answer. *)
Definition patch_text : string :=
  "diff --git a/f.py b/f.py" ++ Py.nl ++ "--- a/f.py" ++ Py.nl
    ++ "+++ b/f.py" ++ Py.nl ++ "@@ -1 +1 @@" ++ Py.nl ++ "-x" ++ Py.nl ++ "+y".

Definition answer : string := "Here is the fix." ++ Py.nl ++ patch_text.

(** An agent that always answers with the diff. *)
Definition steady_agent (_ : list Event) (_ _ : string) : Res string :=
  Ok answer.

(** An agent that fails on the problem "p1" and answers anything else
    with the diff. *)
Definition brittle_agent (_ : list Event) (problem _ : string) : Res string :=
  if String.eqb problem "p1" then Raise "connection refused"
  else Ok answer.

Definition no_fault (_ : list Event) (_ : Event) : option string := None.

(** A clone that fails leaves no directory behind. *)
Definition no_leftover (_ : list Event) (_ : string) : bool := false.

Definition i1 : Instance := mkInstance "i1" "org/one" "c1" "p1" "tests".
Definition i2 : Instance := mkInstance "i2" "org/two" "c2" "p2" "tests".

Definition start : State Frame := mkState [] [] (mkFrame 0 []).

End Scenario.



(* ===================================================================== *)
(** * archive.py: ranking and retention *)
(* ===================================================================== *)

Module Ranking.
Import Archive.

(** [ORDER BY score DESC, created_at DESC]: [x] may stand in front of
    [y]. Rows that tie on every key of an ORDER BY are listed here in
    rowid order by the stable sort; SQLite leaves their order to the
    query plan, and it can differ between two queries. *)
Definition ranks_before (x y : Agent) : bool :=
  match Qcompare (score x) (score y) with
  | Gt => true
  | Eq => created_at y <=? created_at x
  | Lt => false
  end.

Definition order_by_score_created_desc : list Agent -> list Agent :=
  Py.sort ranks_before.

(** [ORDER BY score DESC]; which of the rows of one score come first,
    and so which of them a LIMIT keeps, is not fixed by the query. *)
Definition order_by_score_desc : list Agent -> list Agent :=
  Py.sort (fun x y => Qle_bool (score y) (score x)).

(** [LIMIT n]: SQLite puts no upper bound on the rows when [n] is
    negative. *)
Definition sql_limit {A} (n : Z) (rows : list A) : list A :=
  if n <? 0 then rows else firstn (Z.to_nat n) rows.

(** [get_best_agent] *)
Definition get_best_agent (db : DB) : option Agent :=
  hd_error
    (sql_limit 1
       (order_by_score_created_desc (filter is_functional (agents db)))).

(** [get_top_agents] *)
Definition get_top_agents (db : DB) (n : Z) : list Agent :=
  sql_limit n
    (order_by_score_created_desc (filter is_functional (agents db))).

(** The ids selected by the sub-query of [cleanup_old_agents]. *)
Definition kept_ids (db : DB) (keep_n : Z) : list Z :=
  map id
    (sql_limit keep_n
       (order_by_score_desc (filter is_functional (agents db)))).

(** [cleanup_old_agents]: [DELETE FROM agents WHERE id NOT IN (...)
    AND is_functional = 1]. The AUTOINCREMENT counter is not reset. *)
Definition cleanup_old_agents (db : DB) (keep_n : Z) : DB :=
  let keep := kept_ids db keep_n in
  let deleted (a : Agent) :=
    negb (existsb (Z.eqb (id a)) keep) && is_functional a in
  mkDB (filter (fun a => negb (deleted a)) (agents db)) (last_rowid db).

(** Membership of a row's id in a list of ids, as the [NOT IN] test
    above computes it. *)
Definition in_ids (keep : list Z) (a : Agent) : bool :=
  existsb (Z.eqb (id a)) keep.

(** The state every archive built by [save_agent] and
    [cleanup_old_agents] is in: ids grow with the rowid and none
    exceeds the AUTOINCREMENT counter. *)
Definition well_formed (db : DB) : Prop :=
  StronglySorted Z.lt (map id (agents db))
  /\ Forall (fun a => id a <= last_rowid db) (agents db).

(** No two functional variants tie in both score and creation time. *)
Definition no_full_ties (db : DB) : Prop :=
  forall a b, In a (agents db) -> In b (agents db) ->
    is_functional a = true -> is_functional b = true ->
    (score a == score b)%Q -> created_at a = created_at b ->
    a = b.

(** The archives that the calls of [save_agent] and
    [cleanup_old_agents] can build when every [parent_id] passed to
    [save_agent] is missing or is not larger than the ids handed out so
    far (an id that an earlier [save_agent] returned is such an id). *)
Inductive reachable : DB -> Prop :=
| reach_empty : reachable empty
| reach_save (now : Z) (db : DB) (code : string) (score : Q)
    (parent_id : option Z) (description metadata : string)
    (is_functional : bool) :
    reachable db ->
    match parent_id with
    | Some p => p <= last_rowid db
    | None => True
    end ->
    reachable (snd (save_agent now db code score parent_id description
                      metadata is_functional))
| reach_cleanup (db : DB) (keep_n : Z) :
    reachable db -> reachable (cleanup_old_agents db keep_n).

End Ranking.

(* ===================================================================== *)
(** * swe_bench_loader.py and evaluator.py: loading the instances *)
(* ===================================================================== *)

Module Dataset.
Import World Loader.

(** The fields of [SWEBenchLoader] that loading touches. *)
Record LoaderState : Type := mkLoader {
  dataset : option (list Instance);
  loaded_instances : list Instance
}.

(** [SWEBenchLoader.__init__] *)
Definition new_loader : LoaderState := mkLoader None [].

(** [load_swe_bench_verified]; [fetched] is what [load_dataset] does:
    it returns the rows of the split or raises. Listing the rows of a
    split that was returned is taken not to raise. *)
Definition load_swe_bench_verified (fetched : Res (list Instance))
    (max_instances : Z) (self : LoaderState) : bool * LoaderState :=
  match fetched with
  | Ok rows =>
      (true, mkLoader (Some rows) (Py.slice rows None (Some max_instances)))
  | Raise _ => (false, self)
  end.

(** [get_instance] *)
Definition get_instance (self : LoaderState) (iid : string)
    : option Instance :=
  find (fun instance => String.eqb (instance_id instance) iid)
       (loaded_instances self).

(** [SWEBenchEvaluator.__init__] on the loader object [swe_bench]. *)
Definition new_evaluator (fetched : Res (list Instance)) (max_instances : Z)
    (swe_bench : LoaderState) : Evaluator.Evaluator * LoaderState :=
  let (success, swe_bench') :=
    load_swe_bench_verified fetched max_instances swe_bench in
  (Evaluator.mkEvaluator
     (if success then loaded_instances swe_bench' else []) [],
   swe_bench').

End Dataset.

(* ===================================================================== *)
(** * Sandbox directories along a run *)
(* ===================================================================== *)

Module Sandboxes.
Import World.

(** Between two states, no directory other than [dir] came or went. *)
Definition only_dir {L} (dir : string) (st st' : State L) : Prop :=
  forall other, other <> dir ->
    exists_dir other (fs st') = exists_dir other (fs st).

(** A result that the normal path of the loop wrote: it carries the
    ["repo"] key, which the entry of the [except] branch lacks. *)
Definition regular (r : Evaluator.TaskResult) : Prop :=
  Evaluator.r_repo r <> None.

End Sandboxes.

(* ===================================================================== *)
(** * Properties of the Python built-ins *)
(* ===================================================================== *)

Section SortFacts.
Context {A : Type} (before : A -> A -> bool).

Let R (x y : A) : Prop := before x y = true.

Hypothesis before_total : forall x y, before x y = false -> before y x = true.
Hypothesis before_trans :
  forall x y z, before x y = true -> before y z = true -> before x z = true.

Lemma insert_length (x : A) (l : list A) :
  length (Py.insert before x l) = S (length l).
Proof.
  induction l as [|y t IH]; simpl; [reflexivity|].
  destruct (before x y); simpl; [reflexivity | now rewrite IH].
Qed.

Lemma sort_length (l : list A) : length (Py.sort before l) = length l.
Proof.
  unfold Py.sort.
  induction l as [|x t IH]; simpl; [reflexivity|].
  now rewrite insert_length, IH.
Qed.

Lemma insert_perm (x : A) (l : list A) :
  Permutation (x :: l) (Py.insert before x l).
Proof.
  induction l as [|y t IH]; simpl; [apply Permutation_refl|].
  destruct (before x y); [apply Permutation_refl|].
  eapply perm_trans; [apply perm_swap|]. now apply perm_skip.
Qed.

Lemma sort_perm (l : list A) : Permutation l (Py.sort before l).
Proof.
  induction l as [|x t IH]; simpl; [apply perm_nil|].
  eapply perm_trans; [apply perm_skip, IH | apply insert_perm].
Qed.

Lemma insert_strongly_sorted (x : A) (l : list A) :
  StronglySorted R l -> StronglySorted R (Py.insert before x l).
Proof.
  induction 1 as [|y t Hs IH Hall]; simpl.
  - constructor; constructor.
  - destruct (before x y) eqn:E.
    + constructor; [now constructor|].
      constructor; [exact E|].
      eapply Forall_impl; [|exact Hall].
      intros z Hz. exact (before_trans _ _ _ E Hz).
    + constructor; [exact IH|].
      apply (Permutation_Forall (insert_perm x t)).
      constructor; [now apply before_total | exact Hall].
Qed.

Lemma sort_strongly_sorted (l : list A) : StronglySorted R (Py.sort before l).
Proof.
  induction l as [|x t IH]; simpl; [constructor|].
  now apply insert_strongly_sorted.
Qed.
End SortFacts.

(** A prefix of a sorted list is sorted and dominates the rest. *)
Section PrefixFacts.
Context {A : Type} (R : A -> A -> Prop).

Lemma firstn_strongly_sorted (n : nat) (l : list A) :
  StronglySorted R l -> StronglySorted R (firstn n l).
Proof.
  intros H; revert n.
  induction H as [|y t Hs IH Hall]; intros [|n]; simpl; try constructor.
  - apply IH.
  - apply Forall_forall. intros z Hz.
    rewrite Forall_forall in Hall. apply Hall.
    rewrite <- (firstn_skipn n t). apply in_or_app. now left.
Qed.

Lemma firstn_dominates_skipn (n : nat) (l : list A) :
  StronglySorted R l ->
  Forall (fun x => Forall (R x) (skipn n l)) (firstn n l).
Proof.
  intros H; revert n.
  induction H as [|y t Hs IH Hall]; intros [|n]; simpl; try constructor.
  - apply Forall_forall. intros z Hz.
    rewrite Forall_forall in Hall. apply Hall.
    rewrite <- (firstn_skipn n t). apply in_or_app. now right.
  - apply IH.
Qed.
End PrefixFacts.

(** [l[:k]] for a bound within the list. *)
Lemma slice_prefix {A} (l : list A) (k : Z) :
  0 <= k <= Z.of_nat (length l) ->
  Py.slice l None (Some k) = firstn (Z.to_nat k) l.
Proof.
  intros Hk. unfold Py.slice, Py.clamp_index.
  destruct (k <? 0) eqn:E; [apply Z.ltb_lt in E; lia|].
  simpl. rewrite Z.min_r, Z.max_r, Z.sub_0_r by lia. reflexivity.
Qed.

Lemma Qle_bool_total (x y : Q) : Qle_bool x y = false -> Qle_bool y x = true.
Proof.
  intros H. apply Qle_bool_iff.
  destruct (Qlt_le_dec y x) as [Hlt|Hle].
  - now apply Qlt_le_weak.
  - apply Qle_bool_iff in Hle. congruence.
Qed.


(* ===================================================================== *)
(** * archive.py: parent selection *)
(* ===================================================================== *)

Section SelectParents.
Import Archive Spec.

Lemma score_before_trans (x y z : Agent) :
  Qle_bool (score y) (score x) = true ->
  Qle_bool (score z) (score y) = true ->
  Qle_bool (score z) (score x) = true.
Proof.
  rewrite !Qle_bool_iff. intros H1 H2. eapply Qle_trans; eassumption.
Qed.

Lemma sorted_desc_strongly_sorted (l : list Agent) :
  StronglySorted score_desc (Py.sorted_desc score l).
Proof.
  unfold Py.sorted_desc.
  eapply StronglySorted_ind with
    (P := fun l => StronglySorted score_desc l);
    [constructor | | apply sort_strongly_sorted].
  - intros a t _ IH Hall. constructor; [exact IH|].
    eapply Forall_impl; [|exact Hall].
    intros b Hb. now apply Qle_bool_iff in Hb.
  - intros x y. apply Qle_bool_total.
  - intros x y z. apply score_before_trans.
Qed.

Lemma get_all_agents_functional_length (db : DB) :
  length (get_all_agents db true) = length (functional db).
Proof. apply sort_length. Qed.

Lemma order_by_created_desc_sorted (l : list Agent) :
  StronglySorted (fun x y => created_at y <= created_at x)
                 (order_by_created_desc l).
Proof.
  unfold order_by_created_desc.
  eapply StronglySorted_ind with
    (P := fun l => StronglySorted
                     (fun x y : Agent => created_at y <= created_at x) l);
    [constructor | | apply sort_strongly_sorted].
  - intros a t _ IH Hall. constructor; [exact IH|].
    eapply Forall_impl; [|exact Hall]. intros b Hb. now apply Z.leb_le.
  - intros x y H. apply Z.leb_gt in H. apply Z.leb_le. lia.
  - intros x y z H1 H2. apply Z.leb_le in H1, H2. apply Z.leb_le. lia.
Qed.

(** C2, as the code has it: for every k >= 1, [select_parents] returns
    exactly min(k, functionalCount) variants. When at least k functional
    variants exist, they are sorted by score descending and are a top-k
    choice (every variant left out scores no higher than any chosen one).
    When fewer than k exist, the result holds every functional variant
    once, by creation time, newest first, as [get_all_agents] lists
    them; which of two variants of one creation time comes first is not
    stated. *)
Theorem select_parents_top_k (db : DB) (k : Z) :
  1 <= k ->
  let chosen := select_parents db k in
  length chosen = Nat.min (Z.to_nat k) (length (functional db))
  /\ (k <= Z.of_nat (length (functional db)) ->
        StronglySorted score_desc chosen
        /\ exists rest,
             Permutation (chosen ++ rest) (functional db)
             /\ Forall (fun c => Forall (score_desc c) rest) chosen)
  /\ (Z.of_nat (length (functional db)) < k ->
        Permutation chosen (functional db)
        /\ StronglySorted (fun x y => created_at y <= created_at x) chosen).
Proof.
  intros Hk chosen.
  pose proof (get_all_agents_functional_length db) as Hlen.
  assert (Hall : get_all_agents db true = order_by_created_desc (functional db))
    by reflexivity.
  assert (Hlisting :
            Permutation (get_all_agents db true) (functional db)
            /\ StronglySorted (fun x y => created_at y <= created_at x)
                              (get_all_agents db true)).
  { rewrite Hall. split; [apply Permutation_sym, sort_perm|].
    apply order_by_created_desc_sorted. }
  unfold chosen, select_parents.
  destruct (get_all_agents db true) as [|a fa] eqn:E.
  - simpl in Hlen. rewrite <- Hlen.
    split; [now rewrite Nat.min_0_r|].
    split; [simpl; lia|].
    intros _. exact Hlisting.
  - rewrite <- E in *. clear E a fa.
    destruct (Z.of_nat (length (get_all_agents db true)) <? k) eqn:Elt.
    + apply Z.ltb_lt in Elt.
      split; [lia|]. split; [lia|]. intros _. exact Hlisting.
    + apply Z.ltb_ge in Elt.
      set (sorted_agents := Py.sorted_desc score (get_all_agents db true)).
      assert (Hsl : length sorted_agents = length (functional db)).
      { unfold sorted_agents, Py.sorted_desc. now rewrite sort_length. }
      rewrite slice_prefix by lia.
      pose proof (sorted_desc_strongly_sorted (get_all_agents db true)) as Hs.
      fold sorted_agents in Hs.
      split; [rewrite length_firstn; lia|].
      split; [|lia].
      intros _. split; [now apply firstn_strongly_sorted|].
      exists (skipn (Z.to_nat k) sorted_agents). split.
      * rewrite firstn_skipn. unfold sorted_agents, Py.sorted_desc.
        eapply perm_trans; [apply Permutation_sym, sort_perm|].
        rewrite Hall. apply Permutation_sym, sort_perm.
      * now apply firstn_dominates_skipn.
Qed.

(** The hypothesis of [select_parents_top_k] is met. *)
Lemma select_parents_top_k_witness :
  let db := mkDB [ mkAgent 1 "v1" (1 # 4) 100 None EmptyString "{}" true;
                   mkAgent 2 "v2" (3 # 4) 200 (Some 1) EmptyString "{}" true;
                   mkAgent 3 "v3" (1 # 2) 300 (Some 2) EmptyString "{}" true ] 3 in
  1 <= 2
  /\ map id (select_parents db 2) = [2; 3]
  /\ length (select_parents db 2) = Nat.min (Z.to_nat 2) (length (functional db)).
Proof.
  intros db. split; [lia|]. split; [reflexivity|].
  apply (select_parents_top_k db 2). lia.
Defined.

(** C2 as stated fails: two functional variants, three requested. The
    older variant scores higher, and the result lists the newer one
    first. *)
Lemma select_parents_unsorted_below_k :
  let db := mkDB [ mkAgent 1 "v1" (9 # 10) 100 None EmptyString "{}" true;
                   mkAgent 2 "v2" (1 # 10) 200 (Some 1) EmptyString "{}" true ] 2 in
  1 <= 3
  /\ Z.of_nat (length (functional db)) <= 3
  /\ map id (select_parents db 3) = [2; 1]
  /\ ~ Sorted score_desc (select_parents db 3).
Proof.
  intros db. repeat split; try (vm_compute; congruence).
  intros H. vm_compute in H.
  inversion H as [|? ? _ Hhd]; subst.
  inversion Hhd as [|? ? Hle]; subst.
  vm_compute in Hle. apply Hle. reflexivity.
Qed.
End SelectParents.


(* ===================================================================== *)
(** * archive.py: lineage *)
(* ===================================================================== *)

Section Lineage.
Import Archive Spec.

Variable db : DB.

Lemma get_agent_id (c : Z) (a : Agent) :
  get_agent db c = Some a -> In a (agents db) /\ id a = c.
Proof.
  unfold get_agent. intros H. apply find_some in H as [Hin Heq].
  split; [exact Hin | now apply Z.eqb_eq].
Qed.

Lemma chain_at_unfold (cur : option Z) (n : nat) :
  chain_at db cur (S n) =
  match cur with
  | None => None
  | Some c => match get_agent db c with
              | Some a => chain_at db (parent_id a) n
              | None => None
              end
  end.
Proof. reflexivity. Qed.

Lemma chain_at_succ (cur : option Z) (n : nat) :
  chain_at db cur (S n) =
  match chain_at db cur n with
  | Some c => match get_agent db c with
              | Some a => parent_id a
              | None => None
              end
  | None => None
  end.
Proof.
  revert cur. induction n as [|n IH]; intros cur.
  - simpl. destruct cur as [c|]; [|reflexivity].
    destruct (get_agent db c); reflexivity.
  - destruct cur as [c|]; [|reflexivity].
    rewrite (chain_at_unfold (Some c) (S n)), (chain_at_unfold (Some c) n).
    destruct (get_agent db c) as [a|]; [apply IH | reflexivity].
Qed.

(** Running out of fuel means that every iteration found a stored row. *)
Lemma loop_none_visits (fuel : nat) :
  forall cur acc,
    get_lineage_loop fuel db cur acc = None ->
    forall i, (i < fuel)%nat ->
      exists x a, chain_at db cur i = Some x /\ get_agent db x = Some a.
Proof.
  induction fuel as [|fuel IH]; intros cur acc Hnone i Hi; [lia|].
  simpl in Hnone.
  destruct cur as [c|]; [|discriminate].
  destruct (get_agent db c) as [a|] eqn:Ea; [|discriminate].
  destruct i as [|i].
  - exists c, a. now split.
  - simpl. rewrite Ea. apply (IH _ _ Hnone). lia.
Qed.

(** More fuel does not change a result. *)
Lemma loop_fuel_mono (fuel : nat) :
  forall cur acc l,
    get_lineage_loop fuel db cur acc = Some l ->
    forall fuel', (fuel <= fuel')%nat ->
      get_lineage_loop fuel' db cur acc = Some l.
Proof.
  induction fuel as [|fuel IH]; intros cur acc l H fuel' Hle; [discriminate|].
  destruct fuel' as [|fuel']; [lia|].
  simpl in *.
  destruct cur as [c|]; [|exact H].
  destruct (get_agent db c) as [a|]; [|exact H].
  apply (IH _ _ _ H). lia.
Qed.

(** What the loop appends to the accumulator. *)
Lemma loop_result (fuel : nat) :
  forall cur acc l,
    get_lineage_loop fuel db cur acc = Some l ->
    exists tail : list Agent,
      l = (acc ++ tail)%list
      /\ hd_error tail = match cur with
                         | Some c => get_agent db c
                         | None => None
                         end
      /\ forall i a, nth_error tail i = Some a ->
                     nth_error tail (S i) = parent_row db a.
Proof.
  induction fuel as [|fuel IH]; intros cur acc l H; [discriminate|].
  simpl in H.
  destruct cur as [c|].
  - destruct (get_agent db c) as [a|] eqn:Ea.
    + apply IH in H as (tail & -> & Hhd & Hnext).
      exists (a :: tail). split; [now rewrite <- app_assoc|].
      split; [reflexivity|].
      intros [|i] b Hb; simpl in *.
      * injection Hb as <-. unfold parent_row.
        destruct tail as [|t0 tail]; simpl in *;
          destruct (parent_id a); auto.
      * now apply Hnext.
    + injection H as <-. exists []. rewrite app_nil_r.
      split; [reflexivity|]. split; [reflexivity|].
      intros [|i] b Hb; discriminate.
  - injection H as <-. exists []. rewrite app_nil_r.
    split; [reflexivity|]. split; [reflexivity|].
    intros [|i] b Hb; discriminate.
Qed.

(** On an acyclic chain the loop exits before it has run once more than
    there are rows. *)
Lemma acyclic_terminates (agent_id : Z) :
  acyclic_from db agent_id ->
  exists l, get_lineage (S (length (agents db))) db agent_id = Some l.
Proof.
  intros Hac. unfold get_lineage.
  destruct (get_lineage_loop (S (length (agents db))) db (Some agent_id) [])
    as [l|] eqn:E; [now exists l|].
  exfalso.
  pose proof (loop_none_visits _ _ _ E) as Hvis.
  set (n := S (length (agents db))) in *.
  set (visited := map (chain_at db (Some agent_id)) (seq 0 n)).
  assert (Hnd : NoDup visited).
  { apply Injective_map_NoDup_in; [|apply seq_NoDup].
    intros i j Hi Hj Heq.
    apply in_seq in Hi, Hj.
    destruct (Hvis i ltac:(lia)) as (x & _ & Hx & _).
    destruct (Nat.lt_trichotomy i j) as [Hlt|[->|Hgt]]; [|reflexivity|].
    - exfalso. apply (Hac i j x Hlt Hx). now rewrite <- Heq.
    - exfalso. rewrite Heq in Hx. apply (Hac j i x Hgt Hx). now rewrite Heq. }
  assert (Hincl : incl visited (map (fun a => Some (id a)) (agents db))).
  { intros o Ho. apply in_map_iff in Ho as (i & <- & Hi).
    apply in_seq in Hi.
    destruct (Hvis i ltac:(lia)) as (x & a & -> & Ha).
    apply get_agent_id in Ha as [Hin <-].
    apply in_map_iff. now exists a. }
  pose proof (NoDup_incl_length Hnd Hincl) as Hlen.
  unfold visited in Hlen. rewrite !length_map, length_seq in Hlen.
  unfold n in Hlen. lia.
Qed.

(** C6: for an id whose parent chain is acyclic, [get_lineage] terminates
    (any fuel above the number of rows gives the same result, no
    exception being possible in the loop), and the result runs from the
    given variant along the parent links: it starts with the row of the
    given id, each row is followed by its parent's row, and it ends at
    a root or at the first parent id that the archive does not store. *)
Theorem get_lineage_acyclic (agent_id : Z) :
  acyclic_from db agent_id ->
  exists lineage,
    (forall fuel, (length (agents db) < fuel)%nat ->
       get_lineage fuel db agent_id = Some lineage)
    /\ hd_error lineage = get_agent db agent_id
    /\ (forall i a, nth_error lineage i = Some a ->
          nth_error lineage (S i) = parent_row db a).
Proof.
  intros Hac.
  destruct (acyclic_terminates agent_id Hac) as [l Hl].
  exists l. split.
  - intros fuel Hfuel. unfold get_lineage in *.
    apply (loop_fuel_mono _ _ _ _ Hl). lia.
  - unfold get_lineage in Hl.
    apply loop_result in Hl as (tail & -> & Hhd & Hnext).
    simpl. now split.
Qed.
End Lineage.

Section LineageInvariant.
Import Archive Spec.

(** Under the insertion invariant the ids along a chain decrease. *)
Lemma chain_decreases (db : DB) (cur : option Z) :
  parents_precede db = true ->
  forall d i x y,
    chain_at db cur i = Some x ->
    chain_at db cur (S d + i) = Some y ->
    y < x.
Proof.
  intros Hinv. unfold parents_precede in Hinv.
  rewrite forallb_forall in Hinv.
  assert (Hstep : forall n x y, chain_at db cur n = Some x ->
                                chain_at db cur (S n) = Some y -> y < x).
  { intros n x y Hx Hy. rewrite chain_at_succ, Hx in Hy.
    destruct (get_agent db x) as [a|] eqn:Ea; [|discriminate].
    apply get_agent_id in Ea as [Hin <-].
    specialize (Hinv a Hin). rewrite Hy in Hinv. now apply Z.ltb_lt. }
  induction d as [|d IH]; intros i x y Hx Hy.
  - now apply (Hstep i).
  - change (S (S d) + i)%nat with (S (S d + i)) in Hy.
    destruct (chain_at db cur (S d + i)) as [z|] eqn:Ez.
    + pose proof (IH i x z Hx Ez). pose proof (Hstep _ _ _ Ez Hy). lia.
    + rewrite chain_at_succ, Ez in Hy. discriminate.
Qed.

Lemma parents_precede_acyclic (db : DB) (agent_id : Z) :
  parents_precede db = true -> acyclic_from db agent_id.
Proof.
  intros Hinv i j x Hij Hi Hj.
  replace j with (S (j - i - 1) + i)%nat in Hj by lia.
  pose proof (chain_decreases db _ Hinv _ _ _ _ Hi Hj). lia.
Qed.

(** The hypothesis of [get_lineage_acyclic] is met: a chain of three
    variants, and one whose parent was never stored. *)
Lemma get_lineage_acyclic_witness :
  let db := mkDB [ mkAgent 1 "v1" (1 # 4) 100 None EmptyString "{}" true;
                   mkAgent 2 "v2" (3 # 4) 200 (Some 1) EmptyString "{}" true;
                   mkAgent 3 "v3" (1 # 2) 300 (Some 2) EmptyString "{}" true;
                   mkAgent 5 "v5" (1 # 2) 500 (Some 4) EmptyString "{}" true ] 5 in
  acyclic_from db 3
  /\ option_map (map id) (get_lineage 5 db 3) = Some [3; 2; 1]
  /\ option_map (map id) (get_lineage 5 db 5) = Some [5]
  /\ exists lineage,
       (forall fuel, (length (agents db) < fuel)%nat ->
          get_lineage fuel db 3 = Some lineage)
       /\ hd_error lineage = get_agent db 3
       /\ (forall i a, nth_error lineage i = Some a ->
             nth_error lineage (S i) = parent_row db a).
Proof.
  intros db.
  assert (Hac : acyclic_from db 3)
    by (apply parents_precede_acyclic; reflexivity).
  split; [exact Hac|]. split; [reflexivity|]. split; [reflexivity|].
  apply (get_lineage_acyclic db 3 Hac).
Defined.

(** The table does not enforce the invariant: a row saved with its own
    future id as parent makes the loop run forever. *)
Lemma get_lineage_self_parent_diverges :
  let db := snd (save_agent 100 empty "v1" (1 # 2) (Some 1) EmptyString "{}" true) in
  forall fuel, get_lineage fuel db 1 = None.
Proof.
  intros db fuel. unfold get_lineage. generalize (@nil Agent).
  induction fuel as [|fuel IH]; intros acc; [reflexivity|].
  simpl. apply IH.
Qed.
End LineageInvariant.


(* ===================================================================== *)
(** * archive.py: statistics *)
(* ===================================================================== *)

Section Statistics.
Import Archive Spec.

Lemma or_zero_some (q : Q) : (Py.or_zero (Some q) == q)%Q.
Proof.
  simpl. destruct (Qeq_bool q 0) eqn:E; [|reflexivity].
  apply Qeq_bool_iff in E. now symmetry.
Qed.

Lemma qmax_cases (a b : Q) :
  (a <= qmax a b)%Q /\ (b <= qmax a b)%Q /\ (qmax a b = a \/ qmax a b = b).
Proof.
  unfold qmax. destruct (Qle_bool a b) eqn:E.
  - apply Qle_bool_iff in E. repeat split; auto. apply Qle_refl.
  - apply Qle_bool_total in E. apply Qle_bool_iff in E.
    repeat split; auto. apply Qle_refl.
Qed.

Lemma fold_qmax_spec (t : list Q) :
  forall x, let m := fold_left qmax t x in
    (x <= m)%Q /\ Forall (fun s => s <= m)%Q t /\ (m = x \/ In m t).
Proof.
  induction t as [|y t IH]; intros x; simpl.
  - split; [apply Qle_refl|]. split; [constructor | now left].
  - destruct (IH (qmax x y)) as (Hle & Hall & Hin).
    destruct (qmax_cases x y) as (Hx & Hy & Hc).
    split; [eapply Qle_trans; eassumption|].
    split.
    + constructor; [eapply Qle_trans; eassumption | exact Hall].
    + destruct Hin as [Hm|Hm]; [|now right; right].
      rewrite Hm. destruct Hc as [->| ->]; [now left | now right; left].
Qed.

Lemma sum_from (l : list Q) :
  forall a, (fold_left Qplus l a == a + fold_right Qplus 0 l)%Q.
Proof.
  induction l as [|x l IH]; intros a; simpl.
  - now rewrite Qplus_0_r.
  - rewrite IH. now rewrite Qplus_assoc.
Qed.

Lemma sum_fold_right (l : list Q) : (Py.sum l == fold_right Qplus 0 l)%Q.
Proof. unfold Py.sum. rewrite sum_from. apply Qplus_0_l. Qed.



End Statistics.


(* ===================================================================== *)
(** * evaluator.py: improvement metrics *)
(* ===================================================================== *)

Section Metrics.
Import Evaluator Spec.

(** [l[-5:]] *)
Lemma slice_last_five {A} (l : list A) :
  Py.slice l (Some (-5)) None = skipn (length l - 5) l.
Proof.
  unfold Py.slice, Py.clamp_index.
  change (-5 <? 0) with true. cbv iota.
  set (len := Z.of_nat (length l)).
  assert (Ha : Z.to_nat (Z.max 0 (Z.min len (-5 + len))) = (length l - 5)%nat)
    by (unfold len; lia).
  rewrite Ha. apply firstn_all2. rewrite length_skipn. unfold len. lia.
Qed.

(** [l[-10:-5]] on a list of at least ten elements *)
Lemma slice_previous_five {A} (l : list A) :
  (10 <= length l)%nat ->
  Py.slice l (Some (-10)) (Some (-5)) = firstn 5 (skipn (length l - 10) l).
Proof.
  intros Hlen. unfold Py.slice, Py.clamp_index.
  change (-5 <? 0) with true. change (-10 <? 0) with true. cbv iota.
  set (len := Z.of_nat (length l)).
  replace (Z.to_nat (Z.max 0 (Z.min len (-10 + len)))) with (length l - 10)%nat
    by (unfold len; lia).
  replace (Z.to_nat (Z.max 0 (Z.min len (-5 + len))
                     - Z.max 0 (Z.min len (-10 + len)))) with 5%nat
    by (unfold len; lia).
  reflexivity.
Qed.

Lemma last_item_app {A} (l : list A) (x : A) :
  Py.last_item (l ++ [x]) = Some x.
Proof. unfold Py.last_item. now rewrite rev_app_distr. Qed.

(** C4 fails on a history of fewer than ten runs. Six runs score 0, 0,
    1/4, 1/2, 3/4 and 1, every value a binary fraction, so that sums,
    means and differences are the same in floating point and over the
    rationals. The last five runs have the mean 1/2 and the run before
    them scored 0: the stated improvement is +1/2 and the stated trend
    "improving". The code takes as [earlier_scores] the score of the
    latest run, 1, and reports the improvement -1/2 and the trend
    "declining". *)
Theorem get_improvement_metrics_short_history :
  let run (s : Q) := mkRun 0 4 0 s [] in
  let self :=
    mkEvaluator []
      [run 0%Q; run 0%Q; run (1 # 4); run (1 # 2); run (3 # 4); run 1%Q] in
  let scores := map run_score (results_history self) in
  let metrics := get_improvement_metrics self in
  (claimed_improvement scores == 1 # 2)%Q
  /\ trend_of (claimed_improvement scores) = "improving"
  /\ (exists recent_avg,
        Py.get metrics "recent_avg" = Some (Py.VFloat recent_avg)
        /\ (recent_avg == 1 # 2)%Q)
  /\ (exists earlier_avg,
        Py.get metrics "earlier_avg" = Some (Py.VFloat earlier_avg)
        /\ (earlier_avg == 1)%Q)
  /\ (exists improvement,
        Py.get metrics "improvement" = Some (Py.VFloat improvement)
        /\ (improvement == - (1 # 2))%Q
        /\ ~ (improvement == claimed_improvement scores)%Q)
  /\ Py.get metrics "trend" = Some (Py.VStr "declining").
Proof.
  intros run self scores metrics.
  split; [reflexivity|]. split; [reflexivity|].
  split; [eexists; split; reflexivity|].
  split; [eexists; split; reflexivity|].
  split; [|reflexivity].
  eexists. split; [reflexivity|]. split; [reflexivity|].
  vm_compute. discriminate.
Qed.
End Metrics.


(* ===================================================================== *)
(** * The monad of world calls *)
(* ===================================================================== *)

Section MonadFacts.
Import World Spec.
Context {L : Type}.

Lemma bind_inv {A B} (m : M L A) (k : A -> M L B) (st st' : State L)
    (r : Res B) :
  bind m k st = (r, st') ->
  (exists a st1, m st = (Ok a, st1) /\ k a st1 = (r, st'))
  \/ (exists e, m st = (Raise e, st') /\ r = Raise e).
Proof.
  unfold bind. destruct (m st) as [[a|e] st1]; intros H.
  - left. now exists a, st1.
  - right. injection H as <- <-. now exists e.
Qed.

Lemma try_catch_inv {A} (body : M L A) (handler : string -> M L A)
    (st st' : State L) (r : Res A) :
  try_catch body handler st = (r, st') ->
  (exists a, body st = (Ok a, st') /\ r = Ok a)
  \/ (exists e st1, body st = (Raise e, st1) /\ handler e st1 = (r, st')).
Proof.
  unfold try_catch. destruct (body st) as [[a|e] st1]; intros H.
  - left. injection H as <- <-. now exists a.
  - right. now exists e, st1.
Qed.

(** ** Computations that cannot raise *)

Lemma total_ret {A} (a : A) : total (ret (L := L) a).
Proof. intros st. now exists a, st. Qed.

Lemma total_try_catch {A} (body : M L A) (handler : string -> M L A) :
  (forall e, total (handler e)) -> total (try_catch body handler).
Proof.
  intros Hh st. unfold try_catch.
  destruct (body st) as [[a|e] st1]; [now exists a, st1 | apply Hh].
Qed.

(** ** Computations that keep a relation on states *)

Section Preservation.
Variable R : State L -> State L -> Prop.
Hypothesis R_refl : forall st, R st st.
Hypothesis R_trans : forall a b c, R a b -> R b c -> R a c.

Lemma preserves_ret {A} (a : A) : preserves R (ret a).
Proof. intros st. apply R_refl. Qed.

Lemma preserves_raise {A} (e : string) : preserves R (raise (A := A) e).
Proof. intros st. apply R_refl. Qed.

Lemma preserves_bind {A B} (m : M L A) (k : A -> M L B) :
  preserves R m -> (forall a, preserves R (k a)) -> preserves R (bind m k).
Proof.
  intros Hm Hk st. unfold bind.
  specialize (Hm st). destruct (m st) as [[a|e] st1]; simpl in *.
  - eapply R_trans; [exact Hm | apply Hk].
  - exact Hm.
Qed.

Lemma preserves_try_catch {A} (body : M L A) (handler : string -> M L A) :
  preserves R body -> (forall e, preserves R (handler e)) ->
  preserves R (try_catch body handler).
Proof.
  intros Hb Hh st. unfold try_catch.
  specialize (Hb st). destruct (body st) as [[a|e] st1]; simpl in *.
  - exact Hb.
  - eapply R_trans; [exact Hb | apply Hh].
Qed.

End Preservation.

Lemma same_frame_refl (st : State L) : same_frame st st.
Proof. now split. Qed.

Lemma same_frame_trans (a b c : State L) :
  same_frame a b -> same_frame b c -> same_frame a c.
Proof. intros [H1 H2] [H3 H4]. split; congruence. Qed.

Lemma announced_app (l1 l2 : list Event) :
  announced (l1 ++ l2) = (announced l1 ++ announced l2)%list.
Proof. apply flat_map_app. Qed.

(** A logged call that is not a progress line keeps the frame. *)
Lemma same_frame_log (e : Event) (st : State L) (dirs : list string) :
  announced [e] = [] ->
  same_frame st (mkState dirs (log st ++ [e]) (locals st)).
Proof.
  intros He. split; [reflexivity|]. simpl.
  now rewrite announced_app, He, app_nil_r.
Qed.

Variable env : Env.

Ltac logged_call :=
  unfold log_event; cbn [fs log locals snd]; now apply same_frame_log.

Lemma frame_subprocess_run (cmd : string) :
  preserves same_frame (subprocess_run (L := L) env cmd).
Proof. intros st. logged_call. Qed.

Lemma frame_subprocess_run_clone (cmd dir : string) :
  preserves same_frame (subprocess_run_clone (L := L) env cmd dir).
Proof.
  intros st. unfold subprocess_run_clone.
  destruct (proc env (log st) cmd) as [r|e];
    [destruct ((returncode r =? 0) || leftover env (log st) dir)|];
    logged_call.
Qed.

Lemma frame_solve_task (problem dir : string) :
  preserves same_frame (solve_task (L := L) env problem dir).
Proof. intros st. logged_call. Qed.

Lemma frame_path_exists (dir : string) :
  preserves same_frame (path_exists (L := L) dir).
Proof. intros st. apply same_frame_refl. Qed.

Lemma frame_rmtree (dir : string) :
  preserves same_frame (rmtree (L := L) env dir).
Proof.
  intros st. unfold rmtree.
  destruct (fault env (log st) (EvRmtree dir));
    [|destruct (exists_dir dir (fs st))]; logged_call.
Qed.

Lemma frame_mkdir_exist_ok (dir : string) :
  preserves same_frame (mkdir_exist_ok (L := L) env dir).
Proof.
  intros st. unfold mkdir_exist_ok.
  destruct (fault env (log st) (EvMkdir dir)); logged_call.
Qed.

Lemma frame_write_text (dir name content : string) :
  preserves same_frame (write_text (L := L) env dir name content).
Proof.
  intros st. unfold write_text.
  destruct (fault env (log st) _);
    [|destruct (exists_dir dir (fs st))]; logged_call.
Qed.

Lemma frame_time_time : preserves same_frame (time_time (L := L) env).
Proof. intros st. apply same_frame_refl. Qed.
End MonadFacts.

Create HintDb world.

#[local] Hint Resolve same_frame_refl same_frame_trans : world.
#[local] Hint Resolve frame_subprocess_run frame_subprocess_run_clone
  frame_solve_task frame_path_exists frame_rmtree frame_mkdir_exist_ok
  frame_write_text frame_time_time : world.

(** Goals [preserves same_frame m] for a program [m] built from the
    primitives with [bind], [try_catch] and conditionals. *)
Ltac frame_tac :=
  repeat first
    [ apply preserves_bind; [apply same_frame_trans | | intro]
    | apply preserves_try_catch; [apply same_frame_trans | | intro]
    | apply preserves_ret; apply same_frame_refl
    | apply preserves_raise; apply same_frame_refl
    | solve [auto with world]
    | match goal with
      | |- Spec.preserves _ (if ?b then _ else _) => destruct b
      | |- Spec.preserves _ (match ?x with _ => _ end) => destruct x
      end ].

Section LoaderFacts.
Import World Loader Evaluator Spec.
Context {L : Type} (env : Env).

Lemma frame_setup_repository (instance : Instance) :
  preserves same_frame (setup_repository (L := L) env instance).
Proof. unfold setup_repository. frame_tac. Qed.

Lemma frame_run_tests (repo_dir : string) (instance : Instance) :
  preserves same_frame (run_tests (L := L) env repo_dir instance).
Proof. unfold run_tests. frame_tac. Qed.

Lemma frame_evaluate_patch (repo_dir patch : string) (instance : Instance) :
  preserves same_frame (evaluate_patch (L := L) env repo_dir patch instance).
Proof.
  unfold evaluate_patch. frame_tac. apply frame_run_tests.
Qed.

Lemma frame_extract_patch (solution repo_dir : string) :
  preserves same_frame
    (extract_patch_from_solution (L := L) env solution repo_dir).
Proof.
  unfold extract_patch_from_solution, extract_patch_body. frame_tac.
Qed.

Lemma total_evaluate_patch (repo_dir patch : string) (instance : Instance) :
  total (evaluate_patch (L := L) env repo_dir patch instance).
Proof. apply total_try_catch. intros e. apply total_ret. Qed.

Lemma total_extract_patch (solution repo_dir : string) :
  total (extract_patch_from_solution (L := L) env solution repo_dir).
Proof. apply total_try_catch. intros e. apply total_ret. Qed.
End LoaderFacts.


(* ===================================================================== *)
(** * evaluator.py: patch extraction *)
(* ===================================================================== *)

Section PatchExtraction.
Import World Loader Evaluator Spec.
Context {L : Type}.

(** C3 fails on the code: the pattern of strategy 1 is six back-quotes,
    not a fenced diff block. A solution with a fenced diff and, further
    down, a line that starts with [diff --git] yields the text from that
    line on (strategy 2); a solution that contains six back-quotes in a
    row yields those six characters. *)
Theorem extract_patch_skips_fenced_diff (env : Env) (repo_dir : string)
    (st : State L) :
  let fenced := "--- a/f.py" ++ Py.nl ++ "+++ b/f.py" ++ Py.nl
                ++ "@@ -1 +1 @@" ++ Py.nl ++ "-x" ++ Py.nl ++ "+y" ++ Py.nl in
  let solution := "```diff" ++ Py.nl ++ fenced ++ "```" ++ Py.nl
                  ++ "Related:" ++ Py.nl ++ "diff --git a/g.py b/g.py" in
  extract_patch_from_solution env solution repo_dir st
    = (Ok "diff --git a/g.py b/g.py", st)
  /\ extract_patch_from_solution env ("Nothing to change: ``````") repo_dir st
     = (Ok "``````", st).
Proof. split; reflexivity. Qed.

(** C10: [extract_patch_from_solution] always returns a string, and the
    string is empty whenever the body of its [try] raised. *)
Theorem extract_patch_never_raises (env : Env) (solution repo_dir : string)
    (st : State L) :
  exists patch st',
    extract_patch_from_solution env solution repo_dir st = (Ok patch, st')
    /\ forall e st1,
         extract_patch_body env solution repo_dir st = (Raise e, st1) ->
         patch = EmptyString /\ st' = st1.
Proof.
  unfold extract_patch_from_solution, try_catch.
  destruct (extract_patch_body env solution repo_dir st) as [[p|e] st1].
  - exists p, st1. split; [reflexivity|]. intros e st2 H. discriminate.
  - exists EmptyString, st1. split; [reflexivity|].
    intros e' st2 H. injection H as _ <-. now split.
Qed.

End PatchExtraction.

Section PatchExtractionExamples.
Import World Loader Evaluator Spec.

(** An exception of the first sandbox query, and its outcome. *)
Lemma extract_patch_never_raises_witness :
  let env := mkEnv (fun _ _ => Raise "git: command not found")
                   (fun _ _ _ => Ok EmptyString) (fun _ _ => None) (fun _ => 0%Q)
                   (fun _ _ => false) in
  let st := mkState (L := unit) ["swe_bench_data/repos/i1"] [] tt in
  let dir := "swe_bench_data/repos/i1" in
  extract_patch_body env "I changed nothing." dir st
    = (Raise "git: command not found",
       mkState ["swe_bench_data/repos/i1"] [EvRun (git_diff_cmd dir)] tt)
  /\ extract_patch_from_solution env "I changed nothing." dir st
     = (Ok EmptyString, mkState ["swe_bench_data/repos/i1"] [EvRun (git_diff_cmd dir)] tt).
Proof.
  intros env st dir.
  assert (Hbody : extract_patch_body env "I changed nothing." dir st
    = (Raise "git: command not found",
       mkState ["swe_bench_data/repos/i1"] [EvRun (git_diff_cmd dir)] tt))
    by reflexivity.
  split; [exact Hbody|].
  destruct (extract_patch_never_raises env "I changed nothing." dir st)
    as (patch & st' & Hrun & Hexn).
  destruct (Hexn _ _ Hbody) as [-> ->]. exact Hrun.
Defined.
End PatchExtractionExamples.

(* ===================================================================== *)
(** * swe_bench_loader.py: patch evaluation *)
(* ===================================================================== *)

Section PatchEvaluation.
Import World Loader Spec.
Context {L : Type}.

Lemma append_cancel (p a b : string) : p ++ a = p ++ b -> a = b.
Proof.
  induction p as [|c p IH]; simpl; intros H; [exact H|].
  injection H as H. now apply IH.
Qed.

Lemma test_cmd_distinct (repo_dir : string) :
  test_cmd repo_dir <> reset_cmd repo_dir
  /\ test_cmd repo_dir <> apply_cmd repo_dir.
Proof.
  unfold test_cmd, reset_cmd, apply_cmd. split; intros H;
    apply append_cancel, append_cancel in H; discriminate.
Qed.

(** C5: when [git apply] of the agent's patch exits with a non-zero
    status, [evaluate_patch] returns success = false, score = 0.0 and the
    reason "Patch failed to apply: " followed by git's error output; the
    calls it made are the reset, the write of the patch file and the
    apply, so the test command was not run. *)
Theorem evaluate_patch_apply_failure (env : Env) (st : State L)
    (repo_dir patch : string) (instance : Instance)
    (reset_result apply_result : CompletedProcess) :
  let patch_file := repo_dir ++ "/" ++ "agent_patch.patch" in
  let calls := [ EvRun (reset_cmd repo_dir); EvWrite patch_file patch;
                 EvRun (apply_cmd repo_dir) ] in
  proc env (log st) (reset_cmd repo_dir) = Ok reset_result ->
  exists_dir repo_dir (fs st) = true ->
  fault env (log st ++ [EvRun (reset_cmd repo_dir)])%list
        (EvWrite patch_file patch) = None ->
  proc env (log st ++ [EvRun (reset_cmd repo_dir); EvWrite patch_file patch])%list
       (apply_cmd repo_dir) = Ok apply_result ->
  returncode apply_result <> 0 ->
  evaluate_patch env repo_dir patch instance st
    = (Ok (mkEvaluation false
             ("Patch failed to apply: " ++ stderr apply_result) 0%Q None None),
       mkState (fs st) (log st ++ calls)%list (locals st))
  /\ ~ In (EvRun (test_cmd repo_dir)) calls.
Proof.
  intros patch_file calls Hreset Hdir Hfault Happly Hcode.
  split.
  - unfold evaluate_patch, try_catch, bind.
    unfold subprocess_run at 1. rewrite Hreset.
    unfold write_text, log_event. cbn [fs log locals].
    fold patch_file. rewrite Hfault, Hdir.
    unfold subprocess_run at 1. unfold log_event. cbn [fs log locals].
    rewrite <- app_assoc. cbn [app]. rewrite Happly.
    destruct (returncode apply_result =? 0) eqn:E;
      [apply Z.eqb_eq in E; contradiction|].
    cbn [negb]. unfold ret. rewrite <- app_assoc. reflexivity.
  - destruct (test_cmd_distinct repo_dir) as [H1 H2].
    intros [H|[H|[H|[]]]]; try discriminate.
    + apply H1. symmetry. congruence.
    + apply H2. symmetry. congruence.
Qed.

End PatchEvaluation.

Section PatchEvaluationExamples.
Import World Loader Spec.

(** The hypotheses of [evaluate_patch_apply_failure] are met: git
    rejects every patch. *)
Lemma evaluate_patch_apply_failure_witness :
  let rejects (cmd : string) :=
    if String.eqb cmd (apply_cmd "swe_bench_data/repos/i1")
    then Ok (mkProc 128 EmptyString "error: No valid patches in input")
    else Ok (mkProc 0 EmptyString EmptyString) in
  let env := mkEnv (fun _ cmd => rejects cmd) (fun _ _ _ => Ok EmptyString)
                   (fun _ _ => None) (fun _ => 0%Q)
                   (fun _ _ => false) in
  let st := mkState (L := unit) ["swe_bench_data/repos/i1"] [] tt in
  let instance := mkInstance "i1" "org/repo" "abc123" "fix it" "some tests" in
  exists st',
    evaluate_patch env "swe_bench_data/repos/i1" "not a diff" instance st
    = (Ok (mkEvaluation false
             "Patch failed to apply: error: No valid patches in input"
             0%Q None None), st')
    /\ ~ In (EvRun (test_cmd "swe_bench_data/repos/i1")) (log st').
Proof.
  intros rejects env st instance.
  destruct (evaluate_patch_apply_failure env st "swe_bench_data/repos/i1"
              "not a diff" instance (mkProc 0 EmptyString EmptyString)
              (mkProc 128 EmptyString "error: No valid patches in input"))
    as [Hrun Hcalls]; try reflexivity; [discriminate|].
  eexists. split; [exact Hrun | exact Hcalls].
Defined.
End PatchEvaluationExamples.


(* ===================================================================== *)
(** * evaluator.py: the evaluation loop *)
(* ===================================================================== *)

Section EvaluationLoop.
Import World Loader Evaluator Spec.
Variable env : Env.

Lemma preserves_run {L A} (R : State L -> State L -> Prop) (m : M L A)
    (st st' : State L) (r : Res A) :
  preserves R m -> m st = (r, st') -> R st st'.
Proof. intros H E. specialize (H st). now rewrite E in H. Qed.

Lemma setup_repository_returns {L} (instance : Instance) (st st' : State L)
    (dir : string) :
  setup_repository env instance st = (Ok dir, st') ->
  dir = repo_dir_of instance.
Proof.
  unfold setup_repository. intros H.
  apply bind_inv in H as [(? & ? & _ & H)|(? & _ & ?)]; [|discriminate].
  apply bind_inv in H as [(? & ? & _ & H)|(? & _ & ?)]; [|discriminate].
  apply bind_inv in H as [(? & ? & _ & H)|(? & _ & ?)]; [|discriminate].
  apply bind_inv in H as [(result & ? & _ & H)|(? & _ & ?)]; [|discriminate].
  destruct (negb (returncode result =? 0)); [discriminate|].
  apply bind_inv in H as [(? & ? & _ & H)|(? & _ & ?)]; [|discriminate].
  now injection H as <- _.
Qed.

(** The last statements of the [try] body: record the result, count a
    pass, remove the sandbox. *)
Lemma task_tail_outcome (instance : Instance) (result : TaskResult)
    (ok : bool) (dir : string) (st st' : State Frame) (r : Res unit) :
  bind (modify_locals (append_result result))
    (fun _ => bind (if ok then modify_locals count_passed else ret tt)
       (fun _ => bind (path_exists dir)
          (fun present => if present then rmtree env dir else ret tt))) st
    = (r, st') ->
  announced (log st') = announced (log st)
  /\ locals st' = (if ok then count_passed (append_result result (locals st))
                   else append_result result (locals st))
  /\ (r = Ok tt -> exists_dir dir (fs st') = false).
Proof.
  unfold bind, modify_locals, path_exists, ret.
  destruct ok; cbn [fs log locals];
    (destruct (exists_dir dir (fs st)) eqn:Edir;
     [ unfold rmtree, log_event; cbn [fs log locals];
       destruct (fault env (log st) (EvRmtree dir)); rewrite ?Edir;
       intros H; injection H as <- <-; cbn [fs log locals];
       (split; [now rewrite announced_app, app_nil_r|]);
       (split; [reflexivity|]); intros H; try discriminate;
       unfold exists_dir, remove_dir;
       apply not_true_is_false; intros Hex;
       apply existsb_exists in Hex as (d & Hin & Hd);
       apply filter_In in Hin as [_ Hneq]; rewrite Hd in Hneq; discriminate
     | intros H; injection H as <- <-; cbn [fs log locals];
       repeat split; auto ]).
Qed.

(** What the body of the [try] leaves behind. Either it raised before
    anything was recorded, or it recorded one result for the instance
    (counting it when it is a success); when it returns normally, the
    sandbox of the instance is gone. *)
Lemma task_body_outcome (instance : Instance) (st st' : State Frame)
    (r : Res unit) :
  task_body env instance st = (r, st') ->
  announced (log st') = announced (log st)
  /\ ((exists e, r = Raise e /\ locals st' = locals st)
      \/ (exists result,
            r_instance_id result = instance_id instance
            /\ locals st' = (if r_success result
                             then count_passed (append_result result (locals st))
                             else append_result result (locals st))
            /\ (r = Ok tt ->
                exists_dir (repo_dir_of instance) (fs st') = false))).
Proof.
  unfold task_body. intros H.
  apply bind_inv in H as [(start & s0 & H0 & H)|(e & H0 & _)];
    [|discriminate].
  injection H0 as _ <-.
  apply bind_inv in H as [(dir & s1 & H1 & H)|(e & H1 & ->)].
  2:{ destruct (preserves_run _ _ _ _ _ (frame_setup_repository env instance) H1)
        as [Hl Ha].
      split; [exact Ha|]. left. now exists e. }
  destruct (preserves_run _ _ _ _ _ (frame_setup_repository env instance) H1)
    as [Hl1 Ha1].
  apply setup_repository_returns in H1 as ->.
  apply bind_inv in H as [(solution & s2 & H2 & H)|(e & H2 & ->)].
  2:{ destruct (preserves_run _ _ _ _ _ (frame_solve_task env _ _) H2)
        as [Hl Ha].
      split; [congruence|]. left. exists e. split; congruence. }
  destruct (preserves_run _ _ _ _ _ (frame_solve_task env _ _) H2)
    as [Hl2 Ha2].
  apply bind_inv in H as [(patch & s3 & H3 & H)|(e & H3 & ->)].
  2:{ destruct (total_extract_patch env solution (repo_dir_of instance) s2)
        as (? & ? & Htot). congruence. }
  destruct (preserves_run _ _ _ _ _ (frame_extract_patch env _ _) H3)
    as [Hl3 Ha3].
  apply bind_inv in H as [(evaluation & s4 & H4 & H)|(e & H4 & ->)].
  2:{ destruct (total_evaluate_patch env (repo_dir_of instance) patch
                  instance s3) as (? & ? & Htot). congruence. }
  destruct (preserves_run _ _ _ _ _ (frame_evaluate_patch env _ _ _) H4)
    as [Hl4 Ha4].
  apply bind_inv in H as [(now & s5 & H5 & H)|(e & H5 & _)];
    [|discriminate].
  injection H5 as _ <-.
  apply task_tail_outcome in H as (Ha & Hl & Hdir); [|exact instance].
  split; [congruence|]. right.
  exists (mkTaskResult (instance_id instance) (Some (repo instance))
            (success evaluation) (score evaluation) (reason evaluation)
            (now - start)%Q (Some (Py.truncate 500 solution))).
  split; [reflexivity|]. split; [|exact Hdir].
  rewrite Hl. cbn [r_success]. rewrite Hl4, Hl3, Hl2, Hl1. reflexivity.
Qed.

Lemma successes_app (a b : list TaskResult) :
  successes (a ++ b) = successes a + successes b.
Proof. unfold successes. rewrite filter_app, length_app. lia. Qed.

Lemma grows_by_trans (n1 n2 : list TaskResult) (a b c : State Frame) :
  grows_by n1 a b -> grows_by n2 b c -> grows_by (n1 ++ n2) a c.
Proof.
  intros [H1 H2] [H3 H4]. split.
  - now rewrite H3, H1, app_assoc.
  - rewrite H4, H2, successes_app. lia.
Qed.

(** One iteration never raises: it opens with the progress line of its
    instance, and it records one or two results for that instance; an
    exception [e] of the body is recorded as [exception_result]. *)
Lemma evaluate_task_outcome (instances : list Instance) (i : nat)
    (instance : Instance) (st : State Frame) :
  nth_error instances i = Some instance ->
  exists st' new,
    evaluate_task env instances i st = (Ok tt, st')
    /\ announced (log st') = (announced (log st) ++ [instance_id instance])%list
    /\ grows_by new st st'
    /\ Forall (fun r => r_instance_id r = instance_id instance) new
    /\ (forall e st_e,
          task_body env instance
            (log_event (EvTask i (instance_id instance)) st) = (Raise e, st_e) ->
          st' = mkState (fs st_e) (log st_e)
                  (append_result (exception_result instance e) (locals st_e))
          /\ In (exception_result instance e) new).
Proof.
  intros Hnth. unfold evaluate_task. rewrite Hnth.
  unfold bind at 1. unfold print_task at 1.
  set (st0 := log_event (EvTask i (instance_id instance)) st).
  assert (Ha0 : announced (log st0)
                = (announced (log st) ++ [instance_id instance])%list)
    by (unfold st0, log_event; cbn [log]; now rewrite announced_app).
  unfold try_catch.
  destruct (task_body env instance st0) as [[[]|e] st1] eqn:Ebody;
    destruct (task_body_outcome _ _ _ _ Ebody) as [Ha Hcases].
  - destruct Hcases as [(e & He & _)|(result & Hid & Hl & _)];
      [discriminate|].
    exists st1, [result]. split; [reflexivity|].
    split; [congruence|]. split; [|split].
    + unfold grows_by. rewrite Hl. unfold st0, log_event. cbn [locals].
      unfold successes. cbn [filter].
      destruct (r_success result); cbn [count_passed append_result passed
        results length]; split; try reflexivity; lia.
    + now constructor.
    + intros e st_e H. discriminate.
  - unfold modify_locals.
    destruct Hcases as [(e' & He & Hl)|(result & Hid & Hl & _)].
    + exists (mkState (fs st1) (log st1)
                (append_result (exception_result instance e) (locals st1))),
             [exception_result instance e].
      split; [reflexivity|]. split; [cbn [log]; congruence|].
      split; [|split].
      * unfold grows_by. cbn [locals]. rewrite Hl.
        unfold st0, log_event. cbn [locals append_result results passed].
        split; [reflexivity|]. unfold successes. simpl. lia.
      * now constructor.
      * intros e0 st_e H. injection H as <- <-. split; [reflexivity|now left].
    + exists (mkState (fs st1) (log st1)
                (append_result (exception_result instance e) (locals st1))),
             [result; exception_result instance e].
      split; [reflexivity|]. split; [cbn [log]; congruence|].
      split; [|split].
      * unfold grows_by. cbn [locals]. rewrite Hl.
        unfold st0, log_event. cbn [locals].
        unfold successes. cbn [filter exception_result r_success].
        destruct (r_success result); cbn [count_passed append_result passed
          results length]; rewrite <- ?app_assoc; split; try reflexivity; lia.
      * now repeat constructor.
      * intros e0 st_e H. injection H as <- <-.
        split; [reflexivity|now right; left].
Qed.

Lemma for_each_app {A} (l1 l2 : list A) (body : A -> M Frame unit)
    (st : State Frame) :
  for_each (l1 ++ l2) body st =
  match for_each l1 body st with
  | (Ok _, st1) => for_each l2 body st1
  | (Raise e, st1) => (Raise e, st1)
  end.
Proof.
  revert st. induction l1 as [|x l1 IH]; intros st; [reflexivity|].
  cbn [app for_each]. unfold bind.
  destruct (body x st) as [[[]|e] st1]; [apply IH | reflexivity].
Qed.

(** The loop over positions that exist never raises; it opens every
    position in order and only adds to the frame. *)
Lemma for_each_outcome (instances : list Instance) (idxs : list nat) :
  Forall (fun i => i < length instances)%nat idxs ->
  forall st,
  exists st' new,
    for_each idxs (evaluate_task env instances) st = (Ok tt, st')
    /\ announced (log st')
       = (announced (log st) ++ ids_at instances idxs)%list
    /\ grows_by new st st'.
Proof.
  induction 1 as [|i idxs Hi _ IH]; intros st.
  - exists st, []. split; [reflexivity|].
    split; [now rewrite app_nil_r|].
    split; [now rewrite app_nil_r | unfold successes; simpl; lia].
  - destruct (nth_error instances i) as [instance|] eqn:Hnth;
      [|apply nth_error_None in Hnth; lia].
    destruct (evaluate_task_outcome instances i instance st Hnth)
      as (st1 & new1 & Hrun1 & Ha1 & Hg1 & _).
    destruct (IH st1) as (st2 & new2 & Hrun2 & Ha2 & Hg2).
    exists st2, (new1 ++ new2)%list.
    split; [|split].
    + cbn [for_each]. unfold bind. now rewrite Hrun1.
    + rewrite Ha2, Ha1. unfold ids_at. cbn [flat_map]. rewrite Hnth.
      now rewrite <- app_assoc.
    + eapply grows_by_trans; eassumption.
Qed.

Lemma skipn_nth_error {A} (l : list A) (k : nat) (x : A) :
  nth_error l k = Some x -> skipn k l = x :: skipn (S k) l.
Proof.
  revert k. induction l as [|y l IH]; intros [|k] H; try discriminate.
  - now injection H as ->.
  - cbn [nth_error] in H. cbn [skipn]. rewrite (IH _ H). reflexivity.
Qed.

Lemma ids_at_seq (instances : list Instance) (n : nat) :
  forall k, (k + n <= length instances)%nat ->
    ids_at instances (seq k n)
    = map instance_id (firstn n (skipn k instances)).
Proof.
  induction n as [|n IH]; intros k Hk; [reflexivity|].
  cbn [seq]. unfold ids_at. cbn [flat_map]. fold (ids_at instances (seq (S k) n)).
  destruct (nth_error instances k) as [x|] eqn:Hnth;
    [|apply nth_error_None in Hnth; lia].
  rewrite (skipn_nth_error _ _ _ Hnth). cbn [firstn map app].
  rewrite IH by lia. reflexivity.
Qed.

Lemma evaluate_agent_nonempty (self : Evaluator) (requested : Z) :
  current_instances self <> [] ->
  evaluate_agent env self requested =
  (let num_tasks :=
     Z.min requested (Z.of_nat (length (current_instances self))) in
   bind (modify_locals (fun _ => mkFrame 0 []))
     (fun _ => bind (for_each (seq 0 (Z.to_nat num_tasks))
                       (evaluate_task env (current_instances self)))
        (fun _ => bind get_locals
           (fun frame =>
              let score :=
                if 0 <? num_tasks
                then (inject_Z (passed frame) / inject_Z num_tasks)%Q
                else 0%Q in
              bind (time_time env)
                (fun now =>
                   ret (score,
                        mkEvaluator (current_instances self)
                          (results_history self
                           ++ [mkRun now num_tasks (passed frame) score
                                     (results frame)])%list)))))).
Proof.
  intros Hne. unfold evaluate_agent.
  destruct (current_instances self); [contradiction | reflexivity].
Qed.

(** The whole of [evaluate_agent] on a non-empty instance list. *)
Lemma evaluate_agent_outcome (self : Evaluator) (requested : Z)
    (st : State Frame) :
  let instances := current_instances self in
  let n := Z.min requested (Z.of_nat (length instances)) in
  let st0 := mkState (fs st) (log st) (mkFrame 0 []) in
  instances <> [] ->
  exists st',
    for_each (seq 0 (Z.to_nat n)) (evaluate_task env instances) st0
      = (Ok tt, st')
    /\ announced (log st')
       = (announced (log st)
          ++ map instance_id (firstn (Z.to_nat n) instances))%list
    /\ passed (locals st') = successes (results (locals st'))
    /\ evaluate_agent env self requested st
       = (let score := if 0 <? n
                       then (inject_Z (passed (locals st')) / inject_Z n)%Q
                       else 0%Q in
          (Ok (score,
               mkEvaluator instances
                 (results_history self
                  ++ [mkRun (clock env (log st')) n (passed (locals st'))
                            score (results (locals st'))])%list),
           st')).
Proof.
  intros instances n st0 Hne.
  assert (Hrange : Forall (fun i => i < length instances)%nat
                          (seq 0 (Z.to_nat n))).
  { apply Forall_forall. intros i Hi. apply in_seq in Hi. unfold n in *. lia. }
  destruct (for_each_outcome instances _ Hrange st0)
    as (st' & new & Hrun & Ha & Hres & Hpass).
  exists st'. split; [exact Hrun|]. split; [|split].
  - rewrite Ha. cbn [log st0]. f_equal.
    rewrite ids_at_seq by (unfold n; lia). reflexivity.
  - rewrite Hpass, Hres. cbn [st0 locals passed results app]. lia.
  - rewrite (evaluate_agent_nonempty self requested Hne).
    fold instances. fold n. cbv zeta.
    unfold bind at 1. unfold modify_locals at 1. fold st0.
    unfold bind at 1. rewrite Hrun.
    reflexivity.
Qed.
End EvaluationLoop.


Section EvaluationRun.
Import World Loader Evaluator Spec.
Variable env : Env.

(** C8, as the code has it. With no instance loaded, [evaluate_agent]
    returns 0.0 and leaves the history alone. Otherwise it opens exactly
    the first min(requested, available) instances, in the order in which
    they were loaded, and appends one run to the history; the run's task
    count is min(requested, available), its pass count is the number of
    results reporting success, and its score, which is also the value
    returned, is the pass count divided by that task count (0.0 when
    the task count is not positive). *)
Theorem evaluate_agent_run (self : Evaluator) (requested : Z)
    (st : State Frame) :
  let instances := current_instances self in
  let n := Z.min requested (Z.of_nat (length instances)) in
  (instances = [] ->
     evaluate_agent env self requested st = (Ok (0%Q, self), st))
  /\ (instances <> [] ->
        exists run st',
          evaluate_agent env self requested st
            = (Ok (run_score run,
                   mkEvaluator instances (results_history self ++ [run])%list),
               st')
          /\ announced (log st')
             = (announced (log st)
                ++ map instance_id (firstn (Z.to_nat n) instances))%list
          /\ num_tasks run = n
          /\ run_passed run = successes (run_results run)
          /\ run_score run
             = (if 0 <? n
                then (inject_Z (run_passed run) / inject_Z n)%Q
                else 0%Q)).
Proof.
  intros instances n. split.
  - intros Hnil. unfold evaluate_agent. fold instances. now rewrite Hnil.
  - intros Hne.
    destruct (evaluate_agent_outcome env self requested st Hne)
      as (st' & _ & Ha & Hpass & Hrun).
    fold instances in Ha, Hrun. fold n in Ha, Hrun. cbv zeta in Hrun.
    eexists (mkRun _ _ _ _ _), st'.
    split; [exact Hrun|]. split; [exact Ha|].
    split; [reflexivity|]. split; [exact Hpass | reflexivity].
Qed.

(** C9: [evaluate_agent] never raises, whatever the agent and the
    commands do. Every instance up to the task count is opened, in order.
    When the body of the [try] raises [e] for an instance, the results of
    the run contain an entry for that instance with success = false,
    score 0.0 and the reason "Exception: " followed by [e]. *)
Theorem evaluate_agent_contains_exceptions (self : Evaluator)
    (requested : Z) (st : State Frame) :
  let instances := current_instances self in
  let n := Z.to_nat (Z.min requested (Z.of_nat (length instances))) in
  exists score self' st',
    evaluate_agent env self requested st = (Ok (score, self'), st')
    /\ (instances <> [] ->
          announced (log st')
          = (announced (log st)
             ++ map instance_id (firstn n instances))%list)
    /\ forall i instance e st_e,
         (i < n)%nat ->
         nth_error instances i = Some instance ->
         task_body env instance
           (log_event (EvTask i (instance_id instance))
              (state_before env instances st i)) = (Raise e, st_e) ->
         exists run result,
           Py.last_item (results_history self') = Some run
           /\ In result (run_results run)
           /\ r_instance_id result = instance_id instance
           /\ r_success result = false
           /\ r_score result = 0%Q
           /\ r_reason result = "Exception: " ++ e.
Proof.
  intros instances n.
  assert (Hcase : instances = [] \/ instances <> [])
    by (destruct instances; [left | right]; congruence).
  destruct Hcase as [Hnil|Hne].
  - exists 0%Q, self, st. split; [|split].
    + unfold evaluate_agent. fold instances. now rewrite Hnil.
    + intros H. contradiction.
    + intros i instance e st_e Hi. unfold n in Hi.
      rewrite Hnil in Hi. simpl in Hi. lia.
  - destruct (evaluate_agent_outcome env self requested st Hne)
      as (st' & Hloop & Ha & _ & Hrun).
    fold instances in Hloop, Ha, Hrun. cbv zeta in Hrun.
    eexists _, _, st'. split; [exact Hrun|]. split; [intros _; exact Ha|].
    intros i instance e st_e Hi Hnth Hbody.
    set (st0 := mkState (fs st) (log st) (mkFrame 0 [])) in *.
    assert (Hseq : seq 0 n = (seq 0 i ++ [i] ++ seq (S i) (n - S i))%list).
    { replace n with (i + (1 + (n - S i)))%nat at 1 by lia.
      rewrite !seq_app. cbn [seq Nat.add].
      replace (i + 1)%nat with (S i) by lia. reflexivity. }
    fold n in Hloop. rewrite Hseq, for_each_app in Hloop.
    assert (Hbefore : for_each (seq 0 i) (evaluate_task env instances) st0
                      = (Ok tt, state_before env instances st i)).
    { assert (Hr : Forall (fun j => j < length instances)%nat (seq 0 i)).
      { apply Forall_forall. intros j Hj. apply in_seq in Hj.
        unfold n in Hi. lia. }
      destruct (for_each_outcome env instances _ Hr st0)
        as (s & new & Hs & _).
      unfold state_before. fold st0. now rewrite Hs. }
    rewrite Hbefore, for_each_app in Hloop.
    destruct (evaluate_task_outcome env instances i instance
                (state_before env instances st i) Hnth)
      as (s1 & new1 & Hs1 & _ & [Hres1 _] & _ & Hexn).
    destruct (Hexn e st_e Hbody) as [_ Hin].
    cbn [for_each] in Hloop. unfold bind at 1 in Hloop.
    rewrite Hs1 in Hloop. unfold ret at 1 in Hloop.
    assert (Hr : Forall (fun j => j < length instances)%nat
                        (seq (S i) (n - S i))).
    { apply Forall_forall. intros j Hj. apply in_seq in Hj.
      unfold n in *. lia. }
    destruct (for_each_outcome env instances _ Hr s1)
      as (s2 & new2 & Hs2 & _ & [Hres2 _]).
    rewrite Hs2 in Hloop. injection Hloop as <-.
    eexists _, (exception_result instance e).
    split; [apply last_item_app|].
    split; [|repeat split].
    cbn [run_results]. rewrite Hres2, Hres1.
    apply in_or_app. left. apply in_or_app. now right.
Qed.
End EvaluationRun.

Section EvaluationExamples.
Import World Loader Evaluator Spec Scenario.

(** The cases of [evaluate_agent_run] occur. *)
Lemma evaluate_agent_run_witness :
  let env := mkEnv calm_proc steady_agent no_fault (fun _ => 0%Q) no_leftover in
  let self := mkEvaluator [i1; i2] [] in
  current_instances self <> []
  /\ exists run st',
       evaluate_agent env self 5 start
         = (Ok (run_score run, mkEvaluator [i1; i2] [run]), st')
       /\ announced (log st') = ["i1"; "i2"]
       /\ num_tasks run = 2.
Proof.
  intros env self.
  assert (Hne : current_instances self <> []) by discriminate.
  split; [exact Hne|].
  destruct (evaluate_agent_run env self 5 start) as [_ H].
  destruct (H Hne) as (run & st' & Hrun & Ha & Hn & _).
  exists run, st'. split; [exact Hrun|]. split; [exact Ha | exact Hn].
Defined.

(** C8 as stated fails. Two tasks are requested and one instance is
    available, which passes: the score is 1/1, not 1/2. And with no
    instance available nothing is appended to the history. *)
Lemma evaluate_agent_score_denominator :
  let env := mkEnv calm_proc steady_agent no_fault (fun _ => 0%Q) no_leftover in
  (exists score self' st',
      evaluate_agent env (mkEvaluator [i1] []) 2 start
        = (Ok (score, self'), st')
      /\ map run_passed (results_history self') = [1]
      /\ (score == 1)%Q
      /\ ~ (score == 1 # 2)%Q)
  /\ evaluate_agent env (mkEvaluator [] []) 2 start
     = (Ok (0%Q, mkEvaluator [] []), start).
Proof.
  intros env. split; [|reflexivity].
  eexists _, _, _. split; [vm_compute; reflexivity|].
  split; [reflexivity|]. split; [reflexivity|]. discriminate.
Qed.

(** An exception of the agent on the first of two instances. *)
Lemma evaluate_agent_contains_exceptions_witness :
  let env := mkEnv calm_proc brittle_agent no_fault (fun _ => 0%Q) no_leftover in
  let self := mkEvaluator [i1; i2] [] in
  exists score self' st' st_e,
    evaluate_agent env self 2 start = (Ok (score, self'), st')
    /\ task_body env i1
         (log_event (EvTask 0 "i1") (state_before env [i1; i2] start 0))
       = (Raise "connection refused", st_e)
    /\ exists run result,
         Py.last_item (results_history self') = Some run
         /\ In result (run_results run)
         /\ r_instance_id result = "i1"
         /\ r_success result = false
         /\ r_score result = 0%Q
         /\ r_reason result = "Exception: connection refused".
Proof.
  intros env self.
  destruct (evaluate_agent_contains_exceptions env self 2 start)
    as (score & self' & st' & Hrun & _ & Hexn).
  exists score, self', st'. eexists.
  split; [exact Hrun|].
  assert (Hbody : task_body env i1
            (log_event (EvTask 0 "i1") (state_before env [i1; i2] start 0))
          = (Raise "connection refused",
             snd (task_body env i1
                    (log_event (EvTask 0 "i1")
                       (state_before env [i1; i2] start 0)))))
    by (vm_compute; reflexivity).
  split; [exact Hbody|].
  eapply (Hexn 0%nat i1 "connection refused");
    [simpl; lia | reflexivity | exact Hbody].
Defined.

(** C1 fails on the code: the sandbox is removed at the end of the
    [try] body only. The agent raises on the first of two instances;
    the sandbox of the first instance exists when the second instance
    starts and still exists when the run is over, and [shutil.rmtree] is
    never called on it. The second instance, which is evaluated without
    an exception, leaves no sandbox behind. *)
Theorem evaluate_agent_leaks_sandbox :
  let env := mkEnv calm_proc brittle_agent no_fault (fun _ => 0%Q) no_leftover in
  let self := mkEvaluator [i1; i2] [] in
  let final := snd (evaluate_agent env self 2 start) in
  fs (state_before env [i1; i2] start 1) = [repo_dir_of i1]
  /\ fs final = [repo_dir_of i1]
  /\ In (EvSolve "p1" (repo_dir_of i1)) (log final)
  /\ ~ In (EvRmtree (repo_dir_of i1)) (log final)
  /\ In (EvRmtree (repo_dir_of i2)) (log final)
  /\ map r_reason (results (locals final))
     = ["Exception: connection refused"; "Tests completed"].
Proof.
  intros env self final.
  assert (Hlog : log final =
    [ EvTask 0 "i1"; EvMkdir "swe_bench_data/repos";
      EvRun (clone_cmd i1); EvRun (checkout_cmd i1);
      EvSolve "p1" (repo_dir_of i1);
      EvTask 1 "i2"; EvMkdir "swe_bench_data/repos";
      EvRun (clone_cmd i2); EvRun (checkout_cmd i2);
      EvSolve "p2" (repo_dir_of i2);
      EvRun (reset_cmd (repo_dir_of i2));
      EvWrite (repo_dir_of i2 ++ "/agent_patch.patch") patch_text;
      EvRun (apply_cmd (repo_dir_of i2));
      EvWrite (repo_dir_of i2 ++ "/test_patch.patch") "tests";
      EvRun (apply_test_cmd (repo_dir_of i2));
      EvRun (test_cmd (repo_dir_of i2));
      EvRmtree (repo_dir_of i2) ]) by (vm_compute; reflexivity).
  split; [vm_compute; reflexivity|].
  split; [vm_compute; reflexivity|].
  rewrite Hlog.
  split; [simpl; tauto|].
  split.
  - vm_compute. intros H.
    repeat match goal with
           | H : _ \/ _ |- _ => destruct H as [H|H]; [discriminate H|]
           end.
    exact H.
  - split; [vm_compute; tauto | vm_compute; reflexivity].
Qed.
End EvaluationExamples.


(* ===================================================================== *)
(** * archive.py: the best and the top variants *)
(* ===================================================================== *)

Section RankingFacts.
Import Archive Ranking Spec.

Lemma ranks_before_iff (x y : Agent) :
  ranks_before x y = true <->
  (score y < score x)%Q
  \/ ((score x == score y)%Q /\ created_at y <= created_at x).
Proof.
  unfold ranks_before.
  destruct (Qcompare (score x) (score y)) eqn:E.
  - apply Qeq_alt in E. rewrite Z.leb_le. split.
    + intros H. right. now split.
    + intros [H|[_ H]]; [|exact H].
      rewrite E in H. exfalso. exact (Qlt_irrefl _ H).
  - apply Qlt_alt in E. split; [discriminate|].
    intros [H|[H _]]; exfalso.
    + exact (Qlt_irrefl _ (Qlt_trans _ _ _ E H)).
    + rewrite H in E. exact (Qlt_irrefl _ E).
  - apply Qgt_alt in E. split; [|reflexivity]. intros _. now left.
Qed.

Lemma ranks_before_total (x y : Agent) :
  ranks_before x y = false -> ranks_before y x = true.
Proof.
  intros H. apply ranks_before_iff.
  destruct (Q_dec (score x) (score y)) as [[Hlt|Hgt]|Heq].
  - now left.
  - assert (Hxy : ranks_before x y = true)
      by (apply ranks_before_iff; now left).
    congruence.
  - right. split; [now symmetry|].
    destruct (Z_le_gt_dec (created_at x) (created_at y)) as [Hle|Hgt];
      [exact Hle|].
    assert (Hxy : ranks_before x y = true)
      by (apply ranks_before_iff; right; split; [exact Heq | lia]).
    congruence.
Qed.

Lemma ranks_before_trans (x y z : Agent) :
  ranks_before x y = true -> ranks_before y z = true ->
  ranks_before x z = true.
Proof.
  rewrite !ranks_before_iff.
  intros [H1|[H1 H1']] [H2|[H2 H2']].
  - left. eapply Qlt_trans; eassumption.
  - left. now rewrite <- H2.
  - left. now rewrite H1.
  - right. split; [now rewrite H1 | lia].
Qed.

Lemma ranked_strongly_sorted (l : list Agent) :
  StronglySorted (fun x y => ranks_before x y = true)
                 (order_by_score_created_desc l).
Proof.
  apply sort_strongly_sorted.
  - apply ranks_before_total.
  - apply ranks_before_trans.
Qed.

Lemma ranks_before_refl (x : Agent) : ranks_before x x = true.
Proof. apply ranks_before_iff. right. split; [reflexivity | lia]. Qed.

Lemma functional_in (db : DB) (a : Agent) :
  In a (functional db) <-> In a (agents db) /\ is_functional a = true.
Proof. apply filter_In. Qed.

(** The first row of the ranking is a row of the list and ranks before
    every row of the list. *)
Lemma ranked_head_dominates (l : list Agent) (best : Agent)
    (rest : list Agent) :
  order_by_score_created_desc l = best :: rest ->
  In best l /\ forall a, In a l -> ranks_before best a = true.
Proof.
  intros E.
  pose proof (ranked_strongly_sorted l) as Hs.
  pose proof (sort_perm ranks_before l) as Hp.
  fold order_by_score_created_desc in Hp. rewrite E in Hs, Hp.
  split.
  - eapply Permutation_in; [apply Permutation_sym, Hp | now left].
  - intros a Ha.
    assert (Ha' : In a (best :: rest))
      by (eapply Permutation_in; [exact Hp | exact Ha]).
    destruct Ha' as [<-|Ha']; [apply ranks_before_refl|].
    apply StronglySorted_inv in Hs as [_ Hall].
    rewrite Forall_forall in Hall. now apply Hall.
Qed.

(** [get_best_agent] returns nothing exactly when the archive holds no
    functional variant. Otherwise it returns a stored functional variant
    that no functional variant outscores, and that was created no
    earlier than any functional variant with the same score. *)
Theorem get_best_agent_maximal (db : DB) :
  match get_best_agent db with
  | None => functional db = []
  | Some best =>
      In best (agents db) /\ is_functional best = true
      /\ forall a, In a (agents db) -> is_functional a = true ->
           (score a <= score best)%Q
           /\ ((score a == score best)%Q -> created_at a <= created_at best)
  end.
Proof.
  unfold get_best_agent, sql_limit. change (1 <? 0) with false. cbv iota.
  fold (functional db).
  destruct (order_by_score_created_desc (functional db)) as [|best rest]
    eqn:E.
  - simpl.
    pose proof (sort_perm ranks_before (functional db)) as Hp.
    fold order_by_score_created_desc in Hp. rewrite E in Hp.
    now apply Permutation_sym, Permutation_nil in Hp.
  - simpl. destruct (ranked_head_dominates _ _ _ E) as [Hbest Hdom].
    apply functional_in in Hbest as [Hin Hf].
    split; [exact Hin|]. split; [exact Hf|].
    intros a Ha Hfa.
    assert (Hr : ranks_before best a = true)
      by (apply Hdom; now apply functional_in).
    apply ranks_before_iff in Hr as [Hlt|[Heq Hle]].
    + split; [now apply Qlt_le_weak|].
      intros Heq. rewrite Heq in Hlt. exfalso. exact (Qlt_irrefl _ Hlt).
    + split; [rewrite Heq; apply Qle_refl | intros _; exact Hle].
Qed.

(** [get_top_agents n] lists the functional variants by score, highest
    first, and among equal scores by creation time, newest first. With
    [n >= 0] it returns min(n, number of functional variants) of them and
    every variant left out ranks behind every variant returned; with a
    negative [n] the LIMIT is void and all functional variants are
    returned. Whenever [n] is not 0, its first element has the score
    and the creation time of the result of [get_best_agent], and it is
    empty when [get_best_agent] returns nothing. *)
Theorem get_top_agents_ranked (db : DB) (n : Z) :
  let top := get_top_agents db n in
  StronglySorted (fun x y => ranks_before x y = true) top
  /\ (exists rest,
        Permutation (top ++ rest) (functional db)
        /\ Forall (fun t => Forall (fun r => ranks_before t r = true) rest) top)
  /\ length top = (if n <? 0 then length (functional db)
                   else Nat.min (Z.to_nat n) (length (functional db)))
  /\ (n <> 0 ->
      match hd_error top, get_best_agent db with
      | Some first, Some best =>
          (score first == score best)%Q
          /\ created_at first = created_at best
      | None, None => True
      | _, _ => False
      end).
Proof.
  intros top. unfold top, get_top_agents, get_best_agent, sql_limit.
  fold (functional db).
  pose proof (ranked_strongly_sorted (functional db)) as Hs.
  pose proof (sort_perm ranks_before (functional db)) as Hp.
  fold order_by_score_created_desc in Hp.
  assert (Hlen : length (order_by_score_created_desc (functional db))
                 = length (functional db))
    by (symmetry; now apply Permutation_length).
  change (1 <? 0) with false. cbv iota.
  destruct (n <? 0) eqn:En.
  - split; [exact Hs|]. split; [|split; [exact Hlen|]].
    + exists []. rewrite app_nil_r. split; [now apply Permutation_sym|].
      apply Forall_forall. intros t _. constructor.
    + intros _.
      destruct (order_by_score_created_desc (functional db));
        cbn [hd_error firstn]; [exact I | split; reflexivity].
  - apply Z.ltb_ge in En.
    split; [now apply firstn_strongly_sorted|].
    split; [|split].
    + exists (skipn (Z.to_nat n) (order_by_score_created_desc (functional db))).
      split; [rewrite firstn_skipn; now apply Permutation_sym|].
      now apply firstn_dominates_skipn.
    + rewrite length_firstn, Hlen. reflexivity.
    + intros Hn.
      destruct (Z.to_nat n) as [|m] eqn:Em; [lia|].
      destruct (order_by_score_created_desc (functional db));
        cbn [hd_error firstn]; [exact I | split; reflexivity].
Qed.
End RankingFacts.


(* ===================================================================== *)
(** * archive.py: saving, looking up and cleaning up *)
(* ===================================================================== *)

Section ListFacts.
Context {A : Type}.

Lemma find_app (f : A -> bool) (l1 l2 : list A) :
  find f (l1 ++ l2) =
  match find f l1 with
  | Some x => Some x
  | None => find f l2
  end.
Proof.
  induction l1 as [|x l1 IH]; simpl; [reflexivity|].
  now destruct (f x).
Qed.

Lemma permutation_filter (p : A -> bool) (l l' : list A) :
  Permutation l l' -> Permutation (filter p l) (filter p l').
Proof.
  induction 1 as [|x l l' _ IH|x y l|l l' l'' _ IH1 _ IH2]; simpl.
  - constructor.
  - destruct (p x); [now constructor | exact IH].
  - destruct (p x), (p y); try apply Permutation_refl. apply perm_swap.
  - eapply perm_trans; eassumption.
Qed.

Lemma filter_implied (p q : A -> bool) (l : list A) :
  (forall a, p a = true -> q a = true) ->
  filter p (filter q l) = filter p l.
Proof.
  intros H. induction l as [|x l IH]; simpl; [reflexivity|].
  destruct (q x) eqn:Eq; simpl.
  - now rewrite IH.
  - destruct (p x) eqn:Ep; [|exact IH].
    apply H in Ep. congruence.
Qed.

Lemma nodup_app_disjoint (l1 l2 : list A) (x : A) :
  NoDup (l1 ++ l2) -> In x l1 -> In x l2 -> False.
Proof.
  induction l1 as [|y l1 IH]; simpl; intros Hnd H1 H2; [contradiction|].
  apply NoDup_cons_iff in Hnd as [Hy Hnd].
  destruct H1 as [->|H1]; [|now apply IH].
  apply Hy. apply in_or_app. now right.
Qed.
End ListFacts.

Section Retention.
Import Archive Ranking Spec.

Lemma sorted_ids_nodup (l : list Z) : StronglySorted Z.lt l -> NoDup l.
Proof.
  induction 1 as [|x l _ IH Hall]; constructor; [|exact IH].
  intros Hin. rewrite Forall_forall in Hall.
  specialize (Hall _ Hin). lia.
Qed.

Lemma sorted_ids_filter (p : Agent -> bool) (l : list Agent) :
  StronglySorted Z.lt (map id l) ->
  StronglySorted Z.lt (map id (filter p l)).
Proof.
  induction l as [|x l IH]; simpl; intros H; [constructor|].
  apply StronglySorted_inv in H as [Hs Hall].
  destruct (p x); [|now apply IH].
  simpl. constructor; [now apply IH|].
  rewrite Forall_forall in *. intros z Hz. apply Hall.
  apply in_map_iff in Hz as (a & <- & Ha).
  apply filter_In in Ha as [Ha _]. now apply in_map.
Qed.

Lemma ids_injective (l : list Agent) (a b : Agent) :
  NoDup (map id l) -> In a l -> In b l -> id a = id b -> a = b.
Proof.
  induction l as [|x l IH]; simpl; intros Hnd Ha Hb Heq; [contradiction|].
  apply NoDup_cons_iff in Hnd as [Hx Hnd].
  destruct Ha as [->|Ha], Hb as [->|Hb]; auto.
  - exfalso. apply Hx. rewrite Heq. now apply in_map.
  - exfalso. apply Hx. rewrite <- Heq. now apply in_map.
Qed.

Lemma well_formed_nodup (db : DB) :
  well_formed db -> NoDup (map id (agents db)).
Proof. intros [H _]. now apply sorted_ids_nodup. Qed.

(** With distinct ids, [get_agent] finds exactly the stored row. *)
Lemma get_agent_stored (db : DB) (a : Agent) :
  NoDup (map id (agents db)) -> In a (agents db) ->
  get_agent db (id a) = Some a.
Proof.
  intros Hnd Ha. unfold get_agent.
  destruct (find (fun x => id x =? id a) (agents db)) as [b|] eqn:E.
  - apply find_some in E as [Hb Hid]. apply Z.eqb_eq in Hid.
    f_equal. now apply (ids_injective (agents db)).
  - apply (find_none _ _ E) in Ha. rewrite Z.eqb_refl in Ha. discriminate.
Qed.

(** The empty archive is well formed, [save_agent] keeps an archive
    well formed, and after it [get_agent] returns the saved row under
    the returned id, which no stored row had before, and returns for
    every other id what it returned before. *)
Theorem save_agent_get_agent (db : DB) (now : Z) (code : string)
    (score : Q) (parent_id : option Z) (description metadata : string)
    (is_functional : bool) :
  well_formed db ->
  let saved := save_agent now db code score parent_id description metadata
                          is_functional in
  let agent_id := fst saved in
  let db' := snd saved in
  get_agent db' agent_id
    = Some (mkAgent agent_id code score now parent_id description metadata
                    is_functional)
  /\ (forall other, other <> agent_id ->
        get_agent db' other = get_agent db other)
  /\ ~ In agent_id (map id (agents db))
  /\ well_formed db'.
Proof.
  intros [Hsorted Hbound] saved agent_id db'.
  assert (Hfresh : forall a, In a (agents db) -> id a < agent_id).
  { intros a Ha. rewrite Forall_forall in Hbound.
    specialize (Hbound a Ha). unfold agent_id. simpl. lia. }
  assert (Hnone : find (fun a => id a =? agent_id) (agents db) = None).
  { destruct (find _ (agents db)) as [a|] eqn:E; [|reflexivity].
    apply find_some in E as [Ha Hid]. apply Z.eqb_eq in Hid.
    specialize (Hfresh a Ha). lia. }
  split; [|split; [|split]].
  - unfold get_agent, db'. simpl. rewrite find_app. fold agent_id.
    rewrite Hnone. simpl. now rewrite Z.eqb_refl.
  - intros other Hother. unfold get_agent, db'. simpl. rewrite find_app.
    destruct (find (fun a => id a =? other) (agents db)); [reflexivity|].
    simpl.
    destruct (last_rowid db + 1 =? other) eqn:E; [|reflexivity].
    apply Z.eqb_eq in E. exfalso. apply Hother. rewrite <- E. reflexivity.
  - intros Hin. apply in_map_iff in Hin as (a & Hid & Ha).
    specialize (Hfresh a Ha). lia.
  - unfold well_formed, db'. simpl. fold agent_id. split.
    + rewrite map_app. simpl.
      clear Hnone Hbound. revert Hsorted Hfresh.
      induction (agents db) as [|x l IH]; simpl; intros Hs Hf.
      * repeat constructor.
      * apply StronglySorted_inv in Hs as [Hs Hall].
        constructor; [apply IH; auto|].
        apply Forall_app. split; [exact Hall|].
        constructor; [|constructor]. apply Hf. now left.
    + apply Forall_app. split.
      * eapply Forall_impl; [|exact Hbound]. simpl. intros a Ha.
        unfold agent_id. simpl. lia.
      * constructor; [simpl; lia | constructor].
Qed.

Lemma well_formed_empty : well_formed empty.
Proof. split; constructor. Qed.

(** The hypothesis of [save_agent_get_agent] is met by the empty
    archive and by what [save_agent] makes of it. *)
Lemma save_agent_get_agent_witness :
  let db1 := snd (save_agent 100 empty "v1" (1 # 4) None "seed" "{}" true) in
  well_formed db1
  /\ get_agent (snd (save_agent 200 db1 "v2" (1 # 2) (Some 1) "next" "{}" true)) 2
     = Some (mkAgent 2 "v2" (1 # 2) 200 (Some 1) "next" "{}" true).
Proof.
  intros db1.
  assert (Hwf : well_formed db1).
  { apply (save_agent_get_agent empty 100 "v1" (1 # 4) None "seed" "{}" true).
    apply well_formed_empty. }
  split; [exact Hwf|].
  apply (save_agent_get_agent db1 200 "v2" (1 # 2) (Some 1) "next" "{}" true Hwf).
Defined.

(** ** Cleanup *)

Lemma in_ids_iff (keep : list Z) (a : Agent) :
  in_ids keep a = true <-> In (id a) keep.
Proof.
  unfold in_ids. rewrite existsb_exists. split.
  - intros (z & Hz & E). apply Z.eqb_eq in E. now subst.
  - intros H. exists (id a). split; [exact H | apply Z.eqb_refl].
Qed.

Lemma cleanup_functional (db : DB) (keep_n : Z) :
  functional (cleanup_old_agents db keep_n)
  = filter (in_ids (kept_ids db keep_n)) (functional db).
Proof.
  unfold functional, cleanup_old_agents. cbn [agents].
  fold (in_ids (kept_ids db keep_n)).
  generalize (kept_ids db keep_n) as keep. intros keep.
  induction (agents db) as [|x l IH]; simpl; [reflexivity|].
  fold (in_ids keep x).
  destruct (is_functional x) eqn:Ef, (in_ids keep x) eqn:Ek; simpl;
    rewrite ?Ef, ?Ek, ?IH; reflexivity.
Qed.

Lemma filter_kept_prefix (K R : list Agent) :
  NoDup (map id (K ++ R)) ->
  filter (in_ids (map id K)) (K ++ R) = K.
Proof.
  intros Hnd. rewrite filter_app.
  assert (HK : filter (in_ids (map id K)) K = K).
  { apply forallb_filter_id. apply forallb_forall. intros a Ha.
    apply in_ids_iff. now apply in_map. }
  assert (HR : filter (in_ids (map id K)) R = []).
  { destruct (filter (in_ids (map id K)) R) as [|a t] eqn:E; [reflexivity|].
    assert (Ha : In a (filter (in_ids (map id K)) R))
      by (rewrite E; now left).
    apply filter_In in Ha as [HaR HaK]. apply in_ids_iff in HaK.
    exfalso. rewrite map_app in Hnd.
    apply (nodup_app_disjoint _ _ (id a) Hnd HaK). now apply in_map. }
  rewrite HK, HR. apply app_nil_r.
Qed.

Lemma score_desc_strongly_sorted (l : list Agent) :
  StronglySorted (fun x y => Qle_bool (score y) (score x) = true)
                 (order_by_score_desc l).
Proof.
  apply sort_strongly_sorted.
  - intros x y. apply Qle_bool_total.
  - intros x y z. apply score_before_trans.
Qed.

(** [cleanup_old_agents keep_n], on a well-formed archive and with
    [keep_n >= 0]: every non-functional variant stays; exactly
    min(keep_n, number of functional variants) functional variants stay;
    no deleted variant outscores a functional variant that stays; the
    AUTOINCREMENT counter is unchanged, so a later [save_agent] does not
    hand out the id of a deleted variant again; and the archive stays
    well formed. *)
Theorem cleanup_old_agents_keeps_top (db : DB) (keep_n : Z) :
  well_formed db -> 0 <= keep_n ->
  let db' := cleanup_old_agents db keep_n in
  (forall a, In a (agents db) -> is_functional a = false ->
     In a (agents db'))
  /\ length (functional db')
     = Nat.min (Z.to_nat keep_n) (length (functional db))
  /\ (forall kept gone,
        In kept (functional db') -> In gone (agents db) ->
        ~ In gone (agents db') -> (score gone <= score kept)%Q)
  /\ (forall now code score parent_id description metadata is_functional a,
        In a (agents db) ->
        id a < fst (save_agent now db' code score parent_id description
                      metadata is_functional))
  /\ well_formed db'.
Proof.
  intros Hwf Hk db'.
  pose proof Hwf as [Hsorted Hbound].
  set (ranked := order_by_score_desc (functional db)).
  set (K := firstn (Z.to_nat keep_n) ranked).
  set (R := skipn (Z.to_nat keep_n) ranked).
  assert (Hkeep : kept_ids db keep_n = map id K).
  { unfold kept_ids, sql_limit.
    destruct (keep_n <? 0) eqn:E; [apply Z.ltb_lt in E; lia | reflexivity]. }
  assert (Hperm : Permutation (functional db) (K ++ R)).
  { unfold K, R. rewrite firstn_skipn. apply sort_perm. }
  assert (Hnd : NoDup (map id (K ++ R))).
  { eapply Permutation_NoDup; [apply Permutation_map, Hperm|].
    apply sorted_ids_nodup. unfold functional. now apply sorted_ids_filter. }
  assert (Hfun : Permutation (functional db') K).
  { unfold db'. rewrite cleanup_functional, Hkeep.
    rewrite <- (filter_kept_prefix K R Hnd) at 2.
    now apply permutation_filter. }
  split; [|split; [|split; [|split]]].
  - intros a Ha Hf. unfold db', cleanup_old_agents. cbn [agents].
    apply filter_In. split; [exact Ha|]. rewrite Hf.
    now rewrite andb_false_r.
  - rewrite (Permutation_length Hfun). unfold K.
    rewrite length_firstn. unfold ranked, order_by_score_desc.
    now rewrite sort_length.
  - intros kept gone Hkept Hgone Hdel.
    assert (HkK : In kept K) by (eapply Permutation_in; eassumption).
    assert (HgR : In gone R).
    { assert (Hd : negb (in_ids (kept_ids db keep_n) gone)
                   && is_functional gone = true).
      { destruct (negb (in_ids (kept_ids db keep_n) gone)
                  && is_functional gone) eqn:E; [reflexivity|].
        exfalso. apply Hdel. unfold db', cleanup_old_agents. cbn [agents].
        apply filter_In. split; [exact Hgone|].
        unfold in_ids in E. now rewrite E. }
      apply andb_true_iff in Hd as [Hout Hf].
      assert (HgF : In gone (K ++ R)).
      { eapply Permutation_in; [exact Hperm|].
        apply functional_in. now split. }
      apply in_app_or in HgF as [HgK|HgR]; [|exact HgR].
      exfalso. apply negb_true_iff in Hout.
      assert (Hin : in_ids (kept_ids db keep_n) gone = true)
        by (apply in_ids_iff; rewrite Hkeep; now apply in_map).
      congruence. }
    pose proof (firstn_dominates_skipn _ (Z.to_nat keep_n) ranked
                  (score_desc_strongly_sorted (functional db))) as Hdom.
    fold K R in Hdom. rewrite Forall_forall in Hdom.
    specialize (Hdom kept HkK). rewrite Forall_forall in Hdom.
    apply Qle_bool_iff. now apply Hdom.
  - intros now code score parent_id description metadata is_functional a Ha.
    simpl. rewrite Forall_forall in Hbound.
    specialize (Hbound a Ha). lia.
  - unfold well_formed, db', cleanup_old_agents. cbn [agents last_rowid].
    split; [now apply sorted_ids_filter|].
    apply Forall_forall. intros a Ha. apply filter_In in Ha as [Ha _].
    rewrite Forall_forall in Hbound. now apply Hbound.
Qed.

Lemma cleanup_functional_kept (db : DB) (keep_n : Z) :
  well_formed db -> 0 <= keep_n ->
  Permutation (functional (cleanup_old_agents db keep_n))
              (firstn (Z.to_nat keep_n)
                      (order_by_score_desc (functional db))).
Proof.
  intros [Hsorted _] Hk.
  set (ranked := order_by_score_desc (functional db)).
  set (K := firstn (Z.to_nat keep_n) ranked).
  set (R := skipn (Z.to_nat keep_n) ranked).
  assert (Hkeep : kept_ids db keep_n = map id K).
  { unfold kept_ids, sql_limit.
    destruct (keep_n <? 0) eqn:E; [apply Z.ltb_lt in E; lia | reflexivity]. }
  assert (Hperm : Permutation (functional db) (K ++ R)).
  { unfold K, R. rewrite firstn_skipn. apply sort_perm. }
  assert (Hnd : NoDup (map id (K ++ R))).
  { eapply Permutation_NoDup; [apply Permutation_map, Hperm|].
    apply sorted_ids_nodup. unfold functional. now apply sorted_ids_filter. }
  rewrite cleanup_functional, Hkeep.
  rewrite <- (filter_kept_prefix K R Hnd) at 2.
  now apply permutation_filter.
Qed.

(** Cleaning up twice with the same [keep_n] is cleaning up once. *)
Theorem cleanup_old_agents_idempotent (db : DB) (keep_n : Z) :
  well_formed db -> 0 <= keep_n ->
  cleanup_old_agents (cleanup_old_agents db keep_n) keep_n
  = cleanup_old_agents db keep_n.
Proof.
  intros Hwf Hk.
  pose proof (cleanup_functional_kept db keep_n Hwf Hk) as Hfun.
  set (db' := cleanup_old_agents db keep_n) in *.
  assert (Hlen : (length (functional db') <= Z.to_nat keep_n)%nat).
  { rewrite (Permutation_length Hfun), length_firstn. lia. }
  assert (Hids : kept_ids db' keep_n
                 = map id (order_by_score_desc (functional db'))).
  { unfold kept_ids, sql_limit.
    destruct (keep_n <? 0) eqn:E; [reflexivity|].
    rewrite firstn_all2; [reflexivity|].
    unfold order_by_score_desc. now rewrite sort_length. }
  unfold cleanup_old_agents at 1. fold (in_ids (kept_ids db' keep_n)).
  replace (filter _ (agents db')) with (agents db');
    [now destruct db'|].
  symmetry. apply forallb_filter_id. apply forallb_forall.
  intros a Ha. destruct (is_functional a) eqn:Ef;
    [|now rewrite andb_false_r].
  rewrite andb_true_r, negb_involutive.
  apply in_ids_iff. rewrite Hids. apply in_map.
  eapply Permutation_in; [apply sort_perm|].
  apply functional_in. now split.
Qed.

Lemma well_formed_by_check (db : DB) :
  forallb (fun a => id a <=? last_rowid db) (agents db) = true ->
  StronglySorted Z.lt (map id (agents db)) -> well_formed db.
Proof.
  intros H Hs. split; [exact Hs|].
  apply Forall_forall. intros a Ha.
  rewrite forallb_forall in H. apply Z.leb_le. now apply H.
Qed.

(** The hypotheses of [cleanup_old_agents_keeps_top] are met: five
    functional variants and a broken one, two to keep. *)
Lemma cleanup_old_agents_keeps_top_witness :
  let db := mkDB [ mkAgent 1 "v1" (3 # 10) 100 None "a" "{}" true;
                   mkAgent 2 "v2" (5 # 10) 200 (Some 1) "b" "{}" true;
                   mkAgent 3 "v3" (1 # 10) 300 (Some 2) "c" "{}" false;
                   mkAgent 4 "v4" (2 # 10) 400 (Some 2) "d" "{}" true;
                   mkAgent 5 "v5" (4 # 10) 500 (Some 2) "e" "{}" true;
                   mkAgent 6 "v6" (1 # 10) 600 (Some 5) "f" "{}" true ] 6 in
  well_formed db /\ 0 <= 2
  /\ map id (agents (cleanup_old_agents db 2)) = [2; 3; 5]
  /\ length (functional (cleanup_old_agents db 2))
     = Nat.min (Z.to_nat 2) (length (functional db)).
Proof.
  intros db.
  assert (Hwf : well_formed db).
  { apply well_formed_by_check; [reflexivity|].
    simpl. repeat (constructor; [|repeat (constructor; try lia)]).
    constructor. }
  split; [exact Hwf|]. split; [lia|]. split; [reflexivity|].
  apply (cleanup_old_agents_keeps_top db 2 Hwf). lia.
Defined.

(** The hypotheses of [cleanup_old_agents_idempotent] are met. *)
Lemma cleanup_old_agents_idempotent_witness :
  let db := mkDB [ mkAgent 1 "v1" (3 # 10) 100 None "a" "{}" true;
                   mkAgent 2 "v2" (5 # 10) 200 (Some 1) "b" "{}" true;
                   mkAgent 3 "v3" (1 # 10) 300 (Some 2) "c" "{}" false;
                   mkAgent 4 "v4" (2 # 10) 400 (Some 2) "d" "{}" true ] 4 in
  well_formed db /\ 0 <= 1
  /\ map id (agents (cleanup_old_agents db 1)) = [2; 3]
  /\ cleanup_old_agents (cleanup_old_agents db 1) 1
     = cleanup_old_agents db 1.
Proof.
  intros db.
  assert (Hwf : well_formed db).
  { apply well_formed_by_check; [reflexivity|].
    simpl. repeat (constructor; [|repeat (constructor; try lia)]).
    constructor. }
  split; [exact Hwf|]. split; [lia|]. split; [reflexivity|].
  apply (cleanup_old_agents_idempotent db 1 Hwf). lia.
Defined.
End Retention.


(* ===================================================================== *)
(** * archive.py: how the queries fit together *)
(* ===================================================================== *)

Section ArchiveComposition.
Import Archive Ranking Spec.

(** A row that [get_agent] finds after the cleanup is the row it found
    before. *)
Lemma get_agent_after_cleanup (db : DB) (keep_n : Z) (c : Z) (a : Agent) :
  well_formed db ->
  get_agent (cleanup_old_agents db keep_n) c = Some a ->
  get_agent db c = Some a.
Proof.
  intros Hwf H. unfold get_agent in H.
  apply find_some in H as [Hin Hid]. apply Z.eqb_eq in Hid.
  unfold cleanup_old_agents in Hin. cbn [agents] in Hin.
  apply filter_In in Hin as [Hin _]. subst c.
  apply get_agent_stored; [now apply well_formed_nodup | exact Hin].
Qed.

Lemma lineage_loop_after_cleanup (db : DB) (keep_n : Z) (fuel : nat) :
  well_formed db ->
  forall cur acc l,
    get_lineage_loop fuel db cur acc = Some l ->
    exists l' rest,
      get_lineage_loop fuel (cleanup_old_agents db keep_n) cur acc = Some l'
      /\ l = (l' ++ rest)%list.
Proof.
  intros Hwf. induction fuel as [|fuel IH]; intros cur acc l H;
    [discriminate|].
  simpl in *. destruct cur as [c|].
  - destruct (get_agent (cleanup_old_agents db keep_n) c) as [a|] eqn:E.
    + apply (get_agent_after_cleanup _ _ _ _ Hwf) in E. rewrite E in H.
      now apply IH.
    + exists acc. destruct (get_agent db c) as [a|].
      * apply loop_result in H as (tail & -> & _).
        exists ([a] ++ tail)%list. split; [reflexivity|].
        now rewrite <- app_assoc.
      * injection H as <-. exists []. now rewrite app_nil_r.
  - injection H as <-. exists acc, []. now rewrite app_nil_r.
Qed.

(** Cleaning up can cut a lineage short but cannot change it: on a
    well-formed archive, whenever [get_lineage] returns for an id, it
    also returns after [cleanup_old_agents], and what it then returns is
    a prefix of the lineage before. *)
Theorem get_lineage_after_cleanup (db : DB) (keep_n : Z) (fuel : nat)
    (agent_id : Z) (lineage : list Agent) :
  well_formed db ->
  get_lineage fuel db agent_id = Some lineage ->
  exists remaining cut,
    get_lineage fuel (cleanup_old_agents db keep_n) agent_id = Some remaining
    /\ lineage = (remaining ++ cut)%list.
Proof.
  intros Hwf H. unfold get_lineage in *.
  now apply lineage_loop_after_cleanup.
Qed.

(** The hypotheses of [get_lineage_after_cleanup] are met: the cleanup
    removes the root of a chain of three. *)
Lemma get_lineage_after_cleanup_witness :
  let db := mkDB [ mkAgent 1 "v1" (1 # 10) 100 None "a" "{}" true;
                   mkAgent 2 "v2" (5 # 10) 200 (Some 1) "b" "{}" true;
                   mkAgent 3 "v3" (4 # 10) 300 (Some 2) "c" "{}" true ] 3 in
  well_formed db
  /\ option_map (map id) (get_lineage 4 db 3) = Some [3; 2; 1]
  /\ option_map (map id) (get_lineage 4 (cleanup_old_agents db 2) 3)
     = Some [3; 2]
  /\ exists lineage remaining cut,
       get_lineage 4 db 3 = Some lineage
       /\ get_lineage 4 (cleanup_old_agents db 2) 3 = Some remaining
       /\ lineage = (remaining ++ cut)%list.
Proof.
  intros db.
  assert (Hwf : well_formed db).
  { apply well_formed_by_check; [reflexivity|].
    simpl. repeat (constructor; [|repeat (constructor; try lia)]).
    constructor. }
  split; [exact Hwf|]. split; [reflexivity|]. split; [reflexivity|].
  assert (Hl : get_lineage 4 db 3 = Some (rev (agents db))) by reflexivity.
  destruct (get_lineage_after_cleanup db 2 4 3 _ Hwf Hl)
    as (remaining & cut & Hr & Hc).
  exists (rev (agents db)), remaining, cut. now repeat split.
Defined.

(** The ["best_score"] of [get_statistics] is the score of the variant
    that [get_best_agent] returns. *)
Theorem best_score_is_best_agent (db : DB) (best : Agent) :
  get_best_agent db = Some best ->
  exists q, Py.get (get_statistics db) "best_score" = Some (Py.VFloat q)
            /\ (q == score best)%Q.
Proof.
  intros Hbest. eexists. split; [reflexivity|].
  fold (functional db).
  unfold get_best_agent, sql_limit in Hbest.
  change (1 <? 0) with false in Hbest. cbv iota in Hbest.
  fold (functional db) in Hbest.
  destruct (order_by_score_created_desc (functional db)) as [|b rest] eqn:E;
    [discriminate|].
  simpl in Hbest. injection Hbest as ->.
  destruct (ranked_head_dominates _ _ _ E) as [Hin Hdom].
  destruct (map score (functional db)) as [|x t] eqn:Es.
  - destruct (functional db); [contradiction | discriminate].
  - cbn [sql_max]. rewrite or_zero_some.
    destruct (fold_qmax_spec t x) as (Hx & Hall & Hmem).
    set (m := fold_left qmax t x) in *.
    assert (Hscores : forall s, In s (x :: t) -> (s <= m)%Q).
    { intros s [<-|Hs]; [exact Hx|].
      rewrite Forall_forall in Hall. now apply Hall. }
    assert (Hm : In m (x :: t)) by (destruct Hmem as [->|Hm]; [now left | now right]).
    rewrite <- Es in Hscores, Hm.
    apply Qle_antisym.
    + apply in_map_iff in Hm as (a & <- & Ha).
      specialize (Hdom a Ha).
      apply ranks_before_iff in Hdom as [Hlt|[Heq _]].
      * now apply Qlt_le_weak.
      * rewrite Heq. apply Qle_refl.
    + apply Hscores. now apply in_map.
Qed.

(** The hypothesis of [best_score_is_best_agent] is met. *)
Lemma best_score_is_best_agent_witness :
  let best := mkAgent 2 "v2" (5 # 10) 200 (Some 1) "b" "{}" true in
  let db := mkDB [ mkAgent 1 "v1" (1 # 10) 100 None "a" "{}" true; best;
                   mkAgent 3 "v3" (9 # 10) 300 (Some 2) "c" "{}" false ] 3 in
  get_best_agent db = Some best
  /\ exists q, Py.get (get_statistics db) "best_score" = Some (Py.VFloat q)
               /\ (q == 5 # 10)%Q.
Proof.
  intros best db.
  assert (H : get_best_agent db = Some best) by reflexivity.
  split; [exact H|]. exact (best_score_is_best_agent db best H).
Defined.
End ArchiveComposition.

Section TwoSorts.
Import Archive Ranking Spec.

Let by_created (x y : Agent) : bool := created_at y <=? created_at x.
Let by_score (x y : Agent) : bool := Qle_bool (score y) (score x).

(** In front of rows that are no newer, ranking by score alone and
    ranking by score and creation time agree. *)
Lemma by_score_ranks_before (x z : Agent) :
  created_at z <= created_at x -> by_score x z = ranks_before x z.
Proof.
  intros Hc. unfold by_score.
  destruct (ranks_before x z) eqn:E.
  - apply ranks_before_iff in E as [Hlt|[Heq _]]; apply Qle_bool_iff.
    + now apply Qlt_le_weak.
    + rewrite Heq. apply Qle_refl.
  - destruct (Qle_bool (score z) (score x)) eqn:Eq; [|reflexivity].
    apply Qle_bool_iff in Eq.
    assert (Hr : ranks_before x z = true).
    { apply ranks_before_iff.
      destruct (Qle_lt_or_eq _ _ Eq) as [Hlt|Heq]; [now left|].
      right. split; [now symmetry | exact Hc]. }
    congruence.
Qed.

Lemma insert_by_score (x : Agent) (s : list Agent) :
  Forall (fun z => created_at z <= created_at x) s ->
  Py.insert by_score x s = Py.insert ranks_before x s.
Proof.
  induction 1 as [|z s Hz _ IH]; simpl; [reflexivity|].
  rewrite (by_score_ranks_before x z Hz), IH. reflexivity.
Qed.

(** Two insertions commute when one row ranks strictly before the
    other. *)
Lemma insert_ranked_comm_lt (x y : Agent) (s : list Agent) :
  ranks_before x y = true -> ranks_before y x = false ->
  Py.insert ranks_before y (Py.insert ranks_before x s)
  = Py.insert ranks_before x (Py.insert ranks_before y s).
Proof.
  intros Hxy Hyx. induction s as [|z t IH]; simpl.
  - now rewrite Hxy, Hyx.
  - destruct (ranks_before x z) eqn:Exz.
    + simpl. rewrite Hyx.
      destruct (ranks_before y z) eqn:Eyz; simpl.
      * now rewrite Hxy.
      * now rewrite Exz.
    + assert (Eyz : ranks_before y z = false).
      { destruct (ranks_before y z) eqn:Eyz; [|reflexivity].
        rewrite (ranks_before_trans _ _ _ Hxy Eyz) in Exz. discriminate. }
      rewrite Eyz. simpl. rewrite Eyz, Exz, IH. reflexivity.
Qed.

Lemma insert_ranked_comm (x y : Agent) (s : list Agent) :
  created_at x < created_at y ->
  Py.insert ranks_before y (Py.insert ranks_before x s)
  = Py.insert ranks_before x (Py.insert ranks_before y s).
Proof.
  intros Hc.
  destruct (ranks_before x y) eqn:Exy.
  - apply insert_ranked_comm_lt; [exact Exy|].
    destruct (ranks_before y x) eqn:Eyx; [|reflexivity].
    apply ranks_before_iff in Exy as [H1|[H1 H1']]; [|lia].
    apply ranks_before_iff in Eyx as [H2|[H2 _]].
    + exfalso. exact (Qlt_irrefl _ (Qlt_trans _ _ _ H1 H2)).
    + rewrite H2 in H1. exfalso. exact (Qlt_irrefl _ H1).
  - symmetry. apply insert_ranked_comm_lt; [|exact Exy].
    now apply ranks_before_total.
Qed.

Lemma forall_sort {P : Agent -> Prop} (before : Agent -> Agent -> bool)
    (l : list Agent) :
  Forall P l -> Forall P (Py.sort before l).
Proof. apply Permutation_Forall, sort_perm. Qed.

Lemma forall_insert {P : Agent -> Prop} (before : Agent -> Agent -> bool)
    (x : Agent) (l : list Agent) :
  P x -> Forall P l -> Forall P (Py.insert before x l).
Proof.
  intros Hx Hl. apply (Permutation_Forall (insert_perm before x l)).
  now constructor.
Qed.

(** Sorting by score a list that is sorted by creation time, or ranking
    an insertion into it, comes to the same. *)
Lemma sort_insert_by_created (x : Agent) (m : list Agent) :
  StronglySorted (fun a b => by_created a b = true) m ->
  Py.sort by_score (Py.insert by_created x m)
  = Py.insert ranks_before x (Py.sort by_score m).
Proof.
  induction 1 as [|y t Hs IH Hall]; [reflexivity|].
  assert (Ht : Forall (fun z => created_at z <= created_at y) t).
  { eapply Forall_impl; [|exact Hall]. intros z Hz.
    unfold by_created in Hz. now apply Z.leb_le. }
  cbn [Py.insert]. destruct (by_created x y) eqn:Exy.
  - unfold by_created in Exy. apply Z.leb_le in Exy.
    change (Py.sort by_score (x :: y :: t))
      with (Py.insert by_score x (Py.sort by_score (y :: t))).
    apply insert_by_score. apply forall_sort.
    constructor; [exact Exy|].
    eapply Forall_impl; [|exact Ht]. intros z Hz. simpl in Hz. lia.
  - unfold by_created in Exy. apply Z.leb_gt in Exy.
    change (Py.sort by_score (y :: Py.insert by_created x t))
      with (Py.insert by_score y (Py.sort by_score (Py.insert by_created x t))).
    change (Py.sort by_score (y :: t))
      with (Py.insert by_score y (Py.sort by_score t)).
    rewrite IH.
    rewrite insert_by_score
      by (apply forall_insert; [lia | now apply forall_sort]).
    rewrite (insert_by_score y (Py.sort by_score t))
      by now apply forall_sort.
    now apply insert_ranked_comm.
Qed.

Lemma sort_by_created_then_score (l : list Agent) :
  Py.sort by_score (Py.sort by_created l) = Py.sort ranks_before l.
Proof.
  induction l as [|x l IH]; [reflexivity|].
  change (Py.sort by_created (x :: l))
    with (Py.insert by_created x (Py.sort by_created l)).
  rewrite sort_insert_by_created.
  - rewrite IH. reflexivity.
  - apply sort_strongly_sorted.
    + intros a b H. unfold by_created in *.
      apply Z.leb_gt in H. apply Z.leb_le. lia.
    + intros a b c H1 H2. unfold by_created in *.
      apply Z.leb_le in H1, H2. apply Z.leb_le. lia.
Qed.

(** When at least [k >= 1] functional variants exist and no two of
    them tie in both score and creation time, [select_parents k] and
    [get_top_agents k] return the same list: the stable sort by score
    of a list that arrives newest first breaks ties between equal
    scores by recency, as [ORDER BY score DESC, created_at DESC] does.
    (Rows that tie on every key of an ORDER BY come in an order the
    query does not fix; the statement is about the archives where no
    such rows exist.) *)
Theorem select_parents_is_get_top_agents (db : DB) (k : Z) :
  no_full_ties db ->
  1 <= k <= Z.of_nat (length (functional db)) ->
  select_parents db k = get_top_agents db k.
Proof.
  intros _ Hk.
  pose proof (get_all_agents_functional_length db) as Hlen.
  unfold select_parents, get_top_agents, sql_limit.
  destruct (get_all_agents db true) as [|a fa] eqn:E;
    [simpl in Hlen; lia|].
  rewrite <- E in *. clear E a fa.
  destruct (Z.of_nat (length (get_all_agents db true)) <? k) eqn:Elt;
    [apply Z.ltb_lt in Elt; lia|].
  destruct (k <? 0) eqn:Ek; [apply Z.ltb_lt in Ek; lia|].
  rewrite slice_prefix
    by (unfold Py.sorted_desc; rewrite sort_length; lia).
  f_equal. apply sort_by_created_then_score.
Qed.

(** The hypotheses of [select_parents_is_get_top_agents] are met; two
    of the three variants share the top score. *)
Lemma select_parents_is_get_top_agents_witness :
  let db := mkDB [ mkAgent 1 "v1" (5 # 10) 100 None "a" "{}" true;
                   mkAgent 2 "v2" (1 # 2) 200 (Some 1) "b" "{}" true;
                   mkAgent 3 "v3" (1 # 10) 300 (Some 2) "c" "{}" true ] 3 in
  no_full_ties db
  /\ 1 <= 2 <= Z.of_nat (length (functional db))
  /\ map id (get_top_agents db 2) = [2; 1]
  /\ select_parents db 2 = get_top_agents db 2.
Proof.
  intros db.
  assert (Hties : no_full_ties db).
  { intros a b Ha Hb _ _ _ Hat.
    simpl in Ha, Hb.
    destruct Ha as [<-|[<-|[<-|[]]]]; destruct Hb as [<-|[<-|[<-|[]]]];
      first [reflexivity | discriminate Hat]. }
  assert (Hk : 1 <= 2 <= Z.of_nat (length (functional db))) by (simpl; lia).
  split; [exact Hties|]. split; [exact Hk|]. split; [reflexivity|].
  exact (select_parents_is_get_top_agents db 2 Hties Hk).
Defined.
End TwoSorts.


(* ===================================================================== *)
(** * swe_bench_loader.py: sandboxes, tests and verdicts *)
(* ===================================================================== *)

Section SandboxSetup.
Import World Loader Spec.
Context {L : Type}.

Lemma exists_dir_head (dir : string) (dirs : list string) :
  exists_dir dir (dir :: dirs) = true.
Proof. unfold exists_dir. simpl. now rewrite String.eqb_refl. Qed.

Lemma remove_dir_absent (dir : string) (dirs : list string) :
  exists_dir dir dirs = false -> remove_dir dir dirs = dirs.
Proof.
  unfold exists_dir, remove_dir.
  induction dirs as [|d dirs IH]; simpl; [reflexivity|].
  intros H. apply orb_false_iff in H as [Hd Hrest].
  rewrite Hd. simpl. now rewrite IH.
Qed.

Lemma exists_dir_removed (dir : string) (dirs : list string) :
  exists_dir dir (remove_dir dir dirs) = false.
Proof.
  unfold exists_dir, remove_dir.
  apply not_true_is_false. intros H.
  apply existsb_exists in H as (d & Hin & Hd).
  apply filter_In in Hin as [_ Hneq]. rewrite Hd in Hneq. discriminate.
Qed.

Lemma setup_repository_ok (env : Env) (instance : Instance)
    (st st' : State L) (dir : string) :
  setup_repository env instance st = (Ok dir, st') ->
  dir = repo_dir_of instance /\ exists_dir dir (fs st') = true.
Proof.
  unfold setup_repository. intros H.
  apply bind_inv in H as [(? & s1 & _ & H)|(? & _ & ?)]; [|discriminate].
  apply bind_inv in H as [(? & s2 & _ & H)|(? & _ & ?)]; [|discriminate].
  apply bind_inv in H as [(? & s3 & _ & H)|(? & _ & ?)]; [|discriminate].
  apply bind_inv in H as [(result & s4 & Hclone & H)|(? & _ & ?)];
    [|discriminate].
  destruct (returncode result =? 0) eqn:Erc; [|discriminate].
  cbn [negb] in H.
  apply bind_inv in H as [(? & s5 & Hco & H)|(? & _ & ?)]; [|discriminate].
  injection H as <- <-. split; [reflexivity|].
  unfold subprocess_run in Hco. injection Hco as _ <-.
  unfold subprocess_run_clone in Hclone.
  destruct (proc env (log s3) (clone_cmd instance)) as [r|e];
    [|discriminate].
  destruct ((returncode r =? 0) || leftover env (log s3) (repo_dir_of instance))
    eqn:Er.
  - injection Hclone as _ <-. cbn [fs log_event]. apply exists_dir_head.
  - injection Hclone as -> _. rewrite Erc in Er. discriminate.
Qed.

(** Whenever [setup_repository] returns, it returns the sandbox path of
    the instance, and the sandbox directory exists. *)
Theorem setup_repository_leaves_sandbox (env : Env) (instance : Instance)
    (st st' : State L) (dir : string) :
  setup_repository env instance st = (Ok dir, st') ->
  dir = repo_dir_of instance /\ exists_dir dir (fs st') = true.
Proof. apply setup_repository_ok. Qed.

(** In a world without file-system faults where the clone exits with
    status 0 and the checkout completes with whatever status,
    [setup_repository] returns the sandbox path, and the sandbox is the
    only change to the directories: a sandbox left over from an earlier
    run of the instance is replaced. A failed checkout is not an error. *)
Theorem setup_repository_ignores_checkout_status (env : Env)
    (instance : Instance) (st : State L) (cloned : CompletedProcess) :
  (forall lg e, fault env lg e = None) ->
  (forall lg, proc env lg (clone_cmd instance) = Ok cloned) ->
  returncode cloned = 0 ->
  (forall lg, exists r, proc env lg (checkout_cmd instance) = Ok r) ->
  exists st',
    setup_repository env instance st = (Ok (repo_dir_of instance), st')
    /\ fs st' = repo_dir_of instance
                :: remove_dir (repo_dir_of instance) (fs st)
    /\ locals st' = locals st.
Proof.
  intros Hfault Hclone Hrc Hcheckout.
  unfold setup_repository, bind, mkdir_exist_ok, path_exists.
  rewrite Hfault. cbn [fs log locals log_event].
  destruct (exists_dir (repo_dir_of instance) (fs st)) eqn:Edir.
  - unfold rmtree. rewrite Hfault. cbn [fs log locals log_event].
    rewrite Edir. unfold subprocess_run_clone.
    cbn [fs log locals log_event]. rewrite Hclone, Hrc. cbn [Z.eqb negb orb].
    cbv beta. rewrite ?Hrc. cbn [Z.eqb negb orb].
    unfold subprocess_run. cbn [fs log locals log_event].
    match goal with
    | |- context [proc env ?lg (checkout_cmd instance)] =>
        destruct (Hcheckout lg) as [r Hr]; rewrite Hr
    end.
    eexists. split; [reflexivity|]. split; reflexivity.
  - unfold ret at 1. unfold subprocess_run_clone.
    cbn [fs log locals log_event]. rewrite Hclone, Hrc. cbn [Z.eqb negb orb].
    cbv beta. rewrite ?Hrc. cbn [Z.eqb negb orb].
    unfold subprocess_run. cbn [fs log locals log_event].
    match goal with
    | |- context [proc env ?lg (checkout_cmd instance)] =>
        destruct (Hcheckout lg) as [r Hr]; rewrite Hr
    end.
    eexists. split; [reflexivity|]. cbn [fs locals].
    split; [now rewrite remove_dir_absent | reflexivity].
Qed.

(** In a world without file-system faults where the clone exits with a
    non-zero status, [setup_repository] raises "Failed to clone
    repository: " followed by git's error output and the checkout is
    not attempted. A sandbox left over from an earlier run of the
    instance was removed before the clone. [setup_repository] removes
    nothing after the failure: the sandbox exists afterwards exactly
    when the failed clone left it behind. *)
Theorem setup_repository_clone_failure (env : Env) (instance : Instance)
    (st : State L) (cloned : CompletedProcess) :
  (forall lg e, fault env lg e = None) ->
  (forall lg, proc env lg (clone_cmd instance) = Ok cloned) ->
  returncode cloned <> 0 ->
  exists st',
    setup_repository env instance st
      = (Raise ("Failed to clone repository: " ++ stderr cloned), st')
    /\ ~ In (EvRun (checkout_cmd instance))
            (skipn (length (log st)) (log st'))
    /\ (exists_dir (repo_dir_of instance) (fs st) = true ->
          In (EvRmtree (repo_dir_of instance))
             (skipn (length (log st)) (log st')))
    /\ (forall left_behind : bool,
          (forall lg, leftover env lg (repo_dir_of instance) = left_behind) ->
          exists_dir (repo_dir_of instance) (fs st') = left_behind).
Proof.
  intros Hfault Hclone Hrc.
  apply Z.eqb_neq in Hrc.
  unfold setup_repository, bind, mkdir_exist_ok, path_exists.
  rewrite Hfault. cbn [fs log locals log_event].
  destruct (exists_dir (repo_dir_of instance) (fs st)) eqn:Edir.
  - unfold rmtree. rewrite Hfault. cbn [fs log locals log_event].
    rewrite Edir. unfold subprocess_run_clone.
    cbn [fs log locals log_event]. rewrite Hclone, Hrc. cbn [negb orb].
    match goal with
    | |- context [leftover env ?lg ?d] => destruct (leftover env lg d) eqn:El
    end;
      cbv beta; rewrite ?Hrc; cbn [negb]; unfold raise;
      (eexists; split; [reflexivity|]);
      unfold log_event; cbn [fs log locals];
      (split; [|split]).
    + rewrite <- !app_assoc, skipn_app, skipn_all, Nat.sub_diag. cbn.
      intros [H|[H|[H|[]]]]; discriminate.
    + intros _.
      rewrite <- !app_assoc, skipn_app, skipn_all, Nat.sub_diag. cbn.
      right. now left.
    + intros b Hb. rewrite Hb in El. subst b. apply exists_dir_head.
    + rewrite <- !app_assoc, skipn_app, skipn_all, Nat.sub_diag. cbn.
      intros [H|[H|[H|[]]]]; discriminate.
    + intros _.
      rewrite <- !app_assoc, skipn_app, skipn_all, Nat.sub_diag. cbn.
      right. now left.
    + intros b Hb. rewrite Hb in El. subst b. apply exists_dir_removed.
  - unfold ret at 1. unfold subprocess_run_clone.
    cbn [fs log locals log_event]. rewrite Hclone, Hrc. cbn [negb orb].
    match goal with
    | |- context [leftover env ?lg ?d] => destruct (leftover env lg d) eqn:El
    end;
      cbv beta; rewrite ?Hrc; cbn [negb]; unfold raise;
      (eexists; split; [reflexivity|]);
      unfold log_event; cbn [fs log locals];
      (split; [|split]).
    + rewrite <- !app_assoc, skipn_app, skipn_all, Nat.sub_diag. cbn.
      intros [H|[H|[]]]; discriminate.
    + discriminate.
    + intros b Hb. rewrite Hb in El. subst b. apply exists_dir_head.
    + rewrite <- !app_assoc, skipn_app, skipn_all, Nat.sub_diag. cbn.
      intros [H|[H|[]]]; discriminate.
    + discriminate.
    + intros b Hb. rewrite Hb in El. subst b. exact Edir.
Qed.
End SandboxSetup.

Section SandboxSetupExamples.
Import World Loader Spec Scenario.

(** A successful setup. *)
Lemma setup_repository_leaves_sandbox_witness :
  let env := mkEnv calm_proc steady_agent no_fault (fun _ => 0%Q) no_leftover in
  let st := mkState (L := unit) [] [] tt in
  exists st',
    setup_repository env i1 st = (Ok (repo_dir_of i1), st')
    /\ exists_dir (repo_dir_of i1) (fs st') = true.
Proof.
  intros env st. eexists.
  assert (H : setup_repository env i1 st
              = (Ok (repo_dir_of i1), snd (setup_repository env i1 st)))
    by reflexivity.
  split; [exact H|].
  apply (setup_repository_leaves_sandbox env i1 st _ _ H).
Defined.

(** The clone succeeds, the checkout fails, and a sandbox of the same
    instance is left over from an earlier run. *)
Lemma setup_repository_ignores_checkout_status_witness :
  let proc (_ : list Event) (cmd : string) :=
    if String.eqb cmd (checkout_cmd i1)
    then Ok (mkProc 1 EmptyString "fatal: reference is not a tree: c1")
    else Ok (mkProc 0 EmptyString EmptyString) in
  let env := mkEnv proc steady_agent no_fault (fun _ => 0%Q) no_leftover in
  let st := mkState (L := unit) [repo_dir_of i1; repo_dir_of i2] [] tt in
  exists st',
    setup_repository env i1 st = (Ok (repo_dir_of i1), st')
    /\ fs st' = [repo_dir_of i1; repo_dir_of i2].
Proof.
  intros proc env st.
  destruct (setup_repository_ignores_checkout_status env i1 st
              (mkProc 0 EmptyString EmptyString))
    as (st' & Hrun & Hfs & _).
  - reflexivity.
  - reflexivity.
  - reflexivity.
  - intros lg. eexists. reflexivity.
  - exists st'. split; [exact Hrun|]. rewrite Hfs. reflexivity.
Defined.

(** The clone fails after it created the directory: git exits with
    status 128 and leaves the work tree behind. *)
Lemma setup_repository_clone_failure_witness :
  let proc (_ : list Event) (_ : string) :=
    Ok (mkProc 128 EmptyString
          "warning: Clone succeeded, but checkout failed.") in
  let env := mkEnv proc steady_agent no_fault (fun _ => 0%Q)
                   (fun _ _ => true) in
  let st := mkState (L := unit) [repo_dir_of i1] [] tt in
  exists st',
    setup_repository env i1 st
      = (Raise ("Failed to clone repository: "
                ++ "warning: Clone succeeded, but checkout failed."), st')
    /\ In (EvRmtree (repo_dir_of i1)) (log st')
    /\ exists_dir (repo_dir_of i1) (fs st') = true.
Proof.
  intros proc env st.
  destruct (setup_repository_clone_failure env i1 st
              (mkProc 128 EmptyString
                 "warning: Clone succeeded, but checkout failed."))
    as (st' & Hrun & _ & Hrm & Hleft).
  - reflexivity.
  - reflexivity.
  - discriminate.
  - exists st'. split; [exact Hrun|]. split.
    + apply Hrm. reflexivity.
    + apply Hleft. reflexivity.
Defined.
End SandboxSetupExamples.


Section Verdicts.
Import World Loader Spec.
Context {L : Type} (env : Env).

Lemma write_text_fs (dir name content : string) (st st' : State L)
    (r : Res unit) :
  write_text env dir name content st = (r, st') -> fs st' = fs st.
Proof.
  unfold write_text.
  destruct (fault env (log st) _); [|destruct (exists_dir dir (fs st))];
    intros H; injection H as _ <-; reflexivity.
Qed.

(** What [run_tests] can do. *)
Lemma run_tests_outcome (repo_dir : string) (instance : Instance)
    (st : State L) :
  exists t st',
    run_tests env repo_dir instance st = (Ok t, st')
    /\ fs st' = fs st
    /\ (passed t = true ->
          (exists lg r, proc env lg (test_cmd repo_dir) = Ok r
                        /\ returncode r = 0)
          /\ In (EvRun (test_cmd repo_dir)) (log st')
          /\ test_patch instance <> EmptyString)
    /\ (test_patch instance = EmptyString ->
          st' = st /\ passed t = false
          /\ t_reason t = Some "No test patch available").
Proof.
  unfold run_tests.
  destruct (String.eqb (test_patch instance) EmptyString) eqn:Epatch.
  - eexists _, st. split; [reflexivity|]. split; [reflexivity|].
    split; [discriminate|]. intros _. now repeat split.
  - apply String.eqb_neq in Epatch.
    assert (Hempty : forall (t : TestResult) (s : State L),
              test_patch instance = EmptyString ->
              s = st /\ passed t = false
              /\ t_reason t = Some "No test patch available")
      by (intros t s H; contradiction).
    unfold try_catch, bind.
    destruct (write_text env repo_dir "test_patch.patch"
                (test_patch instance) st) as [[[]|e] s1] eqn:Ew.
    2:{ eexists _, s1. split; [reflexivity|].
        split; [exact (write_text_fs _ _ _ _ _ _ Ew)|].
        split; [discriminate | apply Hempty]. }
    assert (Hfs1 : fs s1 = fs st) by exact (write_text_fs _ _ _ _ _ _ Ew).
    unfold subprocess_run at 1.
    destruct (proc env (log s1) (apply_test_cmd repo_dir)) as [r|e] eqn:Ea.
    2:{ eexists _, _. split; [reflexivity|]. split; [exact Hfs1|].
        split; [discriminate | apply Hempty]. }
    destruct (negb (returncode r =? 0)) eqn:Erc.
    { eexists _, _. split; [reflexivity|]. split; [exact Hfs1|].
      split; [discriminate | apply Hempty]. }
    unfold subprocess_run.
    destruct (proc env (log (log_event (EvRun (apply_test_cmd repo_dir)) s1))
                (test_cmd repo_dir)) as [r2|e] eqn:Et.
    2:{ eexists _, _. split; [reflexivity|]. split; [exact Hfs1|].
        split; [discriminate | apply Hempty]. }
    eexists _, _. split; [reflexivity|]. split; [exact Hfs1|].
    split; [|apply Hempty].
    cbn [passed]. intros Hpass. apply Z.eqb_eq in Hpass.
    split; [eexists _, r2; split; [exact Et | exact Hpass]|].
    split; [|exact Epatch].
    unfold log_event. cbn [log]. apply in_or_app. right. now left.
Qed.

(** [run_tests] never raises, and it reports a pass only after it ran
    the test command and the command exited with status 0. An instance
    without a test patch is reported as not passed, with the reason "No
    test patch available", before anything is written or run. *)
Theorem run_tests_pass_needs_pytest (repo_dir : string)
    (instance : Instance) (st : State L) :
  exists t st',
    run_tests env repo_dir instance st = (Ok t, st')
    /\ (passed t = true ->
          (exists lg r, proc env lg (test_cmd repo_dir) = Ok r
                        /\ returncode r = 0)
          /\ In (EvRun (test_cmd repo_dir)) (log st'))
    /\ (test_patch instance = EmptyString ->
          st' = st /\ passed t = false
          /\ t_reason t = Some "No test patch available").
Proof.
  destruct (run_tests_outcome repo_dir instance st)
    as (t & st' & Hrun & _ & Hpass & Hempty).
  exists t, st'. split; [exact Hrun|]. split; [|exact Hempty].
  intros H. destruct (Hpass H) as (H1 & H2 & _). now split.
Qed.

(** [evaluate_patch] never raises. Its score is 1.0 when it reports
    success and 0.0 otherwise, and it reports success only when the
    agent's patch applied with status 0, the instance has a test patch,
    and the test command ran and exited with status 0. It leaves the set
    of sandbox directories as it found it. *)
Theorem evaluate_patch_verdict (repo_dir patch : string)
    (instance : Instance) (st : State L) :
  exists ev st',
    evaluate_patch env repo_dir patch instance st = (Ok ev, st')
    /\ score ev = (if success ev then 1%Q else 0%Q)
    /\ fs st' = fs st
    /\ (success ev = true ->
          (exists lg r, proc env lg (apply_cmd repo_dir) = Ok r
                        /\ returncode r = 0)
          /\ (exists lg r, proc env lg (test_cmd repo_dir) = Ok r
                           /\ returncode r = 0)
          /\ In (EvRun (test_cmd repo_dir)) (log st')
          /\ test_patch instance <> EmptyString).
Proof.
  unfold evaluate_patch, try_catch, bind.
  unfold subprocess_run at 1.
  destruct (proc env (log st) (reset_cmd repo_dir)) as [r0|e] eqn:Er.
  2:{ eexists _, _. split; [reflexivity|]. split; [reflexivity|].
      split; [reflexivity | discriminate]. }
  set (s1 := log_event (EvRun (reset_cmd repo_dir)) st).
  destruct (write_text env repo_dir "agent_patch.patch" patch s1)
    as [[[]|e] s2] eqn:Ew.
  2:{ eexists _, s2. split; [reflexivity|]. split; [reflexivity|].
      split; [exact (write_text_fs _ _ _ _ _ _ Ew) | discriminate]. }
  assert (Hfs2 : fs s2 = fs st) by exact (write_text_fs _ _ _ _ _ _ Ew).
  unfold subprocess_run at 1.
  destruct (proc env (log s2) (apply_cmd repo_dir)) as [r|e] eqn:Ea.
  2:{ eexists _, _. split; [reflexivity|]. split; [reflexivity|].
      split; [exact Hfs2 | discriminate]. }
  destruct (returncode r =? 0) eqn:Erc; cbn [negb].
  2:{ eexists _, _. split; [reflexivity|]. split; [reflexivity|].
      split; [exact Hfs2 | discriminate]. }
  destruct (run_tests_outcome repo_dir instance
              (log_event (EvRun (apply_cmd repo_dir)) s2))
    as (t & s3 & Hrun & Hfs3 & Hpass & _).
  rewrite Hrun. eexists _, s3. split; [reflexivity|].
  cbn [score success]. split; [reflexivity|].
  split; [rewrite Hfs3; exact Hfs2|].
  intros Hp. destruct (Hpass Hp) as (Ht & Hin & Hne).
  split; [|now repeat split].
  apply Z.eqb_eq in Erc. eexists _, r. split; [exact Ea | exact Erc].
Qed.
End Verdicts.

Section VerdictExamples.
Import World Loader Spec Scenario.

(** A passing run of the tests, and an instance without a test patch. *)
Lemma run_tests_pass_needs_pytest_witness :
  let env := mkEnv calm_proc steady_agent no_fault (fun _ => 0%Q) no_leftover in
  let st := mkState (L := unit) [repo_dir_of i1] [] tt in
  let bare := mkInstance "i3" "org/three" "c3" "p3" EmptyString in
  (exists t st',
      run_tests env (repo_dir_of i1) i1 st = (Ok t, st')
      /\ passed t = true
      /\ In (EvRun (test_cmd (repo_dir_of i1))) (log st'))
  /\ exists t,
       run_tests env (repo_dir_of i1) bare st = (Ok t, st)
       /\ passed t = false.
Proof.
  intros env st bare. split.
  - destruct (run_tests_pass_needs_pytest env (repo_dir_of i1) i1 st)
      as (t & st' & Hrun & Hpass & _).
    exists t, st'. split; [exact Hrun|].
    assert (Hp : passed t = true).
    { assert (E : run_tests env (repo_dir_of i1) i1 st
                  = (Ok (mkTestResult true None (Some EmptyString)
                           (Some EmptyString) (Some 0)),
                     snd (run_tests env (repo_dir_of i1) i1 st)))
        by reflexivity.
      rewrite E in Hrun. now injection Hrun as <- _. }
    split; [exact Hp|]. now apply Hpass.
  - destruct (run_tests_pass_needs_pytest env (repo_dir_of i1) bare st)
      as (t & st' & Hrun & _ & Hempty).
    destruct (Hempty eq_refl) as (-> & Hp & _).
    exists t. now split.
Defined.

(** A successful verdict. *)
Lemma evaluate_patch_verdict_witness :
  let env := mkEnv calm_proc steady_agent no_fault (fun _ => 0%Q) no_leftover in
  let st := mkState (L := unit) [repo_dir_of i1] [] tt in
  exists ev st',
    evaluate_patch env (repo_dir_of i1) patch_text i1 st = (Ok ev, st')
    /\ success ev = true /\ score ev = 1%Q
    /\ In (EvRun (test_cmd (repo_dir_of i1))) (log st').
Proof.
  intros env st.
  destruct (evaluate_patch_verdict env (repo_dir_of i1) patch_text i1 st)
    as (ev & st' & Hrun & Hscore & _ & Hsucc).
  exists ev, st'. split; [exact Hrun|].
  assert (Hs : success ev = true).
  { assert (E : fst (evaluate_patch env (repo_dir_of i1) patch_text i1 st)
                = Ok (mkEvaluation true "Tests completed" 1%Q
                        (Some EmptyString) (Some EmptyString)))
      by reflexivity.
    rewrite Hrun in E. cbn [fst] in E. now injection E as ->. }
  split; [exact Hs|]. split; [now rewrite Hscore, Hs|].
  now apply Hsucc.
Defined.
End VerdictExamples.


(* ===================================================================== *)
(** * evaluator.py: the strategies of the patch extraction *)
(* ===================================================================== *)

Section Lines.

Lemma split_lines_nonempty (s : string) : Py.split_lines s <> [].
Proof.
  destruct s as [|c s]; simpl; [discriminate|].
  destruct (Ascii.eqb c Py.newline); [discriminate|].
  destruct (Py.split_lines s); discriminate.
Qed.

(** Joining the lines of a text gives the text back. *)
Lemma join_split_lines (s : string) : Py.join_lines (Py.split_lines s) = s.
Proof.
  unfold Py.join_lines. induction s as [|c s IH]; [reflexivity|].
  pose proof (split_lines_nonempty s) as Hne.
  cbn [Py.split_lines].
  destruct (Py.split_lines s) as [|h t] eqn:E; [contradiction|].
  destruct (Ascii.eqb c Py.newline) eqn:Ec.
  - apply Ascii.eqb_eq in Ec. subst c.
    change (String.concat Py.nl (EmptyString :: h :: t))
      with (EmptyString ++ Py.nl ++ String.concat Py.nl (h :: t)).
    rewrite IH. reflexivity.
  - destruct t as [|h' t].
    + simpl in *. now rewrite IH.
    + change (String.concat Py.nl (String c h :: h' :: t))
        with (String c (h ++ Py.nl ++ String.concat Py.nl (h' :: t))).
      change (String.concat Py.nl (h :: h' :: t))
        with (h ++ Py.nl ++ String.concat Py.nl (h' :: t)) in IH.
      now rewrite IH.
Qed.

Lemma string_app_assoc (a b c : string) : (a ++ b) ++ c = a ++ b ++ c.
Proof. induction a as [|x a IH]; simpl; [reflexivity | now rewrite IH]. Qed.

Lemma join_lines_app (skipped kept : list string) :
  kept <> [] ->
  Py.join_lines (skipped ++ kept)
  = (match skipped with
     | [] => EmptyString
     | _ => Py.join_lines skipped ++ Py.nl
     end) ++ Py.join_lines kept.
Proof.
  intros Hne. unfold Py.join_lines.
  induction skipped as [|x skipped IH]; [reflexivity|].
  destruct skipped as [|y skipped].
  - simpl. destruct kept as [|k kept]; [contradiction|].
    now rewrite string_app_assoc.
  - change ((x :: y :: skipped) ++ kept)%list
      with (x :: ((y :: skipped) ++ kept))%list.
    change (String.concat Py.nl (x :: (y :: skipped) ++ kept)%list)
      with (x ++ Py.nl ++ String.concat Py.nl ((y :: skipped) ++ kept)%list).
    rewrite IH.
    change (String.concat Py.nl (x :: y :: skipped))
      with (x ++ Py.nl ++ String.concat Py.nl (y :: skipped)).
    now rewrite !string_app_assoc.
Qed.

Lemma prefix_append (p s t : string) :
  String.prefix p s = true -> String.prefix p (s ++ t) = true.
Proof.
  revert s. induction p as [|a p IH]; intros s H.
  - now destruct (s ++ t).
  - destruct s as [|b s]; [discriminate|].
    simpl in *. destruct (ascii_dec a b); [now apply IH | discriminate].
Qed.

Lemma startswith_join_lines (h : string) (t : list string) (p : string) :
  Py.startswith h p = true ->
  Py.startswith (Py.join_lines (h :: t)) p = true.
Proof.
  unfold Py.startswith, Py.join_lines. intros H.
  destruct t as [|x t]; [exact H|].
  cbn [String.concat]. now apply prefix_append.
Qed.
End Lines.

Section ExtractionStrategies.
Import World Loader Evaluator Spec.
Context {L : Type} (env : Env).

Lemma collect_diff_lines_all (lines : list string) :
  collect_diff_lines true lines = lines.
Proof.
  induction lines as [|l lines IH]; simpl; [reflexivity|].
  destruct (Py.startswith l "diff --git"); now rewrite IH.
Qed.

(** The loop of strategy 2 drops the lines in front of the first diff
    header and keeps everything from it on. *)
Lemma collect_diff_lines_split (lines : list string) :
  exists skipped,
    lines = (skipped ++ collect_diff_lines false lines)%list
    /\ Forall (fun l => Py.startswith l "diff --git" = false) skipped
    /\ match collect_diff_lines false lines with
       | [] => True
       | first :: _ => Py.startswith first "diff --git" = true
       end.
Proof.
  induction lines as [|l lines IH]; simpl.
  - exists []. repeat split. constructor.
  - destruct (Py.startswith l "diff --git") eqn:E.
    + exists []. rewrite collect_diff_lines_all.
      split; [reflexivity|]. split; [constructor | exact E].
    + destruct IH as (skipped & Hl & Hs & Hf).
      exists (l :: skipped). split; [simpl; now rewrite <- Hl|].
      split; [now constructor | exact Hf].
Qed.

(** Strategy 2. When the text has no run of six back-quotes and one of
    its lines starts with "diff --git", the result is the text from the
    first such line to the end, and nothing outside the Python process
    is called. *)
Theorem extract_patch_from_diff_header (solution repo_dir : string)
    (st : State L) (line : string) :
  Py.findall_literal diff_pattern 0 solution = [] ->
  In line (Py.split_lines solution) ->
  Py.startswith line "diff --git" = true ->
  exists (skipped : list string) (before patch : string),
    extract_patch_from_solution env solution repo_dir st = (Ok patch, st)
    /\ solution = before ++ patch
    /\ Py.startswith patch "diff --git" = true
    /\ before = Py.join_lines skipped
                ++ (match skipped with [] => EmptyString | _ => Py.nl end)
    /\ Forall (fun l => Py.startswith l "diff --git" = false) skipped.
Proof.
  intros Hfind Hin Hline.
  destruct (collect_diff_lines_split (Py.split_lines solution))
    as (skipped & Hsplit & Hskipped & Hfirst).
  destruct (collect_diff_lines false (Py.split_lines solution))
    as [|first rest] eqn:Ec.
  - exfalso. rewrite app_nil_r in Hsplit. rewrite <- Hsplit in Hskipped.
    rewrite Forall_forall in Hskipped. specialize (Hskipped line Hin).
    congruence.
  - exists skipped,
      (Py.join_lines skipped
       ++ (match skipped with [] => EmptyString | _ => Py.nl end)),
      (Py.join_lines (first :: rest)).
    split; [|split; [|split; [|split]]].
    + unfold extract_patch_from_solution, try_catch, extract_patch_body.
      rewrite Hfind, Ec. reflexivity.
    + rewrite <- (join_split_lines solution) at 1. rewrite Hsplit.
      rewrite join_lines_app by discriminate.
      destruct skipped; [reflexivity|].
      unfold Py.join_lines. reflexivity.
    + now apply startswith_join_lines.
    + reflexivity.
    + exact Hskipped.
Qed.

(** Nothing to extract. When the text has no run of six back-quotes and
    no line that starts with "diff --git", and both [git diff] and
    [git status --porcelain] print nothing but white space, the result
    is the empty string; the two queries are the only calls, so nothing
    is staged. *)
Theorem extract_patch_nothing_found (solution repo_dir : string)
    (st : State L) (diffed status : CompletedProcess) :
  Py.findall_literal diff_pattern 0 solution = [] ->
  Forall (fun l => Py.startswith l "diff --git" = false)
         (Py.split_lines solution) ->
  proc env (log st) (git_diff_cmd repo_dir) = Ok diffed ->
  Py.strip_nonempty (stdout diffed) = false ->
  proc env (log st ++ [EvRun (git_diff_cmd repo_dir)])%list
       (git_status_cmd repo_dir) = Ok status ->
  Py.strip_nonempty (stdout status) = false ->
  extract_patch_from_solution env solution repo_dir st
    = (Ok EmptyString,
       mkState (fs st)
               (log st ++ [EvRun (git_diff_cmd repo_dir);
                           EvRun (git_status_cmd repo_dir)])%list
               (locals st)).
Proof.
  intros Hfind Hlines Hdiff Hblank Hstatus Hclean.
  assert (Hc : collect_diff_lines false (Py.split_lines solution) = []).
  { destruct (collect_diff_lines_split (Py.split_lines solution))
      as (skipped & Hsplit & _ & Hfirst).
    destruct (collect_diff_lines false (Py.split_lines solution))
      as [|first rest]; [reflexivity|].
    rewrite Forall_forall in Hlines.
    rewrite Hlines in Hfirst; [discriminate|].
    rewrite Hsplit. apply in_or_app. right. now left. }
  unfold extract_patch_from_solution, try_catch, extract_patch_body.
  rewrite Hfind, Hc. unfold bind.
  unfold subprocess_run at 1. rewrite Hdiff, Hblank, andb_false_r.
  unfold subprocess_run at 1. unfold log_event. cbn [fs log locals].
  rewrite Hstatus, Hclean. unfold ret.
  now rewrite <- app_assoc.
Qed.
End ExtractionStrategies.

Section ExtractionExamples.
Import World Loader Evaluator Spec Scenario.

(** The hypotheses of [extract_patch_from_diff_header] are met by the
    answer of the example agent. *)
Lemma extract_patch_from_diff_header_witness :
  let env := mkEnv calm_proc steady_agent no_fault (fun _ => 0%Q) no_leftover in
  let st := mkState (L := unit) [] [] tt in
  Py.findall_literal diff_pattern 0 answer = []
  /\ In "diff --git a/f.py b/f.py" (Py.split_lines answer)
  /\ exists before,
       extract_patch_from_solution env answer "sandbox" st
         = (Ok patch_text, st)
       /\ answer = before ++ patch_text.
Proof.
  intros env st.
  assert (H1 : Py.findall_literal diff_pattern 0 answer = []) by reflexivity.
  assert (H2 : In "diff --git a/f.py b/f.py" (Py.split_lines answer))
    by (vm_compute; tauto).
  split; [exact H1|]. split; [exact H2|].
  destruct (extract_patch_from_diff_header env answer "sandbox" st _ H1 H2
              eq_refl)
    as (skipped & before & patch & Hrun & Hsol & _).
  assert (E : fst (extract_patch_from_solution env answer "sandbox" st)
              = Ok patch_text) by reflexivity.
  rewrite Hrun in E. cbn [fst] in E. injection E as ->.
  exists before. split; [exact Hrun | exact Hsol].
Defined.

(** The hypotheses of [extract_patch_nothing_found] are met. *)
Lemma extract_patch_nothing_found_witness :
  let env := mkEnv calm_proc steady_agent no_fault (fun _ => 0%Q) no_leftover in
  let st := mkState (L := unit) ["sandbox"] [] tt in
  extract_patch_from_solution env "I could not find the cause." "sandbox" st
    = (Ok EmptyString,
       mkState ["sandbox"]
               [EvRun (git_diff_cmd "sandbox");
                EvRun (git_status_cmd "sandbox")] tt).
Proof.
  intros env st.
  apply (extract_patch_nothing_found env "I could not find the cause."
           "sandbox" st (mkProc 0 EmptyString EmptyString)
           (mkProc 0 EmptyString EmptyString));
    try reflexivity.
  repeat constructor.
Defined.
End ExtractionExamples.


(* ===================================================================== *)
(** * evaluator.py: what a run adds up to *)
(* ===================================================================== *)

Section RunBounds.
Import World Loader Evaluator Spec.
Variable env : Env.

(** One iteration records one result, or two when the cleanup raised
    after the result was recorded, and at most one of them counts as a
    pass. *)
Lemma evaluate_task_counts (instances : list Instance) (i : nat)
    (instance : Instance) (st : State Frame) :
  nth_error instances i = Some instance ->
  exists st' new,
    evaluate_task env instances i st = (Ok tt, st')
    /\ grows_by new st st'
    /\ (1 <= length new <= 2)%nat
    /\ 0 <= successes new <= 1.
Proof.
  intros Hnth. unfold evaluate_task. rewrite Hnth.
  unfold bind at 1. unfold print_task at 1.
  set (st0 := log_event (EvTask i (instance_id instance)) st).
  unfold try_catch.
  destruct (task_body env instance st0) as [[[]|e] st1] eqn:Ebody;
    destruct (task_body_outcome _ _ _ _ _ Ebody) as [_ Hcases].
  - destruct Hcases as [(e & He & _)|(result & _ & Hl & _)];
      [discriminate|].
    exists st1, [result]. split; [reflexivity|].
    split; [|split; [simpl; lia|]].
    + unfold grows_by. rewrite Hl. unfold st0, log_event. cbn [locals].
      unfold successes. cbn [filter].
      destruct (r_success result); cbn [count_passed append_result passed
        results length]; split; try reflexivity; lia.
    + unfold successes. cbn [filter].
      destruct (r_success result); simpl; lia.
  - unfold modify_locals.
    destruct Hcases as [(e' & He & Hl)|(result & _ & Hl & _)].
    + exists (mkState (fs st1) (log st1)
                (append_result (exception_result instance e) (locals st1))),
             [exception_result instance e].
      split; [reflexivity|]. split; [|split; [simpl; lia|]].
      * unfold grows_by. cbn [locals]. rewrite Hl.
        unfold st0, log_event. cbn [locals append_result results passed].
        split; [reflexivity|]. unfold successes. simpl. lia.
      * unfold successes. simpl. lia.
    + exists (mkState (fs st1) (log st1)
                (append_result (exception_result instance e) (locals st1))),
             [result; exception_result instance e].
      split; [reflexivity|]. split; [|split; [simpl; lia|]].
      * unfold grows_by. cbn [locals]. rewrite Hl.
        unfold st0, log_event. cbn [locals].
        unfold successes. cbn [filter exception_result r_success].
        destruct (r_success result); cbn [count_passed append_result passed
          results length]; rewrite <- ?app_assoc; split; try reflexivity; lia.
      * unfold successes. cbn [filter exception_result r_success].
        destruct (r_success result); simpl; lia.
Qed.

Lemma for_each_counts (instances : list Instance) (idxs : list nat) :
  Forall (fun i => i < length instances)%nat idxs ->
  forall st,
  exists st' new,
    for_each idxs (evaluate_task env instances) st = (Ok tt, st')
    /\ grows_by new st st'
    /\ (length idxs <= length new <= 2 * length idxs)%nat
    /\ 0 <= successes new <= Z.of_nat (length idxs).
Proof.
  induction 1 as [|i idxs Hi _ IH]; intros st.
  - exists st, []. split; [reflexivity|].
    split; [|split; [simpl; lia | unfold successes; simpl; lia]].
    split; [now rewrite app_nil_r | unfold successes; simpl; lia].
  - destruct (nth_error instances i) as [instance|] eqn:Hnth;
      [|apply nth_error_None in Hnth; lia].
    destruct (evaluate_task_counts instances i instance st Hnth)
      as (st1 & new1 & Hrun1 & Hg1 & Hl1 & Hs1).
    destruct (IH st1) as (st2 & new2 & Hrun2 & Hg2 & Hl2 & Hs2).
    exists st2, (new1 ++ new2)%list.
    split; [|split; [|split]].
    + cbn [for_each]. unfold bind. now rewrite Hrun1.
    + eapply grows_by_trans; eassumption.
    + rewrite length_app. cbn [length]. lia.
    + rewrite successes_app. cbn [length]. lia.
Qed.

(** The score that [evaluate_agent] returns lies between 0 and 1. When
    instances are loaded, the run it appends to the history has a pass
    count between 0 and its task count, and between one and two results
    per task. *)
Theorem evaluate_agent_score_bounds (self : Evaluator) (requested : Z)
    (st : State Frame) :
  exists score self' st',
    evaluate_agent env self requested st = (Ok (score, self'), st')
    /\ (0 <= score <= 1)%Q
    /\ (current_instances self <> [] ->
        exists run,
          results_history self' = (results_history self ++ [run])%list
          /\ run_score run = score
          /\ 0 <= run_passed run <= Z.max 0 (num_tasks run)
          /\ (Z.to_nat (num_tasks run) <= length (run_results run)
              <= 2 * Z.to_nat (num_tasks run))%nat).
Proof.
  assert (Hcase : current_instances self = [] \/ current_instances self <> [])
    by (destruct (current_instances self); [left | right]; congruence).
  destruct Hcase as [Hnil|Hne].
  - exists 0%Q, self, st. split; [|split].
    + unfold evaluate_agent. now rewrite Hnil.
    + split; discriminate.
    + intros H. contradiction.
  - rewrite (evaluate_agent_nonempty env self requested Hne). cbv zeta.
    set (n := Z.min requested (Z.of_nat (length (current_instances self)))).
    set (st0 := mkState (fs st) (log st) (mkFrame 0 [])).
    assert (Hrange : Forall (fun i => i < length (current_instances self))%nat
                            (seq 0 (Z.to_nat n))).
    { apply Forall_forall. intros i Hi. apply in_seq in Hi. unfold n in *. lia. }
    destruct (for_each_counts (current_instances self) _ Hrange st0)
      as (st' & new & Hrun & [Hres Hpass] & Hlen & Hsucc).
    rewrite length_seq in Hlen, Hsucc.
    cbn [st0 locals passed results app] in Hres, Hpass.
    unfold bind at 1. unfold modify_locals at 1. fold st0.
    unfold bind at 1. rewrite Hrun.
    eexists _, _, st'. split; [reflexivity|].
    rewrite Hpass, Hres.
    split.
    + destruct (0 <? n) eqn:En; [|split; discriminate].
      apply Z.ltb_lt in En.
      assert (Hn : (inject_Z 0 < inject_Z n)%Q)
        by (rewrite <- Zlt_Qlt; exact En).
      split.
      * apply Qle_shift_div_l; [exact Hn|].
        rewrite Qmult_0_l. change 0%Q with (inject_Z 0).
        rewrite <- Zle_Qle. lia.
      * apply Qle_shift_div_r; [exact Hn|].
        rewrite Qmult_1_l. rewrite <- Zle_Qle. lia.
    + intros _. eexists. split; [reflexivity|].
      cbn [run_score run_passed num_tasks run_results].
      split; [reflexivity|]. split; lia.
Qed.
End RunBounds.

Section RunBoundsExamples.
Import World Loader Evaluator Spec Scenario.

(** A run over two loaded instances. *)
Lemma evaluate_agent_score_bounds_witness :
  let env := mkEnv calm_proc brittle_agent no_fault (fun _ => 0%Q) no_leftover in
  let self := mkEvaluator [i1; i2] [] in
  current_instances self <> []
  /\ exists score self' st' run,
       evaluate_agent env self 2 start = (Ok (score, self'), st')
       /\ (0 <= score <= 1)%Q
       /\ results_history self' = [run]
       /\ 0 <= run_passed run <= Z.max 0 (num_tasks run).
Proof.
  intros env self.
  assert (Hne : current_instances self <> []) by discriminate.
  split; [exact Hne|].
  destruct (evaluate_agent_score_bounds env self 2 start)
    as (score & self' & st' & Hrun & Hscore & Hhist).
  destruct (Hhist Hne) as (run & Hh & _ & Hp & _).
  exists score, self', st', run. now repeat split.
Defined.
End RunBoundsExamples.


(* ===================================================================== *)
(** * evaluator.py: the trend on a short history *)
(* ===================================================================== *)

Section ShortHistory.
Import Evaluator Spec.

Lemma sum_bounded (m : Q) (l : list Q) :
  Forall (fun s => s <= m)%Q l ->
  (Py.sum l <= inject_Z (Z.of_nat (length l)) * m)%Q.
Proof.
  intros H. rewrite sum_fold_right.
  induction H as [|x l Hx _ IH]; simpl fold_right.
  - simpl. rewrite Qmult_0_l. apply Qle_refl.
  - cbn [length]. rewrite Nat2Z.inj_succ. unfold Z.succ.
    rewrite inject_Z_plus.
    setoid_replace ((inject_Z (Z.of_nat (length l)) + inject_Z 1) * m)%Q
      with (m + inject_Z (Z.of_nat (length l)) * m)%Q by ring.
    now apply Qplus_le_compat.
Qed.

Lemma mean_bounded (m : Q) (l : list Q) :
  l <> [] -> Forall (fun s => s <= m)%Q l -> (mean l <= m)%Q.
Proof.
  intros Hne H. unfold mean.
  apply Qle_shift_div_r.
  - change 0%Q with (inject_Z 0). rewrite <- Zlt_Qlt.
    destruct l; [contradiction | simpl; lia].
  - rewrite Qmult_comm. now apply sum_bounded.
Qed.

Lemma mean_single (x : Q) : (mean [x] == x)%Q.
Proof. unfold mean, Py.sum. simpl. field. Qed.

(** With two to nine runs in the history, each with a score between 0
    and 1 as [evaluate_agent] records them, the trend is never
    "improving" when the latest run scored at least as high as each of
    the (up to five) most recent runs: the baseline of the comparison
    is that latest score. A history of steadily rising scores is
    therefore reported as declining or stable. *)
Theorem short_history_never_improving (self : Evaluator)
    (init : list EvaluationRun) (latest : EvaluationRun) :
  let history := results_history self in
  history = (init ++ [latest])%list ->
  (2 <= length history < 10)%nat ->
  Forall (fun r => 0 <= run_score r <= 1)%Q history ->
  Forall (fun r => run_score r <= run_score latest)%Q
         (skipn (length history - 5) history) ->
  exists trend,
    Py.get (get_improvement_metrics self) "trend" = Some (Py.VStr trend)
    /\ trend <> "improving".
Proof.
  intros history Hlast Hn _ Hrecent.
  assert (Hl : Py.last_item history = Some latest)
    by (rewrite Hlast; apply last_item_app).
  unfold get_improvement_metrics. fold history.
  destruct (Z.of_nat (length history) <? 2) eqn:E2;
    [apply Z.ltb_lt in E2; lia|].
  destruct (10 <=? Z.of_nat (length history)) eqn:E10;
    [apply Z.leb_le in E10; lia|].
  rewrite slice_last_five, Hl.
  set (recent := map run_score (skipn (length history - 5) history)).
  assert (Hmean : (mean recent <= run_score latest)%Q).
  { apply mean_bounded.
    - unfold recent. intros H. apply (f_equal (@length Q)) in H.
      rewrite length_map, length_skipn in H. simpl in H. lia.
    - unfold recent. apply Forall_map. exact Hrecent. }
  assert (Hd : (mean recent - mean [run_score latest] <= 0)%Q).
  { rewrite mean_single.
    setoid_replace 0%Q with (run_score latest - run_score latest)%Q by ring.
    unfold Qminus. now apply Qplus_le_l. }
  eexists. split; [reflexivity|].
  unfold trend_of, Qlt_bool.
  assert (Hle : Qle_bool (mean recent - mean [run_score latest]) (1 # 100)
                = true).
  { apply Qle_bool_iff. eapply Qle_trans; [exact Hd | discriminate]. }
  rewrite Hle. cbn [negb].
  destruct (negb _); discriminate.
Qed.

(** The hypotheses of [short_history_never_improving] are met by three
    runs with rising scores, which are reported as declining. *)
Lemma short_history_never_improving_witness :
  let run (s : Q) := mkRun 0 10 0 s [] in
  let self := mkEvaluator [] [run (1 # 10); run (3 # 10); run (6 # 10)] in
  Py.get (get_improvement_metrics self) "trend" = Some (Py.VStr "declining")
  /\ exists trend,
       Py.get (get_improvement_metrics self) "trend"
         = Some (Py.VStr trend)
       /\ trend <> "improving".
Proof.
  intros run self. split; [reflexivity|].
  apply (short_history_never_improving self
           [run (1 # 10); run (3 # 10)] (run (6 # 10))).
  - reflexivity.
  - simpl. lia.
  - simpl. repeat constructor; discriminate.
  - simpl. repeat constructor; discriminate.
Defined.
End ShortHistory.

(* ===================================================================== *)
(** * Loading the instances *)
(* ===================================================================== *)

Section Loading.
Import World Loader Evaluator Dataset Spec.

(** [l[:k]] for any [k >= 0]. *)
Lemma slice_prefix_any {A} (l : list A) (k : Z) :
  0 <= k -> Py.slice l None (Some k) = firstn (Z.to_nat k) l.
Proof.
  intros Hk.
  destruct (Z_le_gt_dec k (Z.of_nat (length l))) as [Hle|Hgt].
  - apply slice_prefix. lia.
  - unfold Py.slice, Py.clamp_index.
    destruct (k <? 0) eqn:E; [apply Z.ltb_lt in E; lia|].
    simpl. rewrite Z.min_l, Z.max_r, Z.sub_0_r by lia.
    rewrite Nat2Z.id. rewrite !firstn_all2 by lia. reflexivity.
Qed.

(** [l[:k]] for a negative [k] drops the last [-k] elements. *)
Lemma slice_prefix_negative {A} (l : list A) (k : Z) :
  k < 0 ->
  Py.slice l None (Some k) = firstn (Z.to_nat (Z.of_nat (length l) + k)) l.
Proof.
  intros Hk. unfold Py.slice, Py.clamp_index.
  destruct (k <? 0) eqn:E; [|apply Z.ltb_ge in E; lia].
  simpl. rewrite Z.sub_0_r. f_equal. lia.
Qed.

(** A new evaluator starts with an empty history. After a successful
    load with [max_instances >= 0] it holds the first
    min(max_instances, number of rows) rows of the dataset, in dataset
    order; with a negative [max_instances] the slice drops that many
    rows from the end instead. After a failed load it holds no
    instance, the loader is as it was, and every [evaluate_agent]
    returns 0.0 without calling anything and without recording a run. *)
Theorem new_evaluator_instances (fetched : Res (list Instance))
    (max_instances : Z) (swe_bench : LoaderState) :
  let self := fst (new_evaluator fetched max_instances swe_bench) in
  let swe_bench' := snd (new_evaluator fetched max_instances swe_bench) in
  results_history self = []
  /\ (forall rows, fetched = Ok rows ->
        loaded_instances swe_bench' = current_instances self
        /\ (0 <= max_instances ->
              current_instances self = firstn (Z.to_nat max_instances) rows
              /\ Z.of_nat (length (current_instances self)) <= max_instances)
        /\ (max_instances < 0 ->
              current_instances self
              = firstn (Z.to_nat (Z.of_nat (length rows) + max_instances))
                       rows))
  /\ (forall e, fetched = Raise e ->
        current_instances self = [] /\ swe_bench' = swe_bench
        /\ forall env requested (st : State Frame),
             evaluate_agent env self requested st = (Ok (0%Q, self), st)).
Proof.
  intros self swe_bench'. unfold self, swe_bench', new_evaluator.
  destruct fetched as [rows|e]; cbn.
  - split; [reflexivity|]. split; [|intros e H; discriminate].
    intros rows' H. injection H as <-.
    split; [reflexivity|]. split.
    + intros Hk. rewrite slice_prefix_any by exact Hk.
      split; [reflexivity|]. rewrite length_firstn. lia.
    + intros Hk. now apply slice_prefix_negative.
  - split; [reflexivity|]. split; [intros rows H; discriminate|].
    intros e' _. repeat split.
Qed.

(** [get_instance] returns the first loaded instance that carries the
    id, and nothing when no loaded instance carries it. *)
Theorem get_instance_first_match (self : LoaderState) (iid : string) :
  match get_instance self iid with
  | Some instance =>
      instance_id instance = iid
      /\ exists before after,
           loaded_instances self = (before ++ instance :: after)%list
           /\ Forall (fun x => instance_id x <> iid) before
  | None => Forall (fun x => instance_id x <> iid) (loaded_instances self)
  end.
Proof.
  unfold get_instance.
  induction (loaded_instances self) as [|x l IH]; simpl; [constructor|].
  destruct (String.eqb (instance_id x) iid) eqn:E.
  - apply String.eqb_eq in E. split; [exact E|].
    exists [], l. split; [reflexivity | constructor].
  - apply String.eqb_neq in E.
    destruct (find _ l) as [y|].
    + destruct IH as (Hid & before & after & -> & Hb).
      split; [exact Hid|]. exists (x :: before), after.
      split; [reflexivity | now constructor].
    + now constructor.
Qed.
End Loading.

Section LoadingExamples.
Import World Loader Evaluator Dataset Spec Scenario.

(** A load that is cut to one instance, and a load that fails. *)
Lemma new_evaluator_instances_witness :
  let env := mkEnv calm_proc steady_agent no_fault (fun _ => 0%Q) no_leftover in
  current_instances (fst (new_evaluator (Ok [i1; i2]) 1 new_loader)) = [i1]
  /\ evaluate_agent env
       (fst (new_evaluator (Raise "offline") 20 new_loader)) 10 start
     = (Ok (0%Q, mkEvaluator [] []), start).
Proof.
  intros env.
  destruct (new_evaluator_instances (Ok [i1; i2]) 1 new_loader)
    as (_ & Hok & _).
  destruct (Hok _ eq_refl) as (_ & Hfirst & _).
  destruct (Hfirst ltac:(lia)) as [Hcur _].
  split; [exact Hcur|].
  destruct (new_evaluator_instances (Raise "offline") 20 new_loader)
    as (_ & _ & Hfail).
  destruct (Hfail _ eq_refl) as (_ & _ & Hzero).
  exact (Hzero env 10 start).
Defined.

(** A lookup that succeeds and one that finds nothing. *)
Lemma get_instance_first_match_witness :
  get_instance (mkLoader None [i1; i2]) "i2" = Some i2
  /\ get_instance (mkLoader None [i1; i2]) "i9" = None
  /\ Forall (fun x => instance_id x <> "i9") [i1; i2].
Proof.
  split; [reflexivity|]. split; [reflexivity|].
  exact (get_instance_first_match (mkLoader None [i1; i2]) "i9").
Defined.
End LoadingExamples.


(* ===================================================================== *)
(** * evaluator.py: sandboxes after a run without exceptions *)
(* ===================================================================== *)

Section DirectoryFacts.
Import World Spec Sandboxes.
Context {L : Type}.

Lemma only_dir_refl (dir : string) (st : State L) : only_dir dir st st.
Proof. intros other _. reflexivity. Qed.

Lemma only_dir_trans (dir : string) (a b c : State L) :
  only_dir dir a b -> only_dir dir b c -> only_dir dir a c.
Proof.
  intros H1 H2 other Hne. rewrite (H2 other Hne). now apply H1.
Qed.

Lemma only_dir_same_fs (dir : string) (st st' : State L) :
  fs st' = fs st -> only_dir dir st st'.
Proof. intros H other _. now rewrite H. Qed.

Lemma exists_dir_other_added (other dir : string) (dirs : list string) :
  other <> dir -> exists_dir other (dir :: dirs) = exists_dir other dirs.
Proof.
  intros Hne. unfold exists_dir. simpl.
  apply String.eqb_neq in Hne. now rewrite Hne.
Qed.

Lemma exists_dir_other_removed (other dir : string) (dirs : list string) :
  other <> dir ->
  exists_dir other (remove_dir dir dirs) = exists_dir other dirs.
Proof.
  intros Hne. unfold exists_dir, remove_dir.
  induction dirs as [|d dirs IH]; simpl; [reflexivity|].
  destruct (String.eqb dir d) eqn:E; simpl.
  - apply String.eqb_eq in E. subst d.
    apply String.eqb_neq in Hne. now rewrite Hne, IH.
  - now rewrite IH.
Qed.

Variable env : Env.

Lemma dirs_subprocess_run (dir cmd : string) :
  preserves (only_dir dir) (subprocess_run (L := L) env cmd).
Proof. intros st. now apply only_dir_same_fs. Qed.

Lemma dirs_solve_task (dir problem repo_dir : string) :
  preserves (only_dir dir) (solve_task (L := L) env problem repo_dir).
Proof. intros st. now apply only_dir_same_fs. Qed.

Lemma dirs_path_exists (dir d : string) :
  preserves (only_dir dir) (path_exists (L := L) d).
Proof. intros st. apply only_dir_refl. Qed.

Lemma dirs_time_time (dir : string) :
  preserves (only_dir dir) (time_time (L := L) env).
Proof. intros st. apply only_dir_refl. Qed.

Lemma dirs_mkdir_exist_ok (dir d : string) :
  preserves (only_dir dir) (mkdir_exist_ok (L := L) env d).
Proof.
  intros st. unfold mkdir_exist_ok.
  destruct (fault env (log st) (EvMkdir d)); now apply only_dir_same_fs.
Qed.

Lemma dirs_write_text (dir d name content : string) :
  preserves (only_dir dir) (write_text (L := L) env d name content).
Proof.
  intros st. unfold write_text.
  destruct (fault env (log st) _); [|destruct (exists_dir d (fs st))];
    now apply only_dir_same_fs.
Qed.

Lemma dirs_rmtree (dir : string) :
  preserves (only_dir dir) (rmtree (L := L) env dir).
Proof.
  intros st. unfold rmtree.
  destruct (fault env (log st) (EvRmtree dir));
    [now apply only_dir_same_fs|].
  destruct (exists_dir dir (fs st)); [|now apply only_dir_same_fs].
  intros other Hne. cbn [snd fs log_event].
  now apply exists_dir_other_removed.
Qed.

Lemma dirs_subprocess_run_clone (dir cmd : string) :
  preserves (only_dir dir) (subprocess_run_clone (L := L) env cmd dir).
Proof.
  intros st. unfold subprocess_run_clone.
  destruct (proc env (log st) cmd) as [r|e];
    [|now apply only_dir_same_fs].
  destruct ((returncode r =? 0) || leftover env (log st) dir);
    [|now apply only_dir_same_fs].
  intros other Hne. cbn [snd fs log_event].
  now apply exists_dir_other_added.
Qed.
End DirectoryFacts.

Create HintDb dirs.

#[local] Hint Resolve dirs_subprocess_run dirs_solve_task dirs_path_exists
  dirs_time_time dirs_mkdir_exist_ok dirs_write_text dirs_rmtree
  dirs_subprocess_run_clone : dirs.

(** Goals [preserves (only_dir d) m] for a program [m] built from the
    primitives with [bind], [try_catch] and conditionals. *)
Ltac dirs_tac :=
  repeat first
    [ apply preserves_bind; [apply only_dir_trans | | intro]
    | apply preserves_try_catch; [apply only_dir_trans | | intro]
    | apply preserves_ret; apply only_dir_refl
    | apply preserves_raise; apply only_dir_refl
    | solve [auto with dirs]
    | match goal with
      | |- Spec.preserves _ (if ?b then _ else _) => destruct b
      | |- Spec.preserves _ (match ?x with _ => _ end) => destruct x
      end ].

Section CleanRun.
Import World Loader Evaluator Spec Sandboxes.
Variable env : Env.

Lemma dirs_setup_repository {L} (instance : Instance) :
  preserves (only_dir (L := L) (repo_dir_of instance))
            (setup_repository env instance).
Proof. unfold setup_repository. dirs_tac. Qed.

Lemma dirs_run_tests {L} (dir repo_dir : string) (instance : Instance) :
  preserves (only_dir (L := L) dir) (run_tests env repo_dir instance).
Proof. unfold run_tests. dirs_tac. Qed.

Lemma dirs_evaluate_patch {L} (dir repo_dir patch : string)
    (instance : Instance) :
  preserves (only_dir (L := L) dir)
            (evaluate_patch env repo_dir patch instance).
Proof. unfold evaluate_patch. dirs_tac. apply dirs_run_tests. Qed.

Lemma dirs_extract_patch {L} (dir solution repo_dir : string) :
  preserves (only_dir (L := L) dir)
            (extract_patch_from_solution env solution repo_dir).
Proof.
  unfold extract_patch_from_solution, extract_patch_body. dirs_tac.
Qed.

(** The body of the [try] touches no directory but the sandbox of its
    instance. *)
Lemma task_body_dirs (instance : Instance) (st st' : State Frame)
    (r : Res unit) :
  task_body env instance st = (r, st') ->
  only_dir (repo_dir_of instance) st st'.
Proof.
  set (dir := repo_dir_of instance).
  unfold task_body. intros H.
  apply bind_inv in H as [(start & s0 & H0 & H)|(e & H0 & _)];
    [|discriminate].
  injection H0 as _ <-.
  apply bind_inv in H as [(d & s1 & H1 & H)|(e & H1 & _)];
    [|exact (preserves_run _ _ _ _ _ (dirs_setup_repository instance) H1)].
  pose proof (preserves_run _ _ _ _ _ (dirs_setup_repository instance) H1)
    as D1.
  apply setup_repository_returns in H1 as ->. fold dir in H, D1 |- *.
  apply bind_inv in H as [(solution & s2 & H2 & H)|(e & H2 & _)];
    pose proof (preserves_run _ _ _ _ _ (dirs_solve_task env dir _ _) H2)
      as D2;
    [|exact (only_dir_trans _ _ _ _ D1 D2)].
  apply bind_inv in H as [(patch & s3 & H3 & H)|(e & H3 & _)];
    pose proof (preserves_run _ _ _ _ _ (dirs_extract_patch dir _ _) H3)
      as D3;
    [|exact (only_dir_trans _ _ _ _ D1 (only_dir_trans _ _ _ _ D2 D3))].
  apply bind_inv in H as [(evaluation & s4 & H4 & H)|(e & H4 & _)];
    pose proof (preserves_run _ _ _ _ _ (dirs_evaluate_patch dir _ _ _) H4)
      as D4;
    [|exact (only_dir_trans _ _ _ _ D1
               (only_dir_trans _ _ _ _ D2 (only_dir_trans _ _ _ _ D3 D4)))].
  apply bind_inv in H as [(now & s5 & H5 & H)|(e & H5 & _)];
    [|discriminate].
  injection H5 as _ <-.
  assert (D5 : only_dir dir s4 st').
  { revert H. unfold bind, modify_locals, path_exists, ret.
    destruct (success evaluation); cbn [fs log locals];
      (destruct (exists_dir dir (fs s4)) eqn:Edir;
       [ intros H;
         match type of H with
         | rmtree env dir ?s = _ =>
             pose proof (dirs_rmtree env dir s) as D;
             rewrite H in D; exact D
         end
       | intros H; injection H as _ <-; now apply only_dir_same_fs ]). }
  exact (only_dir_trans _ _ _ _ D1
           (only_dir_trans _ _ _ _ D2
              (only_dir_trans _ _ _ _ D3 (only_dir_trans _ _ _ _ D4 D5)))).
Qed.

Lemma exception_result_irregular (instance : Instance) (e : string) :
  ~ regular (exception_result instance e).
Proof. intros H. now apply H. Qed.

(** One iteration touches no directory but the sandbox of its
    instance, and when it recorded no entry of the [except] branch that
    sandbox is gone. *)
Lemma evaluate_task_clean (instances : list Instance) (i : nat)
    (instance : Instance) (st : State Frame) :
  nth_error instances i = Some instance ->
  exists st' new,
    evaluate_task env instances i st = (Ok tt, st')
    /\ results (locals st') = (results (locals st) ++ new)%list
    /\ only_dir (repo_dir_of instance) st st'
    /\ (Forall regular new ->
        exists_dir (repo_dir_of instance) (fs st') = false).
Proof.
  intros Hnth.
  destruct (evaluate_task_outcome env instances i instance st Hnth)
    as (st' & new & Hrun & _ & [Hres _] & _ & Hexn).
  exists st', new. split; [exact Hrun|]. split; [exact Hres|].
  unfold evaluate_task in Hrun. rewrite Hnth in Hrun.
  unfold bind at 1 in Hrun. unfold print_task at 1 in Hrun.
  set (st0 := log_event (EvTask i (instance_id instance)) st) in *.
  unfold try_catch in Hrun.
  destruct (task_body env instance st0) as [[[]|e] st1] eqn:Ebody.
  - injection Hrun as <-.
    pose proof (task_body_dirs _ _ _ _ Ebody) as D.
    destruct (task_body_outcome _ _ _ _ _ Ebody) as [_ Hcases].
    split; [exact D|]. intros _.
    destruct Hcases as [(e & He & _)|(result & _ & _ & Hgone)];
      [discriminate | now apply Hgone].
  - pose proof (task_body_dirs _ _ _ _ Ebody) as D.
    unfold modify_locals in Hrun. injection Hrun as <-.
    split; [exact D|]. intros Hreg. exfalso.
    destruct (Hexn e st1 eq_refl) as [_ Hin].
    rewrite Forall_forall in Hreg.
    exact (exception_result_irregular instance e (Hreg _ Hin)).
Qed.

Lemma for_each_clean (instances : list Instance) (idxs : list nat) :
  Forall (fun i => i < length instances)%nat idxs ->
  forall st,
  exists st' new,
    for_each idxs (evaluate_task env instances) st = (Ok tt, st')
    /\ results (locals st') = (results (locals st) ++ new)%list
    /\ (Forall regular new ->
        forall dir,
          exists_dir dir (fs st) = false
          \/ (exists i instance, In i idxs
                                 /\ nth_error instances i = Some instance
                                 /\ dir = repo_dir_of instance) ->
          exists_dir dir (fs st') = false).
Proof.
  induction 1 as [|i idxs Hi _ IH]; intros st.
  - exists st, []. split; [reflexivity|].
    split; [now rewrite app_nil_r|].
    intros _ dir [H|(i & instance & [] & _)]. exact H.
  - destruct (nth_error instances i) as [instance|] eqn:Hnth;
      [|apply nth_error_None in Hnth; lia].
    destruct (evaluate_task_clean instances i instance st Hnth)
      as (st1 & new1 & Hrun1 & Hres1 & Hdirs & Hgone).
    destruct (IH st1) as (st2 & new2 & Hrun2 & Hres2 & Hrest).
    exists st2, (new1 ++ new2)%list.
    split; [|split].
    + cbn [for_each]. unfold bind. now rewrite Hrun1.
    + now rewrite Hres2, Hres1, app_assoc.
    + intros Hreg dir Hdir.
      apply Forall_app in Hreg as [Hreg1 Hreg2].
      apply (Hrest Hreg2).
      destruct (string_dec dir (repo_dir_of instance)) as [->|Hne].
      * left. now apply Hgone.
      * rewrite (Hdirs dir Hne).
        destruct Hdir as [H|(j & inst & [<-|Hj] & Hnj & ->)].
        -- now left.
        -- rewrite Hnth in Hnj. injection Hnj as <-. contradiction.
        -- right. now exists j, inst.
Qed.

(** When the run that [evaluate_agent] appends to the history has no
    entry written by the [except] branch, no sandbox of an instance of
    the run exists any more when [evaluate_agent] returns. *)
Theorem clean_run_leaves_no_sandbox (self self' : Evaluator)
    (requested : Z) (st st' : State Frame) (score : Q)
    (run : EvaluationRun) :
  current_instances self <> [] ->
  evaluate_agent env self requested st = (Ok (score, self'), st') ->
  Py.last_item (results_history self') = Some run ->
  Forall regular (run_results run) ->
  forall i instance,
    (i < Z.to_nat (num_tasks run))%nat ->
    nth_error (current_instances self) i = Some instance ->
    exists_dir (repo_dir_of instance) (fs st') = false.
Proof.
  intros Hne Hrun Hlast Hreg i instance Hi Hnth.
  rewrite (evaluate_agent_nonempty env self requested Hne) in Hrun.
  cbv zeta in Hrun.
  set (n := Z.min requested (Z.of_nat (length (current_instances self))))
    in *.
  set (st0 := mkState (fs st) (log st) (mkFrame 0 [])) in *.
  assert (Hrange : Forall (fun j => j < length (current_instances self))%nat
                          (seq 0 (Z.to_nat n))).
  { apply Forall_forall. intros j Hj. apply in_seq in Hj. unfold n in *. lia. }
  destruct (for_each_clean (current_instances self) _ Hrange st0)
    as (st1 & new & Hloop & Hres & Hgone).
  unfold bind at 1 in Hrun. unfold modify_locals at 1 in Hrun.
  fold st0 in Hrun. unfold bind at 1 in Hrun. rewrite Hloop in Hrun.
  cbn in Hrun. injection Hrun as _ <- <-.
  cbn [results_history] in Hlast. rewrite last_item_app in Hlast.
  injection Hlast as <-. cbn [run_results num_tasks] in Hreg, Hi.
  rewrite Hres in Hreg. cbn [st0 locals results app] in Hreg.
  apply (Hgone Hreg). right. exists i, instance.
  split; [apply in_seq; lia|]. now split.
Qed.
End CleanRun.

Section CleanRunExamples.
Import World Loader Evaluator Spec Sandboxes Scenario.

(** The hypotheses of [clean_run_leaves_no_sandbox] are met by a run of
    the steady agent over two instances, started while a sandbox of the
    first one is left over from an earlier run. *)
Lemma clean_run_leaves_no_sandbox_witness :
  let env := mkEnv calm_proc steady_agent no_fault (fun _ => 0%Q) no_leftover in
  let self := mkEvaluator [i1; i2] [] in
  let st := mkState [repo_dir_of i1] [] (mkFrame 0 []) in
  exists score self' st' run,
    evaluate_agent env self 2 st = (Ok (score, self'), st')
    /\ Py.last_item (results_history self') = Some run
    /\ Forall regular (run_results run)
    /\ exists_dir (repo_dir_of i1) (fs st') = false
    /\ exists_dir (repo_dir_of i2) (fs st') = false.
Proof.
  intros env self st.
  destruct (evaluate_agent env self 2 st) as [[[score self']|e] st'] eqn:E;
    [|vm_compute in E; discriminate].
  assert (Hhist : exists run, results_history self' = [run]
                              /\ map r_repo (run_results run)
                                 = [Some "org/one"; Some "org/two"]
                              /\ num_tasks run = 2).
  { vm_compute in E. injection E as _ <- _.
    eexists. split; [reflexivity|]. split; reflexivity. }
  destruct Hhist as (run & Hh & Hrepos & Hn).
  assert (Hlast : Py.last_item (results_history self') = Some run)
    by (rewrite Hh; reflexivity).
  assert (Hreg : Forall regular (run_results run)).
  { unfold regular. destruct (run_results run) as [|r1 [|r2 [|r3 rest]]];
      try discriminate.
    injection Hrepos as H1 H2.
    repeat constructor; congruence. }
  assert (Hne : current_instances self <> []) by discriminate.
  exists score, self', st', run.
  split; [reflexivity|]. split; [exact Hlast|]. split; [exact Hreg|].
  split.
  - apply (clean_run_leaves_no_sandbox env self self' 2 st st' score run
             Hne E Hlast Hreg 0%nat i1); [rewrite Hn; simpl; lia | reflexivity].
  - apply (clean_run_leaves_no_sandbox env self self' 2 st st' score run
             Hne E Hlast Hreg 1%nat i2); [rewrite Hn; simpl; lia | reflexivity].
Defined.
End CleanRunExamples.


(* ===================================================================== *)
(** * archive.py: listing the variants *)
(* ===================================================================== *)

Section FilterSort.
Context {A : Type} (before : A -> A -> bool) (p : A -> bool).

Hypothesis before_total : forall x y, before x y = false -> before y x = true.
Hypothesis before_trans :
  forall x y z, before x y = true -> before y z = true -> before x z = true.

Lemma insert_in_front (x : A) (l : list A) :
  Forall (fun z => before x z = true) l -> Py.insert before x l = x :: l.
Proof. intros H. destruct H as [|z l Hz _]; simpl; [|rewrite Hz]; reflexivity. Qed.

Lemma filter_insert (x : A) (l : list A) :
  StronglySorted (fun a b => before a b = true) l ->
  filter p (Py.insert before x l)
  = if p x then Py.insert before x (filter p l) else filter p l.
Proof.
  induction 1 as [|y t Hs IH Hall]; simpl.
  - now destruct (p x).
  - destruct (before x y) eqn:Exy.
    + simpl. destruct (p x) eqn:Epx; [|reflexivity].
      symmetry. apply insert_in_front.
      apply Forall_forall. intros z Hz.
      assert (Hz' : In z (y :: t)).
      { destruct (p y); [|now right; apply filter_In in Hz as [Hz _]].
        destruct Hz as [<-|Hz]; [now left|].
        right. now apply filter_In in Hz as [Hz _]. }
      destruct Hz' as [<-|Hz']; [exact Exy|].
      rewrite Forall_forall in Hall.
      exact (before_trans _ _ _ Exy (Hall z Hz')).
    + simpl. rewrite IH.
      destruct (p x), (p y); simpl; rewrite ?Exy; reflexivity.
Qed.

(** The stable sort commutes with a filter. *)
Lemma filter_sort (l : list A) :
  filter p (Py.sort before l) = Py.sort before (filter p l).
Proof.
  induction l as [|x l IH]; [reflexivity|].
  change (Py.sort before (x :: l))
    with (Py.insert before x (Py.sort before l)).
  rewrite filter_insert by now apply sort_strongly_sorted.
  rewrite IH. simpl. now destruct (p x).
Qed.
End FilterSort.

Section Listing.
Import Archive Spec.

(** [get_all_agents] lists, newest first, every stored variant once
    when [functional_only] is off, and every functional variant once
    and nothing else when it is on; the filtered listing holds the
    functional entries of the unfiltered one. *)
Theorem get_all_agents_listing (db : DB) (functional_only : bool) :
  let listing := get_all_agents db functional_only in
  Permutation listing
    (if functional_only then filter is_functional (agents db)
     else agents db)
  /\ StronglySorted (fun x y => created_at y <= created_at x) listing
  /\ Permutation (get_all_agents db true)
       (filter is_functional (get_all_agents db false)).
Proof.
  assert (Htotal : forall x y : Agent,
             (created_at y <=? created_at x) = false ->
             (created_at x <=? created_at y) = true)
    by (intros x y H; apply Z.leb_gt in H; apply Z.leb_le; lia).
  assert (Htrans : forall x y z : Agent,
             (created_at y <=? created_at x) = true ->
             (created_at z <=? created_at y) = true ->
             (created_at z <=? created_at x) = true)
    by (intros x y z H1 H2; apply Z.leb_le in H1, H2; apply Z.leb_le; lia).
  assert (Hsorted : forall l,
             StronglySorted (fun x y : Agent => created_at y <= created_at x)
               (order_by_created_desc l)).
  { intros l. unfold order_by_created_desc.
    eapply StronglySorted_ind with
      (P := fun l => StronglySorted
                       (fun x y : Agent => created_at y <= created_at x) l);
      [constructor | | apply (sort_strongly_sorted _ Htotal Htrans)].
    intros a t _ IH Hall. constructor; [exact IH|].
    eapply Forall_impl; [|exact Hall]. intros b Hb. now apply Z.leb_le. }
  intros listing. unfold listing, get_all_agents.
  split; [|split].
  - destruct functional_only; apply Permutation_sym, sort_perm.
  - destruct functional_only; apply Hsorted.
  - unfold order_by_created_desc.
    rewrite (filter_sort _ _ Htotal Htrans). apply Permutation_refl.
Qed.
End Listing.

(* ===================================================================== *)
(** * evaluator.py: the sandbox after an exception of the agent *)
(* ===================================================================== *)

Section AgentException.
Import World Loader Evaluator Spec.
Variable env : Env.

(** When the sandbox of an instance was set up and the agent's
    [solve_task] raises, the iteration records the exception and ends
    with the sandbox still in place: between the setup and the end of
    the iteration [shutil.rmtree] is not called. *)
Theorem agent_exception_keeps_sandbox (instances : list Instance) (i : nat)
    (instance : Instance) (st s1 : State Frame) (dir e : string) :
  nth_error instances i = Some instance ->
  setup_repository env instance
    (log_event (EvTask i (instance_id instance)) st) = (Ok dir, s1) ->
  agent env (log s1) (problem_statement instance) dir = Raise e ->
  exists st',
    evaluate_task env instances i st = (Ok tt, st')
    /\ exists_dir (repo_dir_of instance) (fs st') = true
    /\ results (locals st')
       = (results (locals st) ++ [exception_result instance e])%list
    /\ passed (locals st') = passed (locals st)
    /\ log st' = (log s1 ++ [EvSolve (problem_statement instance) dir])%list.
Proof.
  intros Hnth Hsetup Hagent.
  pose proof (preserves_run _ _ _ _ _ (frame_setup_repository env instance)
                Hsetup) as [Hlocals _].
  destruct (setup_repository_ok env instance _ _ _ Hsetup) as [Hdir Hexists].
  unfold evaluate_task. rewrite Hnth.
  unfold bind at 1. unfold print_task at 1.
  unfold try_catch, task_body.
  unfold bind at 1. unfold time_time at 1.
  unfold bind at 1. rewrite Hsetup.
  unfold bind at 1. unfold solve_task at 1. rewrite Hagent.
  unfold modify_locals.
  eexists. split; [reflexivity|].
  unfold log_event. cbn [fs log locals append_result results passed].
  rewrite <- Hdir. split; [exact Hexists|].
  rewrite Hlocals. cbn [locals log_event]. now repeat split.
Qed.
End AgentException.

Section AgentExceptionExamples.
Import World Loader Evaluator Spec Scenario.

(** The hypotheses of [agent_exception_keeps_sandbox] are met by the
    brittle agent on the first instance. *)
Lemma agent_exception_keeps_sandbox_witness :
  let env := mkEnv calm_proc brittle_agent no_fault (fun _ => 0%Q) no_leftover in
  exists st',
    evaluate_task env [i1; i2] 0 start = (Ok tt, st')
    /\ exists_dir (repo_dir_of i1) (fs st') = true
    /\ results (locals st') = [exception_result i1 "connection refused"].
Proof.
  intros env.
  destruct (agent_exception_keeps_sandbox env [i1; i2] 0 i1 start
              (snd (setup_repository env i1 (log_event (EvTask 0 "i1") start)))
              (repo_dir_of i1) "connection refused")
    as (st' & Hrun & Hdir & Hres & _); try reflexivity.
  exists st'. split; [exact Hrun|]. split; [exact Hdir | exact Hres].
Defined.
End AgentExceptionExamples.


(* ===================================================================== *)
(** * archive.py: lineages of the archives the calls can build *)
(* ===================================================================== *)

Section Reachable.
Import Archive Ranking Spec.

Lemma forallb_filter {A} (f p : A -> bool) (l : list A) :
  forallb f l = true -> forallb f (filter p l) = true.
Proof.
  rewrite !forallb_forall. intros H x Hx.
  apply filter_In in Hx as [Hx _]. now apply H.
Qed.

Lemma reachable_parents_precede (db : DB) :
  reachable db -> parents_precede db = true.
Proof.
  induction 1 as [|now db code score parent desc meta fn _ IH Hparent
                  |db keep_n _ IH].
  - reflexivity.
  - unfold parents_precede in *. cbn [save_agent snd agents].
    rewrite forallb_app, IH. cbn [forallb parent_id id andb].
    destruct parent as [p|]; [|reflexivity].
    rewrite andb_true_r. apply Z.ltb_lt. lia.
  - unfold parents_precede in *. cbn [cleanup_old_agents agents].
    now apply forallb_filter.
Qed.

(** On every archive built by [save_agent] and [cleanup_old_agents]
    with parent ids that were handed out before, the parent of a stored
    variant has a smaller id than the variant, and [get_lineage]
    terminates for every id within one more iteration than there are
    rows. *)
Theorem reachable_lineage_terminates (db : DB) (agent_id : Z) :
  reachable db ->
  parents_precede db = true
  /\ exists lineage,
       forall fuel, (length (agents db) < fuel)%nat ->
         get_lineage fuel db agent_id = Some lineage.
Proof.
  intros Hreach.
  pose proof (reachable_parents_precede db Hreach) as Hinv.
  split; [exact Hinv|].
  destruct (acyclic_terminates db agent_id
              (parents_precede_acyclic db agent_id Hinv)) as [l Hl].
  exists l. intros fuel Hfuel. unfold get_lineage in *.
  apply (loop_fuel_mono db _ _ _ _ Hl). lia.
Qed.

(** The hypothesis of [reachable_lineage_terminates] is met by an
    archive built the way the improvement loop builds it: a baseline
    and two variants that name the baseline as parent, then a cleanup. *)
Lemma reachable_lineage_terminates_witness :
  let db1 := snd (save_agent 100 empty "v1" (1 # 10) None "base" "{}" true) in
  let db2 := snd (save_agent 200 db1 "v2" (3 # 10) (Some 1) "it 1" "{}" true) in
  let db3 := snd (save_agent 300 db2 "v3" (2 # 10) (Some 1) "it 2" "{}" true) in
  let db := cleanup_old_agents db3 2 in
  reachable db
  /\ map id (agents db) = [2; 3]
  /\ exists lineage,
       forall fuel, (length (agents db) < fuel)%nat ->
         get_lineage fuel db 3 = Some lineage.
Proof.
  intros db1 db2 db3 db.
  assert (Hreach : reachable db).
  { apply reach_cleanup. apply reach_save; [|simpl; lia].
    apply reach_save; [|simpl; lia].
    apply reach_save; [apply reach_empty | exact I]. }
  split; [exact Hreach|]. split; [reflexivity|].
  apply (reachable_lineage_terminates db 3 Hreach).
Defined.
End Reachable.

(* ===================================================================== *)
(** * evaluator.py: a run of no task *)
(* ===================================================================== *)

Section NothingRequested.
Import World Loader Evaluator Spec.

(** With instances loaded and a requested task count of 0 or less,
    [evaluate_agent] returns 0.0 without opening an instance or calling
    anything, and appends to the history a run without results whose
    task count is the requested number as it is, negative when the
    request was. *)
Theorem evaluate_agent_nothing_requested (env : Env) (self : Evaluator)
    (requested : Z) (st : State Frame) :
  current_instances self <> [] ->
  requested <= 0 ->
  evaluate_agent env self requested st
  = (Ok (0%Q,
         mkEvaluator (current_instances self)
           (results_history self
            ++ [mkRun (clock env (log st)) requested 0 0%Q []])%list),
     mkState (fs st) (log st) (mkFrame 0 [])).
Proof.
  intros Hne Hreq.
  rewrite (evaluate_agent_nonempty env self requested Hne). cbv zeta.
  assert (Hmin : Z.min requested (Z.of_nat (length (current_instances self)))
                 = requested) by lia.
  rewrite Hmin.
  assert (Hnone : Z.to_nat requested = 0%nat) by lia.
  rewrite Hnone.
  assert (Hpos : (0 <? requested) = false) by (apply Z.ltb_ge; lia).
  rewrite Hpos. reflexivity.
Qed.
End NothingRequested.

Section NothingRequestedExamples.
Import World Loader Evaluator Spec Scenario.

(** The hypotheses of [evaluate_agent_nothing_requested] are met. *)
Lemma evaluate_agent_nothing_requested_witness :
  let env := mkEnv calm_proc steady_agent no_fault (fun _ => 0%Q) no_leftover in
  evaluate_agent env (mkEvaluator [i1; i2] []) (-3) start
  = (Ok (0%Q, mkEvaluator [i1; i2] [mkRun 0%Q (-3) 0 0%Q []]), start).
Proof.
  intros env.
  apply (evaluate_agent_nothing_requested env (mkEvaluator [i1; i2] [])
           (-3) start); [discriminate | lia].
Defined.
End NothingRequestedExamples.
